(** * Bundling core: PrimaryBundler, OptimizingBundler and WrapMarker

    A shallow embedding of the three bundler plugins

      - packages/bundlers/default/src/DefaultBundler.js   (PrimaryBundler)
      - packages/bundlers/optimize/src/OptimizeBundler.js (OptimizingBundler)
      - the wrap-flag bundler                             (WrapMarker)

    over a model of the mutable bundle graph they are written against.
    The plugins are translated statement by statement; the bundle graph
    itself (the host facade) is not part of these sources and is modelled
    from its description in the specification. *)

From Stdlib Require Import ZArith String Ascii List Bool Lia Sorted Permutation.
From stdpp Require Import base option list gmap strings sorting.

Local Open Scope string_scope.
Local Open Scope Z_scope.

(* ===================================================================== *)
(** * JavaScript values and library functions used by the plugins        *)
(* ===================================================================== *)

Module JS.

(** What a plugin can throw: [invariant(c)] from 'assert' raises an
    AssertionError when [c] is falsy, [nullthrows(x)] raises when [x] is
    null or undefined, reading a property of [undefined] is a TypeError. *)
Inductive Error : Type :=
| AssertionError
| NullthrowsError
| TypeError.

Inductive Result (A : Type) : Type :=
| Ok (a : A)
| Throw (e : Error).
Arguments Ok {A} a.
Arguments Throw {A} e.

Definition bind {A B : Type} (r : Result A) (k : A -> Result B) : Result B :=
  match r with
  | Ok a => k a
  | Throw e => Throw e
  end.

Definition nullthrows {A : Type} (x : option A) : Result A :=
  match x with
  | Some a => Ok a
  | None => Throw NullthrowsError
  end.

(** [a ?? b] *)
Definition nullish {A : Type} (a b : option A) : option A :=
  match a with
  | Some _ => a
  | None => b
  end.

(** [Array.prototype.sort(cmp)]: the sort is stable (ECMAScript 2019), so
    for a consistent comparator its result is the one stable sorted
    arrangement of the array; insertion from the right computes it.
    [cmp a b <= 0] keeps [a] in front of [b]. *)
Section Sort.
Context {A : Type} (cmp : A -> A -> Z).

Fixpoint insert_sorted (x : A) (l : list A) : list A :=
  match l with
  | [] => [x]
  | y :: l' => if (cmp x y <=? 0)%Z then x :: y :: l' else y :: insert_sorted x l'
  end.

Fixpoint sort (l : list A) : list A :=
  match l with
  | [] => []
  | x :: l' => insert_sorted x (sort l')
  end.
End Sort.

(** Numbers. The sizes the bundlers add up and compare are byte counts
    held in JavaScript numbers, IEEE 754 doubles: non-negative integers,
    exact below 2^53 and rounded to 53 significant bits from there on, or
    [Infinity]. Such a number is held as the integer it is, and
    [infinity], the first power of two that no double reaches, stands for
    [Infinity]. Among these numbers [>=] is the order of the integers and
    [b - a] has the sign of the integer difference; for [Infinity -
    Infinity], which is [NaN] and which [sort] takes for 0, it is 0. *)
Definition infinity : Z := 2 ^ 1024.

(** The double nearest to a non-negative integer, a tie going to the even
    mantissa, and [Infinity] when the rounded value does not fit. *)
Definition to_number (z : Z) : Z :=
  if z <? 2 ^ 53 then z
  else
    let e := Z.log2 z - 52 in
    let mantissa := Z.shiftr z e in
    let rest := z - Z.shiftl mantissa e in
    let half := Z.shiftl 1 (e - 1) in
    let rounded :=
      if rest <? half then mantissa
      else if half <? rest then mantissa + 1
      else if Z.even mantissa then mantissa
      else mantissa + 1 in
    Z.min infinity (Z.shiftl rounded e).

(** [x + y] on two such numbers: the exact sum, rounded. *)
Definition number_add (x y : Z) : Z := to_number (x + y).

(** The default comparator of [sort()]: strings by code unit. *)
Definition compare_strings (a b : string) : Z :=
  match String.compare a b with
  | Lt => -1
  | Eq => 0
  | Gt => 1
  end.

(** [Array.prototype.join(sep)] on an array of strings. *)
Definition join (sep : string) (l : list string) : string := String.concat sep l.

(** A [Map] with string keys. Iteration follows insertion order, and
    setting a key that is present keeps its place, so the map is an
    association list with one entry per key. *)
Section Map.
Context {V : Type}.

Fixpoint map_get (k : string) (m : list (string * V)) : option V :=
  match m with
  | [] => None
  | (k', v) :: m' => if String.eqb k' k then Some v else map_get k m'
  end.

Fixpoint map_set (k : string) (v : V) (m : list (string * V)) : list (string * V) :=
  match m with
  | [] => [(k, v)]
  | (k', v') :: m' =>
      if String.eqb k' k then (k, v) :: m' else (k', v') :: map_set k v m'
  end.

Definition map_values (m : list (string * V)) : list V := snd <$> m.
End Map.

End JS.

#[global] Instance Result_bind : MBind JS.Result :=
  fun A B (k : A -> JS.Result B) (r : JS.Result A) => JS.bind r k.
#[global] Instance Result_ret : MRet JS.Result := @JS.Ok.

(* ===================================================================== *)
(** * Data model                                                          *)
(* ===================================================================== *)

Record Environment : Type := mkEnvironment {
  env_context : string;
  env_isIsolated : bool;           (* [env.isIsolated()] *)
}.

Record Target : Type := mkTarget {
  target_name : string;
  target_distDir : string;
  target_env : Environment;
}.

(** The [meta] bag of assets and dependencies. The plugins read and write
    the [shouldWrap] key only; an absent key is [undefined]. *)
Abbreviation Meta := (gmap string bool).

Definition meta_truthy (m : Meta) (key : string) : bool :=
  default false (m !! key).

(** An asset as the bundlers see it. Its [meta] is mutable and lives in the
    graph ([assetMeta] below), addressed by the asset's id. *)
Record Asset : Type := mkAsset {
  asset_id : string;
  asset_type : string;
  asset_isIsolated : bool;
  asset_isInline : bool;
  asset_isSplittable : bool;
  asset_env : Environment;
}.

Record Dependency : Type := mkDependency {
  dep_id : string;
  dep_isEntry : bool;
  dep_isAsync : bool;
  dep_target : option Target;
  dep_meta : Meta;
}.

Record Bundle : Type := mkBundle {
  bundle_id : string;
  bundle_type : string;
  bundle_env : Environment;
  bundle_target : Target;
  bundle_isEntry : bool;
  bundle_isInline : bool;
  bundle_isSplittable : bool;
  bundle_uniqueKey : option string;
  bundle_mainEntry : option Asset;  (* [bundle.getMainEntry()] *)
}.

Record BundleGroup : Type := mkBundleGroup {
  bg_dependency : Dependency;
  bg_target : Target;
}.

(** A bundle group is identified by the dependency that opened it. *)
Definition bg_id (bg : BundleGroup) : string := dep_id (bg_dependency bg).

(** Nodes handed to traversal visitors: [node.type] and [node.value]. *)
Inductive Node : Type :=
| AssetNode (a : Asset)
| DependencyNode (d : Dependency).

Definition node_id (n : Node) : string :=
  match n with
  | AssetNode a => asset_id a
  | DependencyNode d => dep_id d
  end.

(** Modelled from the spec: what a host traversal walks, the graph unfolded
    from the traversal's root along its edges (a node that is reached along
    several paths occurs once for each). A traversal walks this tree depth
    first and visits a node only the first time it meets it. *)
#[local] Unset Elimination Schemes.
Inductive VisitTree (N : Type) : Type :=
| VNode (n : N) (children : list (VisitTree N)).
#[local] Set Elimination Schemes.
Arguments VNode {N} n children.

(** Induction over a tree and, with it, over all its subtrees. *)
Section VisitTreeInd.
Context {N : Type} (P : VisitTree N -> Prop).
Hypothesis node_case : forall n children, Forall P children -> P (VNode n children).

Fixpoint VisitTree_ind (t : VisitTree N) : P t :=
  match t with
  | VNode n children =>
      node_case n children
        ((fix all (ts : list (VisitTree N)) : Forall P ts :=
            match ts with
            | [] => List.Forall_nil P
            | t' :: ts' => @List.Forall_cons _ P t' ts' (VisitTree_ind t') (all ts')
            end) children)
  end.
End VisitTreeInd.

(* ===================================================================== *)
(** * The mutable bundle graph                                            *)
(* ===================================================================== *)

(** Modelled from the spec: the read-only asset graph under the bundle
    graph. The host's implementation of it is not part of these sources;
    the tables below are the answers of its queries.
      - [ag_depAssets]: [getDependencyAssets(dep)], by dependency id;
      - [ag_resolution]: [getDependencyResolution(dep, bundle?)], by
        dependency id and optional bundle id;
      - [ag_subgraph]: the ids of the nodes (assets and dependencies) of the
        asset subgraph rooted at an asset, the root included;
      - [ag_totalSize]: [getTotalSize(asset)], a byte count. *)
Record AssetGraph : Type := mkAssetGraph {
  ag_depAssets : string -> list Asset;
  ag_resolution : string -> option string -> option Asset;
  ag_subgraph : string -> list string;
  ag_totalSize : string -> N;
}.

(** Modelled from the spec: the bundle graph of section 3, a set of
    bundles, a set of bundle groups, the membership relation between them,
    the containment relation between bundles and the nodes of the asset
    graph, and the underlying asset graph. [internalized] and
    [assetReferences] record the two remaining mutations of section 6,
    [assetMeta] is the mutable [meta] bag of every asset. *)
Record BundleGraph : Type := mkBundleGraph {
  assetGraph : AssetGraph;
  bundles : list Bundle;
  bundleGroups : list BundleGroup;
  groupMembers : gmap string (list Bundle);
  bundleContents : gmap string (list string);
  internalized : list (string * string);
  assetReferences : list (string * string);
  assetMeta : gmap string Meta;
}.

Definition with_bundles (g : BundleGraph) (bs : list Bundle) : BundleGraph :=
  mkBundleGraph (assetGraph g) bs (bundleGroups g) (groupMembers g)
    (bundleContents g) (internalized g) (assetReferences g) (assetMeta g).

Definition with_bundleGroups (g : BundleGraph) (bgs : list BundleGroup) : BundleGraph :=
  mkBundleGraph (assetGraph g) (bundles g) bgs (groupMembers g)
    (bundleContents g) (internalized g) (assetReferences g) (assetMeta g).

Definition with_groupMembers (g : BundleGraph) (m : gmap string (list Bundle)) : BundleGraph :=
  mkBundleGraph (assetGraph g) (bundles g) (bundleGroups g) m
    (bundleContents g) (internalized g) (assetReferences g) (assetMeta g).

Definition with_bundleContents (g : BundleGraph) (m : gmap string (list string)) : BundleGraph :=
  mkBundleGraph (assetGraph g) (bundles g) (bundleGroups g) (groupMembers g)
    m (internalized g) (assetReferences g) (assetMeta g).

Definition with_internalized (g : BundleGraph) (l : list (string * string)) : BundleGraph :=
  mkBundleGraph (assetGraph g) (bundles g) (bundleGroups g) (groupMembers g)
    (bundleContents g) l (assetReferences g) (assetMeta g).

Definition with_assetReferences (g : BundleGraph) (l : list (string * string)) : BundleGraph :=
  mkBundleGraph (assetGraph g) (bundles g) (bundleGroups g) (groupMembers g)
    (bundleContents g) (internalized g) l (assetMeta g).

Definition with_assetMeta (g : BundleGraph) (m : gmap string Meta) : BundleGraph :=
  mkBundleGraph (assetGraph g) (bundles g) (bundleGroups g) (groupMembers g)
    (bundleContents g) (internalized g) (assetReferences g) m.

(** The argument object of [createBundle]. *)
Record BundleOpts : Type := mkBundleOpts {
  opt_entryAsset : option Asset;
  opt_uniqueKey : option string;
  opt_type : option string;
  opt_env : option Environment;
  opt_target : Target;
  opt_isEntry : option bool;
  opt_isInline : option bool;
  opt_isSplittable : option bool;
}.

(** The result of [resolveExternalDependency]. *)
Inductive ExternalResolution : Type :=
| ExternalBundleGroup (value : BundleGroup)
| ExternalAsset (value : Asset).

(** What a traversal visitor hands back: the context it returned
    ([None] for [undefined], which keeps the current one), whether it called
    [actions.skipChildren()], and the state it left behind. *)
Record Visit (C S : Type) : Type := mkVisit {
  visit_context : option C;
  visit_skipChildren : bool;
  visit_state : S;
}.
Arguments mkVisit {C S} _ _ _.
Arguments visit_context {C S} _.
Arguments visit_skipChildren {C S} _.
Arguments visit_state {C S} _.

(** Modelled from the spec: what the facade leaves to its host, the id a new
    bundle gets and the order in which each traversal reaches the nodes of
    the graph it is started on. *)
Record Host : Type := mkHost {
  host_bundleId : BundleOpts -> string;
  host_traverse : BundleGraph -> list (VisitTree Node);
  host_traverseBundles : BundleGraph -> list (VisitTree Bundle);
  host_traverseContents : BundleGraph -> list (VisitTree Node);
  host_bundleTraverse : BundleGraph -> Bundle -> list (VisitTree Node);
}.

Module MutableBundleGraph.

(** The queries and mutations of the MutableBundleGraph facade (section 6
    of the specification). Their implementation belongs to the host and is
    not part of these sources; each definition follows the relation of
    section 3 that the operation reads or changes. Bundles and bundle
    groups are objects of the host and are compared by id. *)

Definition has_bundle (b : Bundle) (l : list Bundle) : bool :=
  bool_decide (bundle_id b ∈ bundle_id <$> l).

Definition has_group (bg : BundleGroup) (l : list BundleGroup) : bool :=
  bool_decide (bg_id bg ∈ bg_id <$> l).

(** Insertion into a JavaScript [Set] of bundles or of bundle groups:
    insertion order is kept, a member is not added twice. *)
Definition set_add_bundle (l : list Bundle) (b : Bundle) : list Bundle :=
  if has_bundle b l then l else l ++ [b].

Definition set_add_group (l : list BundleGroup) (bg : BundleGroup) : list BundleGroup :=
  if has_group bg l then l else l ++ [bg].

(** Modelled from the spec: the containment relation, read for one
    bundle; the host's storage of it is missing. *)
Definition contents_of (g : BundleGraph) (b : Bundle) : list string :=
  default [] (bundleContents g !! bundle_id b).

(** Modelled from the spec: [getDependencyAssets(dep) -> [Asset]]. *)
Definition getDependencyAssets (g : BundleGraph) (d : Dependency) : list Asset :=
  ag_depAssets (assetGraph g) (dep_id d).

(** Modelled from the spec:
    [getDependencyResolution(dep, bundle?) -> Asset?]. *)
Definition getDependencyResolution (g : BundleGraph) (d : Dependency)
    (b : option Bundle) : option Asset :=
  ag_resolution (assetGraph g) (dep_id d) (bundle_id <$> b).

(** Modelled from the spec: [getTotalSize(asset) -> u64], which the
    caller receives as a number. *)
Definition getTotalSize (g : BundleGraph) (a : Asset) : Z :=
  JS.to_number (Z.of_N (ag_totalSize (assetGraph g) (asset_id a))).

(** Modelled from the spec: [bundle.hasAsset(asset) -> bool], the
    containment relation. *)
Definition hasAsset (g : BundleGraph) (b : Bundle) (a : Asset) : bool :=
  bool_decide (asset_id a ∈ contents_of g b).

(** Modelled from the spec: whether a bundle contains a dependency, which
    [findBundlesWithDependency] asks of every bundle. *)
Definition hasDependency (g : BundleGraph) (b : Bundle) (d : Dependency) : bool :=
  bool_decide (dep_id d ∈ contents_of g b).

(** Modelled from the spec: [bundle.getMainEntry() -> Asset?], the one
    declared main entry of the bundle. *)
Definition getMainEntry (b : Bundle) : option Asset := bundle_mainEntry b.

(** Modelled from the spec: [findBundlesWithAsset(asset) -> [Bundle]]. *)
Definition findBundlesWithAsset (g : BundleGraph) (a : Asset) : list Bundle :=
  List.filter (fun b => hasAsset g b a) (bundles g).

(** Modelled from the spec: [findBundlesWithDependency(dep) -> [Bundle]]. *)
Definition findBundlesWithDependency (g : BundleGraph) (d : Dependency) : list Bundle :=
  List.filter (fun b => hasDependency g b d) (bundles g).

(** Modelled from the spec: [getBundlesInBundleGroup(group) -> [Bundle]],
    the membership relation read from the group. *)
Definition getBundlesInBundleGroup (g : BundleGraph) (bg : BundleGroup) : list Bundle :=
  default [] (groupMembers g !! bg_id bg).

(** Modelled from the spec:
    [getBundleGroupsContainingBundle(bundle) -> [BundleGroup]], the
    membership relation read from the bundle. *)
Definition getBundleGroupsContainingBundle (g : BundleGraph) (b : Bundle)
    : list BundleGroup :=
  List.filter (fun bg => has_bundle b (getBundlesInBundleGroup g bg)) (bundleGroups g).

(** Modelled from the spec: [getSiblingBundles(bundle) -> [Bundle]], the
    other bundles of the bundle groups the bundle is in. *)
Definition getSiblingBundles (g : BundleGraph) (b : Bundle) : list Bundle :=
  foldl set_add_bundle []
    (List.filter (fun s => negb (String.eqb (bundle_id s) (bundle_id b)))
       (getBundleGroupsContainingBundle g b ≫= getBundlesInBundleGroup g)).

(** Modelled from the spec: [getParentBundlesOfBundleGroup(group)]. A
    bundle is a parent of a bundle group when it contains the dependency
    that opened the group and has not internalized it. *)
Definition getParentBundlesOfBundleGroup (g : BundleGraph) (bg : BundleGroup)
    : list Bundle :=
  List.filter
    (fun b => hasDependency g b (bg_dependency bg)
              && negb (bool_decide ((bundle_id b, bg_id bg) ∈ internalized g)))
    (bundles g).

(** Modelled from the spec: the parents of the groups of a bundle, one
    step up in the ancestry that [isAssetInAncestorBundles] follows. *)
Definition parentBundles (g : BundleGraph) (b : Bundle) : list Bundle :=
  getBundleGroupsContainingBundle g b ≫= getParentBundlesOfBundleGroup g.

(** Modelled from the spec: the ancestors of the bundles of [frontier] at
    distance at most [n], transitive via bundle-group membership. *)
Fixpoint ancestorBundles (g : BundleGraph) (n : nat) (frontier : list Bundle)
    : list Bundle :=
  match n with
  | O => []
  | S n' =>
      let parents := frontier ≫= parentBundles g in
      parents ++ ancestorBundles g n' parents
  end.

(** Modelled from the spec: [isAssetInAncestorBundles(bundle, asset)]. An
    ancestor is at distance at most the number of bundles. *)
Definition isAssetInAncestorBundles (g : BundleGraph) (b : Bundle) (a : Asset) : bool :=
  existsb (fun p => negb (String.eqb (bundle_id p) (bundle_id b)) && hasAsset g p a)
    (ancestorBundles g (length (bundles g)) [b]).

(** Modelled from the spec:
    [resolveExternalDependency(dep) -> {kind: bundle_group|asset, value}],
    the bundle group opened for the dependency when there is one, else the
    asset it resolves to, else nothing. *)
Definition resolveExternalDependency (g : BundleGraph) (d : Dependency)
    : option ExternalResolution :=
  match List.find (fun bg => String.eqb (bg_id bg) (dep_id d)) (bundleGroups g) with
  | Some bg => Some (ExternalBundleGroup bg)
  | None => ExternalAsset <$> getDependencyResolution g d None
  end.

(** ** Mutations *)

(** Modelled from the spec: [createBundleGroup(dep, target)]. *)
Definition createBundleGroup (g : BundleGraph) (d : Dependency) (t : Target)
    : BundleGroup * BundleGraph :=
  let bg := mkBundleGroup d t in
  let others :=
    List.filter (fun x => negb (String.eqb (bg_id x) (bg_id bg))) (bundleGroups g) in
  (bg, with_bundleGroups g (others ++ [bg])).

(** Modelled from the spec: the bundle that [createBundle] makes of its
    argument; what the caller leaves out comes from the entry asset. *)
Definition new_bundle (id : string) (o : BundleOpts) : Bundle :=
  {| bundle_id := id;
     bundle_type :=
       default (default "" (asset_type <$> opt_entryAsset o)) (opt_type o);
     bundle_env :=
       default (default (target_env (opt_target o)) (asset_env <$> opt_entryAsset o))
               (opt_env o);
     bundle_target := opt_target o;
     bundle_isEntry := default false (opt_isEntry o);
     bundle_isInline := default false (opt_isInline o);
     bundle_isSplittable :=
       default (default false (asset_isSplittable <$> opt_entryAsset o))
               (opt_isSplittable o);
     bundle_uniqueKey := opt_uniqueKey o;
     bundle_mainEntry := opt_entryAsset o |}.

(** Modelled from the spec: [createBundle({...}) -> Bundle]. A bundle of
    the same id is replaced. *)
Definition createBundle (host : Host) (g : BundleGraph) (o : BundleOpts)
    : Bundle * BundleGraph :=
  let b := new_bundle (host_bundleId host o) o in
  let others :=
    List.filter (fun x => negb (String.eqb (bundle_id x) (bundle_id b))) (bundles g) in
  (b, with_bundles g (others ++ [b])).

(** Modelled from the spec: [addBundleToBundleGroup(bundle, group)]; the
    membership relation is a set. *)
Definition addBundleToBundleGroup (g : BundleGraph) (b : Bundle) (bg : BundleGroup)
    : BundleGraph :=
  with_groupMembers g
    (<[bg_id bg := set_add_bundle (getBundlesInBundleGroup g bg) b]> (groupMembers g)).

(** Modelled from the spec: [addAssetGraphToBundle(asset, bundle)]. *)
Definition addAssetGraphToBundle (g : BundleGraph) (a : Asset) (b : Bundle)
    : BundleGraph :=
  with_bundleContents g
    (<[bundle_id b := list_union (contents_of g b) (ag_subgraph (assetGraph g) (asset_id a))]>
       (bundleContents g)).

(** Modelled from the spec: [removeAssetGraphFromBundle(asset, bundle)]. *)
Definition removeAssetGraphFromBundle (g : BundleGraph) (a : Asset) (b : Bundle)
    : BundleGraph :=
  with_bundleContents g
    (<[bundle_id b := list_difference (contents_of g b) (ag_subgraph (assetGraph g) (asset_id a))]>
       (bundleContents g)).

(** Modelled from the spec: [createAssetReference(dep, asset)]. *)
Definition createAssetReference (g : BundleGraph) (d : Dependency) (a : Asset)
    : BundleGraph :=
  with_assetReferences g (assetReferences g ++ [(dep_id d, asset_id a)]).

(** Modelled from the spec: [internalizeAsyncDependency(bundle, dep)]. *)
Definition internalizeAsyncDependency (g : BundleGraph) (b : Bundle) (d : Dependency)
    : BundleGraph :=
  with_internalized g (internalized g ++ [(bundle_id b, dep_id d)]).

(** Modelled from the spec: [removeBundleGroup(group)]. *)
Definition removeBundleGroup (g : BundleGraph) (bg : BundleGroup) : BundleGraph :=
  with_groupMembers
    (with_bundleGroups g
       (List.filter (fun x => negb (String.eqb (bg_id x) (bg_id bg))) (bundleGroups g)))
    (delete (bg_id bg) (groupMembers g)).

(** Modelled from the spec: a write to the [meta] bag of an asset,
    [asset.meta[key] = v]. *)
Definition setAssetMeta (g : BundleGraph) (a : Asset) (key : string) (v : bool)
    : BundleGraph :=
  with_assetMeta g
    (<[asset_id a := <[key := v]> (default ∅ (assetMeta g !! asset_id a))]> (assetMeta g)).

(** Modelled from the spec: the [meta] bag of an asset. *)
Definition getAssetMeta (g : BundleGraph) (a : Asset) : Meta :=
  default ∅ (assetMeta g !! asset_id a).

(** ** Traversal *)

(** Modelled from the spec: [traverse(visitor)], [traverseBundles],
    [traverseContents] and [bundle.traverse], a depth-first walk in a
    fixed order with [enter] and [exit] hooks and a context handed down
    the stack. [seen] holds the ids of the nodes reached so far; a
    node is visited the first time it is reached. When [enter] returns a
    context it replaces the inherited one for the node's subtree; when it
    asks to skip the children, the walk leaves the node at once. A throw
    of a hook ends the traversal. *)
Section Traverse.
Context {N C S : Type}.
Variable id_of : N -> string.
Variable enter : N -> C -> S -> JS.Result (Visit C S).
Variable exit : N -> C -> S -> JS.Result S.

Fixpoint walk (t : VisitTree N) (ctx : C) (st : list string * S)
    : JS.Result (list string * S) :=
  match t with
  | VNode n children =>
      if bool_decide (id_of n ∈ st.1) then JS.Ok st
      else
        v ← enter n ctx st.2;
        let ctx' := default ctx (visit_context v) in
        let st1 := (id_of n :: st.1, visit_state v) in
        if visit_skipChildren v then JS.Ok st1
        else
          st2 ← (fix walk_all (ts : list (VisitTree N)) (st : list string * S) :=
                   match ts with
                   | [] => JS.Ok st
                   | t' :: ts' => st' ← walk t' ctx' st; walk_all ts' st'
                   end) children st1;
          s3 ← exit n ctx' st2.2;
          JS.Ok (st2.1, s3)
  end.

(** Modelled from the spec: the walk of the children of a node, or of the
    roots, from left to right. *)
Fixpoint walk_all (ts : list (VisitTree N)) (ctx : C) (st : list string * S)
    : JS.Result (list string * S) :=
  match ts with
  | [] => JS.Ok st
  | t :: ts' => st' ← walk t ctx st; walk_all ts' ctx st'
  end.

(** Modelled from the spec: a whole traversal, started with nothing seen. *)
Definition traverse (roots : list (VisitTree N)) (ctx : C) (s : S) : JS.Result S :=
  st ← walk_all roots ctx ([], s); JS.Ok st.2.
End Traverse.

Definition no_exit {N C S : Type} (_ : N) (_ : C) (s : S) : JS.Result S := JS.Ok s.
Definition no_enter {N C S : Type} (_ : N) (_ : C) (s : S) : JS.Result (Visit C S) :=
  JS.Ok (mkVisit None false s).

End MutableBundleGraph.

(* ===================================================================== *)
(** * OptimizingBundler (packages/bundlers/optimize/src/OptimizeBundler.js) *)
(* ===================================================================== *)

Module OptimizeBundler.
Import MutableBundleGraph.

(** [OPTIONS] *)
Definition minBundles : nat := 1.
Definition minBundleSize : Z := 30000.
Definition maxParallelRequests : nat := 5.

(** An entry of [candidateBundles]. [sourceBundles] is a [Set]; [size] is
    a number ([JS.to_number]), added to with [JS.number_add]. *)
Record Candidate : Type := mkCandidate {
  assets : list Asset;
  sourceBundles : list Bundle;
  size : Z;
}.

Section WithHost.
Context (host : Host).
(** [md5FromString] of '@parcel/utils'. *)
Context (md5FromString : string -> string).

(** ** deduplicateBundle *)

Definition deduplicateAssets (bundle : Bundle) (g : BundleGraph) (assets : list Asset)
    : BundleGraph :=
  foldl
    (fun g asset =>
       if hasAsset g bundle asset && isAssetInAncestorBundles g bundle asset
       then removeAssetGraphFromBundle g asset bundle
       else g)
    g assets.

(** The visitor passed to [bundle.traverse]. *)
Definition deduplicateVisitor (bundle : Bundle) (node : Node) (_ : unit)
    (g : BundleGraph) : JS.Result (Visit unit BundleGraph) :=
  match node with
  | DependencyNode dependency =>
      let assets := getDependencyAssets g dependency in
      JS.Ok (mkVisit None false (deduplicateAssets bundle g assets))
  | AssetNode _ => JS.Ok (mkVisit None false g)
  end.

Definition deduplicateBundle (g : BundleGraph) (bundle : Bundle)
    : JS.Result BundleGraph :=
  if env_isIsolated (bundle_env bundle) || negb (bundle_isSplittable bundle)
  then JS.Ok g
  else traverse node_id (deduplicateVisitor bundle) no_exit
         (host_bundleTraverse host g bundle) tt g.

(** ** First traversal: hoisting *)

(** The body of [for (let candidate of candidates)]. *)
Definition hoistInto (bundle : Bundle) (siblings : list Bundle) (mainEntry : Asset)
    (g : BundleGraph) (candidate : Bundle) : BundleGraph :=
  let bundleGroups := getBundleGroupsContainingBundle g candidate in
  if forallb
       (fun group =>
          (length (getBundlesInBundleGroup g group) <? maxParallelRequests)%nat)
       bundleGroups
  then
    let g1 := removeAssetGraphFromBundle g mainEntry candidate in
    foldl
      (fun g bundleGroup =>
         foldl (fun g bundleToAdd => addBundleToBundleGroup g bundleToAdd bundleGroup)
               g (bundle :: siblings))
      g1 bundleGroups
  else g.

Definition hoistBundle (g : BundleGraph) (bundle : Bundle) : BundleGraph :=
  if bundle_isInline bundle || negb (bundle_isSplittable bundle) then g
  else
    match getMainEntry bundle with
    | None => g
    | Some mainEntry =>
        let siblings :=
          List.filter (fun sibling => negb (bundle_isInline sibling))
                      (getSiblingBundles g bundle) in
        let candidates :=
          List.filter
            (fun containingBundle =>
               negb (String.eqb (bundle_id containingBundle) (bundle_id bundle))
               && negb (bundle_isEntry containingBundle)
               && negb (bundle_isInline containingBundle)
               && bundle_isSplittable containingBundle)
            (findBundlesWithAsset g mainEntry) in
        foldl (hoistInto bundle siblings mainEntry) g candidates
    end.

Definition hoistVisitor (bundle : Bundle) (_ : unit) (g : BundleGraph)
    : JS.Result (Visit unit BundleGraph) :=
  JS.Ok (mkVisit None false (hoistBundle g bundle)).

Definition hoistStep (g : BundleGraph) : JS.Result BundleGraph :=
  traverse bundle_id hoistVisitor no_exit (host_traverseBundles host g) tt g.

(** ** Second traversal: deduplication on exit *)

Definition deduplicateStep (g : BundleGraph) : JS.Result BundleGraph :=
  traverse bundle_id no_enter (fun bundle (_ : unit) g => deduplicateBundle g bundle)
    (host_traverseBundles host g) tt g.

(** ** Shared bundles: collecting the candidates *)

Definition isSourceBundle (asset : Asset) (b : Bundle) : bool :=
  let mainEntry := getMainEntry b in
  negb (bundle_isEntry b)
  && bundle_isSplittable b
  && match mainEntry with
     | None => true
     | Some m => negb (String.eqb (asset_id m) (asset_id asset))
     end.

Definition candidateKey (containingBundles : list Bundle) : string :=
  JS.join ":" (JS.sort JS.compare_strings (bundle_id <$> containingBundles)).

Definition collectVisitor (g : BundleGraph) (node : Node) (_ : unit)
    (candidateBundles : list (string * Candidate))
    : JS.Result (Visit unit (list (string * Candidate))) :=
  match node with
  | DependencyNode _ => JS.Ok (mkVisit None false candidateBundles)
  | AssetNode asset =>
      let containingBundles :=
        List.filter (isSourceBundle asset) (findBundlesWithAsset g asset) in
      if (minBundles <? length containingBundles)%nat then
        let id := candidateKey containingBundles in
        let candidateBundles' :=
          match JS.map_get id candidateBundles with
          | Some candidate =>
              JS.map_set id
                {| assets := assets candidate ++ [asset];
                   sourceBundles :=
                     foldl set_add_bundle (sourceBundles candidate) containingBundles;
                   size := JS.number_add (size candidate) (getTotalSize g asset) |}
                candidateBundles
          | None =>
              JS.map_set id
                {| assets := [asset];
                   sourceBundles := foldl set_add_bundle [] containingBundles;
                   size := getTotalSize g asset |}
                candidateBundles
          end in
        JS.Ok (mkVisit None true candidateBundles')
      else JS.Ok (mkVisit None false candidateBundles)
  end.

Definition collectCandidates (g : BundleGraph) : JS.Result (list (string * Candidate)) :=
  traverse node_id (collectVisitor g) no_exit (host_traverseContents host g) tt [].

Definition sortedCandidates (candidateBundles : list (string * Candidate))
    : list Candidate :=
  JS.sort (fun a b => size b - size a)
    (List.filter (fun bundle => (minBundleSize <=? size bundle)%Z)
                 (JS.map_values candidateBundles)).

(** ** Shared bundles: the loop over [sortedCandidates] *)

Definition connectedBundleGroups (g : BundleGraph) (sourceBundles : list Bundle)
    : list BundleGroup :=
  foldl
    (fun bundleGroups bundle =>
       foldl set_add_group bundleGroups (getBundleGroupsContainingBundle g bundle))
    [] sourceBundles.

Definition overLimit (g : BundleGraph) (bundleGroups : list BundleGroup) : bool :=
  existsb
    (fun group =>
       (maxParallelRequests <=? length (getBundlesInBundleGroup g group))%nat)
    bundleGroups.

Definition sharedBundleOpts (sourceBundles : list Bundle) (firstBundle : Bundle)
    : BundleOpts :=
  {| opt_entryAsset := None;
     opt_uniqueKey := Some (md5FromString (JS.join ":" (bundle_id <$> sourceBundles)));
     opt_type := Some (bundle_type firstBundle);
     opt_env := Some (bundle_env firstBundle);
     opt_target := bundle_target firstBundle;
     opt_isEntry := None;
     opt_isInline := None;
     opt_isSplittable := Some true |}.

Definition moveAssets (sharedBundle : Bundle) (sourceBundles : list Bundle)
    (g : BundleGraph) (assets : list Asset) : BundleGraph :=
  foldl
    (fun g asset =>
       let g1 := addAssetGraphToBundle g asset sharedBundle in
       foldl (fun g bundle => removeAssetGraphFromBundle g asset bundle) g1 sourceBundles)
    g assets.

Definition connectBundle (sharedBundle : Bundle) (g : BundleGraph)
    (bundleGroups : list BundleGroup) : BundleGraph :=
  foldl (fun g bundleGroup => addBundleToBundleGroup g sharedBundle bundleGroup)
        g bundleGroups.

(** One iteration of [for (let {assets, sourceBundles} of sortedCandidates)];
    [continue] leaves the graph as it is. *)
Definition extractCandidate (g : BundleGraph) (c : Candidate) : JS.Result BundleGraph :=
  let bundleGroups := connectedBundleGroups g (sourceBundles c) in
  if overLimit g bundleGroups then JS.Ok g
  else
    match sourceBundles c with
    | [] => JS.Throw JS.TypeError
    | firstBundle :: _ =>
        let '(sharedBundle, g1) :=
          createBundle host g (sharedBundleOpts (sourceBundles c) firstBundle) in
        let g2 := moveAssets sharedBundle (sourceBundles c) g1 (assets c) in
        let g3 := connectBundle sharedBundle g2 bundleGroups in
        deduplicateBundle g3 sharedBundle
    end.

Fixpoint extractAll (g : BundleGraph) (cs : list Candidate) : JS.Result BundleGraph :=
  match cs with
  | [] => JS.Ok g
  | c :: cs' => g' ← extractCandidate g c; extractAll g' cs'
  end.

Definition extractStep (g : BundleGraph) : JS.Result BundleGraph :=
  candidateBundles ← collectCandidates g;
  extractAll g (sortedCandidates candidateBundles).

(** ** Internalizing async dependencies *)

Definition internalizeIn (dependency : Dependency) (resolution : Asset)
    (g : BundleGraph) (bs : list Bundle) : BundleGraph :=
  foldl
    (fun g bundle =>
       if hasAsset g bundle resolution || isAssetInAncestorBundles g bundle resolution
       then internalizeAsyncDependency g bundle dependency
       else g)
    g bs.

Definition internalizeVisitor (node : Node) (_ : unit)
    (st : BundleGraph * list BundleGroup)
    : JS.Result (Visit unit (BundleGraph * list BundleGroup)) :=
  let '(g, asyncBundleGroups) := st in
  match node with
  | AssetNode _ => JS.Ok (mkVisit None false st)
  | DependencyNode dependency =>
      if dep_isEntry dependency || negb (dep_isAsync dependency)
      then JS.Ok (mkVisit None false st)
      else
        match getDependencyResolution g dependency None with
        | None => JS.Ok (mkVisit None false st)
        | Some resolution =>
            match resolveExternalDependency g dependency with
            | Some (ExternalBundleGroup value) =>
                let asyncBundleGroups' := set_add_group asyncBundleGroups value in
                let g' :=
                  internalizeIn dependency resolution g
                    (findBundlesWithDependency g dependency) in
                JS.Ok (mkVisit None false (g', asyncBundleGroups'))
            | _ => JS.Throw JS.AssertionError
            end
        end
  end.

Definition internalizeStep (g : BundleGraph)
    : JS.Result (BundleGraph * list BundleGroup) :=
  traverse node_id internalizeVisitor no_exit (host_traverse host g) tt (g, []).

(** ** Removing bundle groups without parent bundles *)

Definition pruneStep (g : BundleGraph) (asyncBundleGroups : list BundleGroup)
    : BundleGraph :=
  foldl
    (fun g bundleGroup =>
       if (length (getParentBundlesOfBundleGroup g bundleGroup) =? 0)%nat
       then removeBundleGroup g bundleGroup
       else g)
    g asyncBundleGroups.

(** ** bundle({bundleGraph}) *)

Definition bundle (g : BundleGraph) : JS.Result BundleGraph :=
  g1 ← hoistStep g;
  g2 ← deduplicateStep g1;
  g3 ← extractStep g2;
  '(g4, asyncBundleGroups) ← internalizeStep g3;
  JS.Ok (pruneStep g4 asyncBundleGroups).

End WithHost.
End OptimizeBundler.

(* ===================================================================== *)
(** * PrimaryBundler (packages/bundlers/default/src/DefaultBundler.js)    *)
(* ===================================================================== *)

Module DefaultBundler.
Import MutableBundleGraph.

(** The traversal context. [bundleByType] is a [Map] object shared by every
    context copied from the one that created it, so the context holds a
    reference into [typeMaps]. *)
Record Context : Type := mkContext {
  bundleGroup : option BundleGroup;
  bundleByType : option nat;
  bundleGroupDependency : option Dependency;
  parentNode : Node;
}.

(** The bundle graph and the locals of [bundle] that the visitor closes
    over. The arrays stored in [siblingBundlesByAsset] are shared between
    keys and pushed to in place: the map holds references into
    [siblingArrays].

    [bundleRoots] is a [Map] whose keys are [Bundle] objects, which it
    tells apart by identity, not by id. Every call of [createBundle]
    returns a new object, and [bundleRoots.set] is called exactly once for
    each, right after it is created: the entries are kept in insertion
    order, none is ever overwritten by [set], and a [Bundle] object is
    referred to by the position of its entry. The values of a
    [bundleByType] map are [Bundle] objects that the visitor uses as keys
    of [bundleRoots] only: the map holds their references. *)
Record State : Type := mkState {
  graph : BundleGraph;
  bundleRoots : list (Bundle * list Asset);
  siblingBundlesByAsset : list (string * nat);
  siblingArrays : list (list Bundle);
  typeMaps : list (list (string * nat));
}.

Definition with_graph (s : State) (g : BundleGraph) : State :=
  mkState g (bundleRoots s) (siblingBundlesByAsset s) (siblingArrays s) (typeMaps s).

(** The reference of the [Bundle] object that the next [createBundle]
    returns. *)
Definition newBundle (s : State) : nat := length (bundleRoots s).

(** [bundleRoots.set(bundle, [asset])] with a bundle that was just
    created: a new key. *)
Definition setBundleRoots (s : State) (b : Bundle) (roots : list Asset) : State :=
  mkState (graph s) (bundleRoots s ++ [(b, roots)])
    (siblingBundlesByAsset s) (siblingArrays s) (typeMaps s).

(** [bundleRoots.get(bundle)] *)
Definition getBundleRoots (s : State) (ref : nat) : option (Bundle * list Asset) :=
  bundleRoots s !! ref.

(** [rootAssets.push(asset)] on the array that [bundleRoots] holds for a
    bundle. *)
Definition pushBundleRoot (s : State) (ref : nat) (asset : Asset) : State :=
  mkState (graph s)
    (alter (fun entry => (entry.1, (entry.2 ++ [asset])%list)) ref (bundleRoots s))
    (siblingBundlesByAsset s) (siblingArrays s) (typeMaps s).

(** [siblingBundlesByAsset.set(id, [])] with a new array *)
Definition setNewSiblings (s : State) (id : string) : State :=
  mkState (graph s) (bundleRoots s)
    (JS.map_set id (length (siblingArrays s)) (siblingBundlesByAsset s))
    (siblingArrays s ++ [[]]) (typeMaps s).

(** [siblingBundlesByAsset.set(id, array)] with an array that exists *)
Definition setSiblings (s : State) (id : string) (ref : nat) : State :=
  mkState (graph s) (bundleRoots s)
    (JS.map_set id ref (siblingBundlesByAsset s)) (siblingArrays s) (typeMaps s).

(** [array.push(bundle)] *)
Definition pushSibling (s : State) (ref : nat) (b : Bundle) : State :=
  mkState (graph s) (bundleRoots s) (siblingBundlesByAsset s)
    (alter (fun l => (l ++ [b])%list) ref (siblingArrays s)) (typeMaps s).

(** [new Map()] *)
Definition newTypeMap (s : State) : nat * State :=
  (length (typeMaps s),
   mkState (graph s) (bundleRoots s) (siblingBundlesByAsset s) (siblingArrays s)
     (typeMaps s ++ [[]])).

(** [bundleByType.set(type, bundle)] *)
Definition setBundleByType (s : State) (ref : nat) (type : string) (bundle : nat)
    : State :=
  mkState (graph s) (bundleRoots s) (siblingBundlesByAsset s) (siblingArrays s)
    (alter (JS.map_set type bundle) ref (typeMaps s)).

(** [bundleByType.get(type)] *)
Definition getBundleByType (s : State) (ref : nat) (type : string) : option nat :=
  (typeMaps s !! ref) ≫= JS.map_get type.

Section WithHost.
Context (host : Host).

(** The condition of the first [if] of the visitor. *)
Definition opensBundleGroup (dependency : Dependency) (resolution : option Asset)
    : bool :=
  (dep_isEntry dependency && bool_decide (is_Some resolution))
  || (dep_isAsync dependency && bool_decide (is_Some resolution))
  || default false (asset_isIsolated <$> resolution)
  || default false (asset_isInline <$> resolution).

Definition entryBundleOpts (dependency : Dependency) (bundleGroup : BundleGroup)
    (asset : Asset) : BundleOpts :=
  {| opt_entryAsset := Some asset;
     opt_uniqueKey := None;
     opt_type := None;
     opt_env := None;
     opt_target := bg_target bundleGroup;
     opt_isEntry :=
       Some (if asset_isIsolated asset then false else dep_isEntry dependency);
     opt_isInline := Some (asset_isInline asset);
     opt_isSplittable := None |}.

(** The body of [for (let asset of assets)] when a group is opened. *)
Definition openBundle (dependency : Dependency) (bundleGroup : BundleGroup)
    (bundleByType : nat) (s : State) (asset : Asset) : State :=
  let '(bundle, g1) :=
    createBundle host (graph s) (entryBundleOpts dependency bundleGroup asset) in
  let s1 := with_graph s g1 in
  let s2 := setBundleByType s1 bundleByType (bundle_type bundle) (newBundle s1) in
  let s3 := setBundleRoots s2 bundle [asset] in
  let s4 := setNewSiblings s3 (asset_id asset) in
  with_graph s4 (addBundleToBundleGroup (graph s4) bundle bundleGroup).

Definition openBundleGroup (node : Node) (dependency : Dependency)
    (assets : list Asset) (context : option Context) (s : State)
    : JS.Result (Visit (option Context) State) :=
  target ← JS.nullthrows
    (JS.nullish (dep_target dependency)
                (bg_target <$> (context ≫= bundleGroup)));
  let '(bundleGroup, g1) := createBundleGroup (graph s) dependency target in
  let '(bundleByType, s1) := newTypeMap (with_graph s g1) in
  let s2 := foldl (openBundle dependency bundleGroup bundleByType) s1 assets in
  JS.Ok (mkVisit
           (Some (Some {| bundleGroup := Some bundleGroup;
                          bundleByType := Some bundleByType;
                          bundleGroupDependency := Some dependency;
                          parentNode := node |}))
           false s2).

Definition typeBundleOpts (bundleGroupDependency : Dependency)
    (bundleGroup : BundleGroup) (asset : Asset) : BundleOpts :=
  {| opt_entryAsset := Some asset;
     opt_uniqueKey := None;
     opt_type := None;
     opt_env := None;
     opt_target := bg_target bundleGroup;
     opt_isEntry := Some (dep_isEntry bundleGroupDependency);
     opt_isInline := Some (asset_isInline asset);
     opt_isSplittable := None |}.

(** The body of [for (let asset of assets)] inside a group. *)
Definition placeAsset (dependency : Dependency) (parentAsset : Asset)
    (bundleGroup : BundleGroup) (bundleGroupDependency : Dependency)
    (bundleByType : nat) (siblingBundles : nat) (allSameType : bool)
    (s : State) (asset : Asset) : JS.Result State :=
  let siblings := JS.map_get (asset_id asset) (siblingBundlesByAsset s) in
  if String.eqb (asset_type parentAsset) (asset_type asset) then
    match siblings with
    | Some ref =>
        if allSameType then
          JS.Ok (with_graph s
                   (foldl (fun g bundle => addBundleToBundleGroup g bundle bundleGroup)
                          (graph s) (default [] (siblingArrays s !! ref))))
        else JS.Ok s
    | None =>
        if allSameType
        then JS.Ok (setSiblings s (asset_id asset) siblingBundles)
        else JS.Ok (setNewSiblings s (asset_id asset))
    end
  else
    s1 ← match getBundleByType s bundleByType (asset_type asset) with
         | Some existingBundle =>
             _ ← JS.nullthrows (getBundleRoots s existingBundle);
             let s1 := pushBundleRoot s existingBundle asset in
             JS.Ok (with_graph s1 (createAssetReference (graph s1) dependency asset))
         | None =>
             let '(bundle, g1) :=
               createBundle host (graph s)
                 (typeBundleOpts bundleGroupDependency bundleGroup asset) in
             let s1 := with_graph s g1 in
             let s2 :=
               setBundleByType s1 bundleByType (bundle_type bundle) (newBundle s1) in
             let s3 := pushSibling s2 siblingBundles bundle in
             let s4 := setBundleRoots s3 bundle [asset] in
             let g5 := createAssetReference (graph s4) dependency asset in
             JS.Ok (with_graph s4 (addBundleToBundleGroup g5 bundle bundleGroup))
         end;
    match siblings with
    | Some _ => JS.Ok s1
    | None => JS.Ok (setNewSiblings s1 (asset_id asset))
    end.

Fixpoint placeAssets (step : State -> Asset -> JS.Result State) (s : State)
    (assets : list Asset) : JS.Result State :=
  match assets with
  | [] => JS.Ok s
  | asset :: rest => s' ← step s asset; placeAssets step s' rest
  end.

Definition continueBundleGroup (node : Node) (dependency : Dependency)
    (assets : list Asset) (context : option Context) (s : State)
    : JS.Result (Visit (option Context) State) :=
  context ← match context with
            | Some c => JS.Ok c
            | None => JS.Throw JS.AssertionError
            end;
  parentAsset ← match parentNode context with
                | AssetNode a => JS.Ok a
                | DependencyNode _ => JS.Throw JS.AssertionError
                end;
  bundleGroup ← JS.nullthrows (bundleGroup context);
  bundleGroupDependency ← JS.nullthrows (bundleGroupDependency context);
  bundleByType ← JS.nullthrows (bundleByType context);
  siblingBundles ← JS.nullthrows
    (JS.map_get (asset_id parentAsset) (siblingBundlesByAsset s));
  let allSameType :=
    forallb (fun a => String.eqb (asset_type a) (asset_type parentAsset)) assets in
  s' ← placeAssets
         (placeAsset dependency parentAsset bundleGroup bundleGroupDependency
                     bundleByType siblingBundles allSameType)
         s assets;
  JS.Ok (mkVisit
           (Some (Some {| bundleGroup := Some bundleGroup;
                          bundleByType := Some bundleByType;
                          bundleGroupDependency := Some bundleGroupDependency;
                          parentNode := node |}))
           false s').

(** [enter: (node, context) => ...] *)
Definition enter (node : Node) (context : option Context) (s : State)
    : JS.Result (Visit (option Context) State) :=
  match node with
  | AssetNode _ =>
      JS.Ok (mkVisit
               (Some (Some {| bundleGroup := context ≫= bundleGroup;
                              bundleByType := context ≫= bundleByType;
                              bundleGroupDependency := context ≫= bundleGroupDependency;
                              parentNode := node |}))
               false s)
  | DependencyNode dependency =>
      let assets := getDependencyAssets (graph s) dependency in
      let resolution := getDependencyResolution (graph s) dependency None in
      if opensBundleGroup dependency resolution
      then openBundleGroup node dependency assets context s
      else continueBundleGroup node dependency assets context s
  end.

(** [for (let [bundle, rootAssets] of bundleRoots)] *)
Definition attachRoots (g : BundleGraph) (bundleRoots : list (Bundle * list Asset))
    : BundleGraph :=
  foldl
    (fun g entry =>
       let '(bundle, rootAssets) := entry in
       foldl (fun g asset => addAssetGraphToBundle g asset bundle) g rootAssets)
    g bundleRoots.

(** [bundle({bundleGraph})] *)
Definition bundle (g : BundleGraph) : JS.Result BundleGraph :=
  s ← traverse node_id enter no_exit (host_traverse host g) None
        (mkState g [] [] [] []);
  JS.Ok (attachRoots (graph s) (bundleRoots s)).

End WithHost.
End DefaultBundler.

(* ===================================================================== *)
(** * WrapMarker                                                          *)
(* ===================================================================== *)

Module WrapBundler.
Import MutableBundleGraph.

Section WithHost.
Context (host : Host).

(** [(node, shouldWrap) => ...], the visitor of [bundle.traverse]. The
    context starts out [undefined], which is falsy. *)
Definition wrapVisitor (bundle : Bundle) (node : Node) (shouldWrap : bool)
    (g : BundleGraph) : JS.Result (Visit bool BundleGraph) :=
  match node with
  | DependencyNode dependency =>
      if shouldWrap || meta_truthy (dep_meta dependency) "shouldWrap" then
        let resolved := getDependencyResolution g dependency (Some bundle) in
        let g' :=
          match resolved with
          | Some asset => setAssetMeta g asset "shouldWrap" true
          | None => g
          end in
        JS.Ok (mkVisit (Some true) false g')
      else JS.Ok (mkVisit None false g)
  | AssetNode _ => JS.Ok (mkVisit None false g)
  end.

(** [exit(bundle) { bundle.traverse(...) }] *)
Definition wrapBundle (bundle : Bundle) (_ : unit) (g : BundleGraph)
    : JS.Result BundleGraph :=
  traverse node_id (wrapVisitor bundle) no_exit
    (host_bundleTraverse host g bundle) false g.

(** [bundle({bundleGraph})] *)
Definition bundle (g : BundleGraph) : JS.Result BundleGraph :=
  traverse bundle_id no_enter wrapBundle (host_traverseBundles host g) tt g.

End WithHost.
End WrapBundler.

(* ===================================================================== *)
(** * Properties                                                          *)
(* ===================================================================== *)

Module Properties.
Import MutableBundleGraph.

(** The request budget over a step from [g] to [g']: a bundle group that
    had fewer than [maxParallelRequests] bundles in [g] has at most
    [maxParallelRequests] in [g']. *)
Definition budget_respected (g g' : BundleGraph) : Prop :=
  forall bg : BundleGroup,
    (length (getBundlesInBundleGroup g bg) < OptimizeBundler.maxParallelRequests)%nat ->
    (length (getBundlesInBundleGroup g' bg) <= OptimizeBundler.maxParallelRequests)%nat.

(** A step adds to no bundle group beyond [maxParallelRequests]. *)
Definition within_budget (g g' : BundleGraph) : Prop :=
  forall bg : BundleGroup,
    (length (getBundlesInBundleGroup g' bg)
     <= max (length (getBundlesInBundleGroup g bg)) OptimizeBundler.maxParallelRequests)%nat.

(** The key string of a candidate: the sorted ids of its source bundles,
    joined by the separator. *)
Definition keyOf (c : OptimizeBundler.Candidate) : string :=
  OptimizeBundler.candidateKey (OptimizeBundler.sourceBundles c).

(** Candidates in descending order of size, those of one size in the
    order [key_le] of their key strings. *)
Definition by_size_then_key (key_le : string -> string -> bool)
    (l : list OptimizeBundler.Candidate) : Prop :=
  StronglySorted
    (fun a b =>
       OptimizeBundler.size b < OptimizeBundler.size a
       \/ (OptimizeBundler.size a = OptimizeBundler.size b
           /\ key_le (keyOf a) (keyOf b) = true))
    l.

(** A graph's bundles have distinct ids. *)
Definition distinct_bundles (g : BundleGraph) : Prop :=
  NoDup (bundle_id <$> bundles g).

(** [g'] is [g] with more dependencies internalized and nothing else
    changed. *)
Definition more_internalized (g g' : BundleGraph) : Prop :=
  assetGraph g' = assetGraph g
  /\ bundles g' = bundles g
  /\ bundleGroups g' = bundleGroups g
  /\ groupMembers g' = groupMembers g
  /\ bundleContents g' = bundleContents g
  /\ assetReferences g' = assetReferences g
  /\ assetMeta g' = assetMeta g
  /\ (forall p, p ∈ internalized g -> p ∈ internalized g').

(** The test of the internalization loop: the bundle has the asset or one
    of its ancestors has. *)
Definition canReach (g : BundleGraph) (b : Bundle) (a : Asset) : bool :=
  hasAsset g b a || isAssetInAncestorBundles g b a.

(** The rule for opening a bundle group as the specification words it:
    the dependency is an entry, is async, or resolves to an isolated or
    inline asset. *)
Definition opens_as_specified (d : Dependency) (resolution : option Asset) : bool :=
  dep_isEntry d
  || dep_isAsync d
  || default false (asset_isIsolated <$> resolution)
  || default false (asset_isInline <$> resolution).

(** The bundle that [createBundle] returns for a resolved asset of the
    dependency that opens the group [bg]. *)
Definition entryBundle (host : Host) (d : Dependency) (bg : BundleGroup) (a : Asset)
    : Bundle :=
  new_bundle (host_bundleId host (DefaultBundler.entryBundleOpts d bg a))
             (DefaultBundler.entryBundleOpts d bg a).

(** The context that the traversal hands to the children of a node whose
    visit returned [v], and the enclosing bundle group of a context. *)
Definition handedDown (context : option DefaultBundler.Context)
    (v : Visit (option DefaultBundler.Context) DefaultBundler.State)
    : option DefaultBundler.Context :=
  default context (visit_context v).

Definition enclosingGroup (context : option DefaultBundler.Context)
    : option BundleGroup :=
  context ≫= DefaultBundler.bundleGroup.

(** The bundles of the bundle group of a given id. *)
Definition members (g : BundleGraph) (id : string) : list Bundle :=
  default [] (groupMembers g !! id).

(** The members of the group [id] in [g'] are those in [g] followed by
    bundles of [toAdd], each at most once, and by none unless [id] is one
    of [ids]. *)
Definition grown_by (toAdd : list Bundle) (ids : list string) (g g' : BundleGraph)
    (id : string) : Prop :=
  exists extra : list Bundle,
    members g' id = (members g id ++ extra)%list
    /\ NoDup (bundle_id <$> extra)
    /\ (forall x, x ∈ bundle_id <$> extra -> x ∈ bundle_id <$> toAdd)
    /\ (extra = [] \/ id ∈ ids).

(** ** Trees *)

(** The nodes of a tree, the root first. *)
Fixpoint tree_nodes {N : Type} (t : VisitTree N) : list N :=
  match t with
  | VNode n children =>
      n :: (fix all (ts : list (VisitTree N)) : list N :=
              match ts with
              | [] => []
              | t' :: ts' => (tree_nodes t' ++ all ts')%list
              end) children
  end.

(** A tree and all the trees below it. *)
Fixpoint subtrees {N : Type} (t : VisitTree N) : list (VisitTree N) :=
  match t with
  | VNode n children =>
      VNode n children
      :: (fix all (ts : list (VisitTree N)) : list (VisitTree N) :=
            match ts with
            | [] => []
            | t' :: ts' => (subtrees t' ++ all ts')%list
            end) children
  end.

Definition root {N : Type} (t : VisitTree N) : N :=
  match t with VNode n _ => n end.

Definition children_of {N : Type} (t : VisitTree N) : list (VisitTree N) :=
  match t with VNode _ children => children end.

(** ** The visits of a depth-first traversal

    What a traversal visits does not depend on what its hooks do to the
    state, as long as they neither throw nor skip children: it walks the
    trees depth first, visits a node the first time it meets its id, and
    hands to the children of a node visited with the context [c] the
    context [next c n]. [visitTree] builds the trees of these visits: a
    node of the result is a node that is visited, with the context it is
    visited with, and its children are the nodes visited from it. [st]
    holds the ids seen so far and the trees built so far. *)
Section Visits.
Context {N C : Type}.
Variable id_of : N -> string.
Variable next : C -> N -> C.

Fixpoint visitTree (t : VisitTree N) (c : C)
    (st : list string * list (VisitTree (N * C)))
    : list string * list (VisitTree (N * C)) :=
  match t with
  | VNode n children =>
      if bool_decide (id_of n ∈ st.1) then st
      else
        let below :=
          (fix visitAll (ts : list (VisitTree N))
               (acc : list string * list (VisitTree (N * C))) :=
             match ts with
             | [] => acc
             | t' :: ts' => visitAll ts' (visitTree t' (next c n) acc)
             end) children (id_of n :: st.1, []) in
        (below.1, (st.2 ++ [VNode (n, c) below.2])%list)
  end.

Fixpoint visitAll (ts : list (VisitTree N)) (c : C)
    (acc : list string * list (VisitTree (N * C)))
    : list string * list (VisitTree (N * C)) :=
  match ts with
  | [] => acc
  | t :: ts' => visitAll ts' c (visitTree t c acc)
  end.

(** The visits of a whole traversal. *)
Definition visits (roots : list (VisitTree N)) (c : C) : list (VisitTree (N * C)) :=
  (visitAll roots c ([], [])).2.
End Visits.

(** What a walk from the state [s] has done when it ends in [r], [F]
    being the ids seen and the visits made: the state has advanced along
    [R] within [I], and what [enter] and [exit] establish at a node, [He]
    and [Hx], holds of every visit; a throw comes from a hook at one of
    the visits. *)
Definition walked {N C S : Type}
    (enter : N -> C -> S -> JS.Result (Visit C S))
    (exit : N -> C -> S -> JS.Result S) (next : C -> N -> C)
    (I : S -> Prop) (R : S -> S -> Prop) (He Hx : N -> C -> S -> Prop)
    (s : S) (F : list string * list (VisitTree (N * C)))
    (r : JS.Result (list string * S)) : Prop :=
  match r with
  | JS.Ok st =>
      st.1 = F.1 /\ I st.2 /\ R s st.2
      /\ forall v, v ∈ F.2 ≫= tree_nodes -> He v.1 v.2 st.2 /\ Hx v.1 v.2 st.2
  | JS.Throw e =>
      exists n c s0,
        (n, c) ∈ F.2 ≫= tree_nodes /\ I s0 /\ R s s0
        /\ (enter n c s0 = JS.Throw e \/ exit n (next c n) s0 = JS.Throw e)
  end.

(** A context that a hook does not replace is handed down as it is. *)
Definition same_context {N C : Type} (c : C) (_ : N) : C := c.

(** ** The wrap pass *)

(** [asset.meta.shouldWrap] is truthy. *)
Definition isWrapped (g : BundleGraph) (a : Asset) : bool :=
  meta_truthy (getAssetMeta g a) "shouldWrap".

(** The test of the wrap visitor at a dependency. *)
Definition wrapFlag (shouldWrap : bool) (d : Dependency) : bool :=
  shouldWrap || meta_truthy (dep_meta d) "shouldWrap".

(** The visit of the dependency [d] with the inherited flag [c] marks the
    asset [a]: the flag is set or [d] carries it, and [d] resolves in the
    bundle to [a]. *)
Definition marked_by (bundle : Bundle) (d : Dependency) (c : bool) (g : BundleGraph)
    (a : Asset) : Prop :=
  wrapFlag c d = true
  /\ exists a', getDependencyResolution g d (Some bundle) = Some a'
                /\ asset_id a' = asset_id a.

(** ** Frames of the optimizing passes *)

(** A bundle that hoisting takes nothing from: an entry bundle, an inline
    bundle or one that is not splittable. *)
Definition protectedBundle (b : Bundle) : bool :=
  bundle_isEntry b || bundle_isInline b || negb (bundle_isSplittable b).

(** The ids of the nodes a bundle of a given id contains. *)
Definition contentsOf (g : BundleGraph) (id : string) : list string :=
  default [] (bundleContents g !! id).

(** From [g] to [g'] bundles have only been added to groups and nodes only
    been taken out of bundles, of none that is protected; nothing else has
    changed. *)
Definition hoisted_from (g g' : BundleGraph) : Prop :=
  assetGraph g' = assetGraph g
  /\ bundles g' = bundles g
  /\ bundleGroups g' = bundleGroups g
  /\ internalized g' = internalized g
  /\ assetReferences g' = assetReferences g
  /\ assetMeta g' = assetMeta g
  /\ (forall id, exists extra, members g' id = (members g id ++ extra)%list)
  /\ (forall id x, x ∈ contentsOf g' id -> x ∈ contentsOf g id)
  /\ (distinct_bundles g ->
      forall b, b ∈ bundles g -> protectedBundle b = true ->
                contentsOf g' (bundle_id b) = contentsOf g (bundle_id b)).

(** The asset whose subgraph a node was removed with: the bundle had the
    asset, an ancestor bundle had it too, and the node is in its subgraph. *)
Definition duplicated_with (g : BundleGraph) (b : Bundle) (x : string) : Prop :=
  exists a : Asset,
    x ∈ ag_subgraph (assetGraph g) (asset_id a)
    /\ hasAsset g b a = true
    /\ isAssetInAncestorBundles g b a = true.

(** From [g] to [g'] only the bundle [b] has lost nodes, each of them with
    an asset that was duplicated in an ancestor; nothing else has changed. *)
Definition deduplicated_from (b : Bundle) (g g' : BundleGraph) : Prop :=
  assetGraph g' = assetGraph g
  /\ bundles g' = bundles g
  /\ bundleGroups g' = bundleGroups g
  /\ groupMembers g' = groupMembers g
  /\ internalized g' = internalized g
  /\ assetReferences g' = assetReferences g
  /\ assetMeta g' = assetMeta g
  /\ (forall id, id <> bundle_id b -> contentsOf g' id = contentsOf g id)
  /\ (forall x, x ∈ contentsOf g' (bundle_id b) -> x ∈ contentsOf g (bundle_id b))
  /\ (forall x, x ∈ contentsOf g (bundle_id b) -> x ∉ contentsOf g' (bundle_id b) ->
                duplicated_with g b x).

(** ** Candidates of shared-bundle extraction *)

(** The [containingBundles] of an asset: the non-entry, splittable bundles
    that contain it and do not have it as their main entry. *)
Definition containingBundlesOf (g : BundleGraph) (asset : Asset) : list Bundle :=
  List.filter (OptimizeBundler.isSourceBundle asset) (findBundlesWithAsset g asset).

(** The size that the collecting traversal accumulates for a list of
    assets: the total size of the first, to which those of the others are
    added one by one as numbers. *)
Definition accumulatedSize (g : BundleGraph) (l : list Asset) : Z :=
  match l with
  | [] => 0
  | a :: rest =>
      foldl (fun size asset => JS.number_add size (getTotalSize g asset))
            (getTotalSize g a) rest
  end.

(** The sum of the byte counts of a list of assets. *)
Definition totalSizeOf (g : BundleGraph) (l : list Asset) : Z :=
  foldr (fun a acc => Z.of_N (ag_totalSize (assetGraph g) (asset_id a)) + acc) 0 l.

(** A bundle that counts for an asset in shared-bundle extraction: a
    bundle of the graph that contains the asset, is no entry bundle, is
    splittable and does not have the asset as its main entry. *)
Definition source_of (g : BundleGraph) (a : Asset) (b : Bundle) : Prop :=
  b ∈ bundles g
  /\ hasAsset g b a = true
  /\ bundle_isEntry b = false
  /\ bundle_isSplittable b = true
  /\ (forall m, getMainEntry b = Some m -> asset_id m <> asset_id a).

(** An entry of [candidateBundles] as the collecting traversal builds it:
    it has an asset; its size is the accumulated size of its assets,
    which is their sum of bytes as long as that is below 2^53; each of
    its assets is in more than [minBundles] bundles, whose key is the
    entry's key; its source bundles are the bundles of its assets. *)
Definition accumulated (g : BundleGraph) (e : string * OptimizeBundler.Candidate)
    : Prop :=
  OptimizeBundler.assets e.2 <> []
  /\ OptimizeBundler.size e.2 = accumulatedSize g (OptimizeBundler.assets e.2)
  /\ (totalSizeOf g (OptimizeBundler.assets e.2) < 2 ^ 53 ->
      OptimizeBundler.size e.2 = totalSizeOf g (OptimizeBundler.assets e.2))
  /\ (forall a, a ∈ OptimizeBundler.assets e.2 ->
        (OptimizeBundler.minBundles < length (containingBundlesOf g a))%nat
        /\ OptimizeBundler.candidateKey (containingBundlesOf g a) = e.1)
  /\ (forall id, id ∈ bundle_id <$> OptimizeBundler.sourceBundles e.2
                 <-> exists a, a ∈ OptimizeBundler.assets e.2
                               /\ id ∈ bundle_id <$> containingBundlesOf g a)
  /\ NoDup (bundle_id <$> OptimizeBundler.sourceBundles e.2)
  /\ (forall b, b ∈ OptimizeBundler.sourceBundles e.2 ->
        exists a, a ∈ OptimizeBundler.assets e.2 /\ source_of g a b).

(** The thresholds of a shared bundle: the size is the accumulated size
    of the assets and is at least [minBundleSize]; there are more than [minBundles] source bundles,
    each of them a bundle of the graph that holds an asset of the
    candidate, is no entry bundle, is splittable and does not have that
    asset as its main entry; and every asset of the candidate has more
    than [minBundles] such bundles among them. *)
Definition meets_thresholds (g : BundleGraph) (c : OptimizeBundler.Candidate) : Prop :=
  OptimizeBundler.size c = accumulatedSize g (OptimizeBundler.assets c)
  /\ OptimizeBundler.minBundleSize <= OptimizeBundler.size c
  /\ (OptimizeBundler.minBundles < length (OptimizeBundler.sourceBundles c))%nat
  /\ NoDup (bundle_id <$> OptimizeBundler.sourceBundles c)
  /\ (forall b, b ∈ OptimizeBundler.sourceBundles c ->
        exists a, a ∈ OptimizeBundler.assets c /\ source_of g a b)
  /\ OptimizeBundler.assets c <> []
  /\ (forall a, a ∈ OptimizeBundler.assets c ->
        exists l : list Bundle,
          (OptimizeBundler.minBundles < length l)%nat
          /\ NoDup (bundle_id <$> l)
          /\ forall b, b ∈ l -> b ∈ OptimizeBundler.sourceBundles c /\ source_of g a b).

(** ** Internalization and pruning *)

(** A dependency the internalization pass acts on: async, no entry, with a
    resolution. *)
Definition internalizable (g : BundleGraph) (d : Dependency) (a : Asset) : Prop :=
  dep_isAsync d = true /\ dep_isEntry d = false
  /\ getDependencyResolution g d None = Some a.

(** Where an internalized pair of the pass comes from. *)
Definition internalized_by_pass (g : BundleGraph) (p : string * string) : Prop :=
  exists b d a,
    p = (bundle_id b, dep_id d)
    /\ internalizable g d a
    /\ b ∈ findBundlesWithDependency g d
    /\ canReach g b a = true.

(** What the internalization pass has done when it is in the state [st]. *)
Definition internalize_visits (g : BundleGraph) (st : BundleGraph * list BundleGroup)
    : Prop :=
  more_internalized g st.1
  /\ (forall p, p ∈ internalized st.1 -> p ∈ internalized g \/ internalized_by_pass g p)
  /\ (forall bg, bg ∈ st.2 ->
        bg ∈ bundleGroups g
        /\ exists d a, bg_id bg = dep_id d /\ internalizable g d a).

(** The nodes that a traversal of the graph visits. *)
Definition traversalVisits (host : Host) (g : BundleGraph) : list Node :=
  fst <$> (visits node_id same_context (host_traverse host g) tt ≫= tree_nodes).

(** The bundle group that [resolveExternalDependency] answers with, when
    its answer is one. *)
Definition externalGroup (g : BundleGraph) (d : Dependency) : option BundleGroup :=
  match resolveExternalDependency g d with
  | Some (ExternalBundleGroup value) => Some value
  | _ => None
  end.

(** What the internalization pass, started on [g], has done of the
    dependency [d] with the resolution [a] when it is in the state [st]:
    the external resolution of [d] is a bundle group, which is recorded.
    [g_d] is the graph in which [d] was visited. The bundles that contain
    [d] were tested in their order, each in the graph that the bundles
    before it had left: a bundle that then had the asset, or had it in an
    ancestor, has [d] internalized; so has, in particular, every bundle
    that holds the asset itself. *)
Definition internalized_in (g : BundleGraph) (d : Dependency) (a : Asset)
    (st : BundleGraph * list BundleGroup) : Prop :=
  exists value g_d,
    resolveExternalDependency g d = Some (ExternalBundleGroup value)
    /\ bg_id value ∈ bg_id <$> st.2
    /\ more_internalized g g_d
    /\ more_internalized g_d st.1
    /\ (forall pre b post,
          findBundlesWithDependency g d = (pre ++ b :: post)%list ->
          canReach (OptimizeBundler.internalizeIn d a g_d pre) b a = true ->
          (bundle_id b, dep_id d) ∈ internalized st.1)
    /\ (forall b, b ∈ findBundlesWithDependency g d -> hasAsset g b a = true ->
                  (bundle_id b, dep_id d) ∈ internalized st.1).

(** A bundle group that pruning removes: it is one of the recorded groups
    and has no parent bundle. *)
Definition orphaned (g : BundleGraph) (asyncBundleGroups : list BundleGroup)
    (x : BundleGroup) : Prop :=
  exists bg, bg ∈ asyncBundleGroups /\ bg_id bg = bg_id x
             /\ getParentBundlesOfBundleGroup g bg = [].

(** ** Trees and the wrap pass *)

(** No dependency of the tree carries [meta.shouldWrap]. *)
Definition unflagged (t : VisitTree Node) : Prop :=
  forall d, DependencyNode d ∈ tree_nodes t ->
            meta_truthy (dep_meta d) "shouldWrap" = false.

(** From [g] to [g'] nothing but asset [meta] has changed, and an asset's
    [meta] is what it was or has [shouldWrap] set to true in addition. *)
Definition wrapped_from (g g' : BundleGraph) : Prop :=
  assetGraph g' = assetGraph g
  /\ bundles g' = bundles g
  /\ bundleGroups g' = bundleGroups g
  /\ groupMembers g' = groupMembers g
  /\ bundleContents g' = bundleContents g
  /\ internalized g' = internalized g
  /\ assetReferences g' = assetReferences g
  /\ (forall a, getAssetMeta g' a = getAssetMeta g a
                \/ getAssetMeta g' a = <["shouldWrap" := true]> (getAssetMeta g a)).

(** The context that the wrap visitor hands to the children of a node
    that it visits with the inherited flag [shouldWrap]. *)
Definition wrapContext (shouldWrap : bool) (n : Node) : bool :=
  match n with
  | DependencyNode d => wrapFlag shouldWrap d
  | AssetNode _ => shouldWrap
  end.

(** The visits of the traversal of a bundle, each node with the flag it
    inherits, and the bundles that the pass visits. *)
Definition wrapVisits (host : Host) (g : BundleGraph) (bundle : Bundle)
    : list (VisitTree (Node * bool)) :=
  visits node_id wrapContext (host_bundleTraverse host g bundle) false.

Definition bundleVisits (host : Host) (g : BundleGraph) : list Bundle :=
  fst <$> (visits bundle_id same_context (host_traverseBundles host g) tt ≫= tree_nodes).

(** Where a mark of the pass, started on [g], comes from: the bundle is
    one that the pass visits, its traversal, made when the graph was [s],
    visits [d] with the inherited flag [c], and that visit marks the
    asset. *)
Definition marked_in_pass (host : Host) (g : BundleGraph) (a : Asset) : Prop :=
  exists bundle s d c,
    bundle ∈ bundleVisits host g
    /\ wrapped_from g s
    /\ (DependencyNode d, c) ∈ wrapVisits host s bundle ≫= tree_nodes
    /\ marked_by bundle d c g a.

(** The state of the pass, started on [g]: only asset [meta] has changed,
    and an asset whose [meta] has changed was marked by a visit. *)
Definition in_pass (host : Host) (g s : BundleGraph) : Prop :=
  wrapped_from g s
  /\ forall a, getAssetMeta s a = getAssetMeta g a \/ marked_in_pass host g a.

(** No mark is lost from [s] to [s']. *)
Definition marks_kept (s s' : BundleGraph) : Prop :=
  forall a, isWrapped s a = true -> isWrapped s' a = true.

(** What the pass has done of the visits of a bundle when the graph is
    [g']: the resolved asset of every dependency that is visited with the
    flag set, or carries it, is marked. *)
Definition marks_done (g : BundleGraph) (bundle : Bundle) (g' : BundleGraph)
    (v : Node * bool) : Prop :=
  forall d a,
    v.1 = DependencyNode d -> wrapFlag v.2 d = true ->
    getDependencyResolution g d (Some bundle) = Some a ->
    isWrapped g' a = true.

(** The inherited flag as the specification words it, along the paths of
    the dependency subgraph of a bundle whether or not the traversal
    takes them: every occurrence of a node in a tree, with the flag that
    the dependencies above it on its path hand down. *)
Fixpoint inherited (shouldWrap : bool) (t : VisitTree Node) : list (Node * bool) :=
  match t with
  | VNode n children =>
      (n, shouldWrap)
      :: (fix all (ts : list (VisitTree Node)) : list (Node * bool) :=
            match ts with
            | [] => []
            | t' :: ts' => (inherited (wrapContext shouldWrap n) t' ++ all ts')%list
            end) children
  end.

(** ** The bookkeeping of the default bundler *)

(** The bundle is recorded in [bundleRoots] with a list of root assets
    that starts with its main entry. *)
Definition rooted (s : DefaultBundler.State) (b : Bundle) : Prop :=
  exists a rest,
    (b, a :: rest) ∈ DefaultBundler.bundleRoots s /\ bundle_mainEntry b = Some a.

(** The bundle is a member of some bundle group. *)
Definition grouped (g : BundleGraph) (b : Bundle) : Prop :=
  exists bg, bundle_id b ∈ bundle_id <$> getBundlesInBundleGroup g bg.

(** Every bundle of the graph that is not one of [g0] has its roots
    recorded and is in a bundle group. *)
Definition bookkept (g0 : BundleGraph) (s : DefaultBundler.State) : Prop :=
  forall b, b ∈ bundles (DefaultBundler.graph s) ->
            b ∈ bundles g0 \/ (rooted s b /\ grouped (DefaultBundler.graph s) b).

(** The bundle contains the asset graph of its main entry. *)
Definition holds_entry_graph (g : BundleGraph) (b : Bundle) : Prop :=
  exists a, bundle_mainEntry b = Some a
            /\ forall x, x ∈ ag_subgraph (assetGraph g) (asset_id a) ->
                         x ∈ contents_of g b.

(** [g'] has what [g] has: the ids of its bundles and bundle groups, the
    members of every group, the contents of every bundle and, first in
    the list, its asset references. Internalized pairs and asset [meta]
    are the same. *)
Definition extended_from (g g' : BundleGraph) : Prop :=
  assetGraph g' = assetGraph g
  /\ internalized g' = internalized g
  /\ assetMeta g' = assetMeta g
  /\ (forall id, id ∈ bundle_id <$> bundles g -> id ∈ bundle_id <$> bundles g')
  /\ (forall id, id ∈ bg_id <$> bundleGroups g -> id ∈ bg_id <$> bundleGroups g')
  /\ (forall bg id, id ∈ bundle_id <$> getBundlesInBundleGroup g bg ->
                    id ∈ bundle_id <$> getBundlesInBundleGroup g' bg)
  /\ (forall b x, x ∈ contents_of g b -> x ∈ contents_of g' b)
  /\ (exists added, assetReferences g' = (assetReferences g ++ added)%list).

(** From [s] to [s'] no bundle, asset reference, root list, sibling array
    or type map has changed; bundle groups have kept their members, and
    an asset has the sibling array it had or, when it had none, the array
    [siblingBundles]. *)
Definition same_but_siblings (siblingBundles : nat) (s s' : DefaultBundler.State)
    : Prop :=
  bundles (DefaultBundler.graph s') = bundles (DefaultBundler.graph s)
  /\ bundleGroups (DefaultBundler.graph s') = bundleGroups (DefaultBundler.graph s)
  /\ assetReferences (DefaultBundler.graph s') = assetReferences (DefaultBundler.graph s)
  /\ DefaultBundler.bundleRoots s' = DefaultBundler.bundleRoots s
  /\ DefaultBundler.siblingArrays s' = DefaultBundler.siblingArrays s
  /\ DefaultBundler.typeMaps s' = DefaultBundler.typeMaps s
  /\ (forall bg id,
        id ∈ bundle_id <$> getBundlesInBundleGroup (DefaultBundler.graph s) bg ->
        id ∈ bundle_id <$> getBundlesInBundleGroup (DefaultBundler.graph s') bg)
  /\ (forall k,
        JS.map_get k (DefaultBundler.siblingBundlesByAsset s')
        = JS.map_get k (DefaultBundler.siblingBundlesByAsset s)
        \/ (JS.map_get k (DefaultBundler.siblingBundlesByAsset s) = None
            /\ JS.map_get k (DefaultBundler.siblingBundlesByAsset s')
               = Some siblingBundles)).

(** What a visit of a dependency whose resolved assets have the type of
    the parent asset leaves for one of these assets: the sibling array it
    had, with every bundle of that array now in the bundle group of the
    context, or else the sibling array of the parent. *)
Definition shares_siblings (c : DefaultBundler.Context) (parentAsset : Asset)
    (s s' : DefaultBundler.State) (a : Asset) : Prop :=
  match JS.map_get (asset_id a) (DefaultBundler.siblingBundlesByAsset s) with
  | Some ref =>
      JS.map_get (asset_id a) (DefaultBundler.siblingBundlesByAsset s') = Some ref
      /\ forall bg b,
           DefaultBundler.bundleGroup c = Some bg ->
           b ∈ default [] (DefaultBundler.siblingArrays s !! ref) ->
           bundle_id b
             ∈ bundle_id <$> getBundlesInBundleGroup (DefaultBundler.graph s') bg
  | None =>
      JS.map_get (asset_id a) (DefaultBundler.siblingBundlesByAsset s')
      = JS.map_get (asset_id parentAsset) (DefaultBundler.siblingBundlesByAsset s)
  end.

End Properties.

(* ===================================================================== *)
(** * Example graphs                                                      *)
(* ===================================================================== *)

Module Examples.
Import MutableBundleGraph.

Definition browser : Environment := mkEnvironment "browser" false.
Definition worker : Environment := mkEnvironment "web-worker" true.
Definition dist : Target := mkTarget "default" "dist" browser.

Definition js_asset (id : string) : Asset := mkAsset id "js" false false true browser.

(** A non-entry, splittable bundle of type js. *)
Definition js_bundle (id : string) (entry : option Asset) : Bundle :=
  mkBundle id "js" browser dist false false true None entry.

Definition sync_dep (id : string) : Dependency := mkDependency id false false None ∅.
Definition async_dep (id : string) : Dependency := mkDependency id false true None ∅.
Definition entry_dep (id : string) : Dependency :=
  mkDependency id true false (Some dist) ∅.

Definition leaf {N : Type} (n : N) : VisitTree N := VNode n [].

Definition empty_assets : AssetGraph :=
  mkAssetGraph (fun _ => []) (fun _ _ => None) (fun id => [id]) (fun _ => 0%N).

(** A host that names a bundle after its unique key or its entry asset
    and has nothing to traverse. *)
Definition idle_host : Host :=
  mkHost
    (fun o => default (default "" (asset_id <$> opt_entryAsset o)) (opt_uniqueKey o))
    (fun _ => []) (fun _ => []) (fun _ => []) (fun _ _ => []).

Definition md5 (s : string) : string := "md5(" ++ s ++ ")".

(** ** Three shared assets of one size

    [x] is in the bundles [c] and [d], [y] in [a] and [b], [z] in [e] and
    [f]; each weighs 40000 bytes and the contents are traversed in the
    order [x], [y], [z]. *)
Definition three_shared : BundleGraph :=
  mkBundleGraph
    (mkAssetGraph (fun _ => []) (fun _ _ => None) (fun id => [id]) (fun _ => 40000%N))
    [js_bundle "a" None; js_bundle "b" None; js_bundle "c" None;
     js_bundle "d" None; js_bundle "e" None; js_bundle "f" None]
    []
    ∅
    (list_to_map [("a", ["y"]); ("b", ["y"]); ("c", ["x"]); ("d", ["x"]);
                  ("e", ["z"]); ("f", ["z"])])
    [] [] ∅.

Definition three_shared_host : Host :=
  mkHost (host_bundleId idle_host) (fun _ => []) (fun _ => [])
    (fun _ => [leaf (AssetNode (js_asset "x")); leaf (AssetNode (js_asset "y"));
               leaf (AssetNode (js_asset "z"))])
    (fun _ _ => []).

(** ** One big asset shared by three async bundles

    [big] weighs 60000 bytes and is in the bundles [p], [q] and [r],
    each the only bundle of its own group. *)
Definition big : Asset := js_asset "big".

Definition group_of (id : string) : BundleGroup := mkBundleGroup (async_dep id) dist.

Definition shared_big : BundleGraph :=
  mkBundleGraph
    (mkAssetGraph (fun _ => []) (fun _ _ => None) (fun id => [id]) (fun _ => 60000%N))
    [js_bundle "p" (Some (js_asset "p.js")); js_bundle "q" (Some (js_asset "q.js"));
     js_bundle "r" (Some (js_asset "r.js"))]
    [group_of "gp"; group_of "gq"; group_of "gr"]
    (list_to_map [("gp", [js_bundle "p" (Some (js_asset "p.js"))]);
                  ("gq", [js_bundle "q" (Some (js_asset "q.js"))]);
                  ("gr", [js_bundle "r" (Some (js_asset "r.js"))])])
    (list_to_map [("p", ["p.js"; "big"]); ("q", ["q.js"; "big"]);
                  ("r", ["r.js"; "big"])])
    [] [] ∅.

Definition shared_big_host : Host :=
  mkHost (host_bundleId idle_host) (fun _ => []) (fun _ => [])
    (fun _ => [leaf (AssetNode big)])
    (fun _ _ => []).

(** ** A hoist into a group of four

    The bundle [b] has the main entry [a] and two siblings in its own
    group [g0]. The asset [a] is also in the bundle [c], which is in the
    group [g1] together with three other bundles. *)
Definition hoisted : Bundle := js_bundle "b" (Some (js_asset "a")).

Definition crowded : BundleGraph :=
  mkBundleGraph
    empty_assets
    [hoisted; js_bundle "s1" None; js_bundle "s2" None; js_bundle "c" None;
     js_bundle "m1" None; js_bundle "m2" None; js_bundle "m3" None]
    [group_of "g0"; group_of "g1"]
    (list_to_map [("g0", [hoisted; js_bundle "s1" None; js_bundle "s2" None]);
                  ("g1", [js_bundle "c" None; js_bundle "m1" None;
                          js_bundle "m2" None; js_bundle "m3" None])])
    (list_to_map [("b", ["a"]); ("c", ["c.js"; "a"])])
    [] [] ∅.

Definition crowded_host : Host :=
  mkHost (host_bundleId idle_host) (fun _ => []) (fun _ => [leaf hoisted])
    (fun _ => []) (fun _ _ => []).

(** ** A group that is full

    The bundles [p] and [q] share [big]; the group [gp] of [p] already
    holds five bundles. *)
Definition full_group : BundleGraph :=
  mkBundleGraph
    (mkAssetGraph (fun _ => []) (fun _ _ => None) (fun id => [id]) (fun _ => 60000%N))
    [js_bundle "p" None; js_bundle "q" None; js_bundle "p1" None; js_bundle "p2" None;
     js_bundle "p3" None; js_bundle "p4" None]
    [group_of "gp"; group_of "gq"]
    (list_to_map [("gp", [js_bundle "p" None; js_bundle "p1" None; js_bundle "p2" None;
                          js_bundle "p3" None; js_bundle "p4" None]);
                  ("gq", [js_bundle "q" None])])
    (list_to_map [("p", ["big"]); ("q", ["big"])])
    [] [] ∅.

Definition big_candidate : OptimizeBundler.Candidate :=
  OptimizeBundler.mkCandidate [big] [js_bundle "p" None; js_bundle "q" None] 60000.

(** ** A bundle of an isolated environment *)
Definition worker_bundle : Bundle :=
  mkBundle "w" "js" worker dist false false true None (Some (js_asset "w.js")).

(** ** An async import of an asset the importer already has

    The bundle [main] contains [x] and the async dependency [dx] on [x];
    the group opened for [dx] holds the bundle [bx]. *)
Definition x : Asset := js_asset "x".
Definition dx : Dependency := async_dep "dx".
Definition main : Bundle := js_bundle "main" (Some (js_asset "main.js")).

Definition async_self : BundleGraph :=
  mkBundleGraph
    (mkAssetGraph
       (fun d => if String.eqb d "dx" then [x] else [])
       (fun d _ => if String.eqb d "dx" then Some x else None)
       (fun id => [id]) (fun _ => 1000%N))
    [main; js_bundle "bx" (Some x)]
    [mkBundleGroup (entry_dep "e") dist; group_of "dx"]
    (list_to_map [("e", [main]); ("dx", [js_bundle "bx" (Some x)])])
    (list_to_map [("main", ["main.js"; "dx"; "x"]); ("bx", ["x"])])
    [] [] ∅.

(** The same graph before any group was opened for [dx]. *)
Definition async_no_group : BundleGraph :=
  with_bundleGroups async_self [mkBundleGroup (entry_dep "e") dist].

(** ** An entry with an async import that resolves to nothing

    The entry dependency [e] resolves to [index.js], whose only
    dependency [lazy] is async and has no resolution. *)
Definition index : Asset := js_asset "index.js".
Definition lazy_dep : Dependency := async_dep "lazy".

Definition lazy_graph : BundleGraph :=
  mkBundleGraph
    (mkAssetGraph
       (fun d => if String.eqb d "e" then [index] else [])
       (fun d _ => if String.eqb d "e" then Some index else None)
       (fun id => if String.eqb id "index.js" then ["index.js"; "lazy"] else [id])
       (fun _ => 1000%N))
    [] [] ∅ ∅ [] [] ∅.

Definition lazy_host : Host :=
  mkHost (host_bundleId idle_host)
    (fun _ => [VNode (DependencyNode (entry_dep "e"))
                 [VNode (AssetNode index) [leaf (DependencyNode lazy_dep)]]])
    (fun _ => []) (fun _ => []) (fun _ _ => []).

(** ** Wrap propagation

    [a] imports [b] through a dependency with [meta.shouldWrap], [b]
    imports [c], and [a] also imports [z] through a dependency without
    the flag. All four assets are in the bundle [main]. *)
Definition dep_ab : Dependency := mkDependency "a>b" false false None {["shouldWrap" := true]}.
Definition dep_bc : Dependency := sync_dep "b>c".
Definition dep_az : Dependency := sync_dep "a>z".

Definition wrap_tree : list (VisitTree Node) :=
  [VNode (AssetNode (js_asset "a"))
     [VNode (DependencyNode dep_ab)
        [VNode (AssetNode (js_asset "b"))
           [VNode (DependencyNode dep_bc) [leaf (AssetNode (js_asset "c"))]]];
      VNode (DependencyNode dep_az) [leaf (AssetNode (js_asset "z"))]]].

Definition wrap_resolution (d : string) : option Asset :=
  if String.eqb d "a>b" then Some (js_asset "b")
  else if String.eqb d "b>c" then Some (js_asset "c")
  else if String.eqb d "a>z" then Some (js_asset "z")
  else None.

Definition wrap_graph : BundleGraph :=
  mkBundleGraph
    (mkAssetGraph (fun d => option_list (wrap_resolution d))
       (fun d _ => wrap_resolution d) (fun id => [id]) (fun _ => 1000%N))
    [main]
    [mkBundleGroup (entry_dep "e") dist]
    (list_to_map [("e", [main])])
    (list_to_map [("main", ["a"; "a>b"; "b"; "b>c"; "c"; "a>z"; "z"])])
    [] [] ∅.

Definition wrap_host : Host :=
  mkHost (host_bundleId idle_host) (fun _ => []) (fun _ => [leaf main])
    (fun _ => []) (fun _ _ => wrap_tree).

(** The same graph with the dependency of [a] on [b] unresolved. *)
Definition unresolved_graph : BundleGraph :=
  mkBundleGraph
    (mkAssetGraph (fun d => option_list (wrap_resolution d))
       (fun d _ => if String.eqb d "a>b" then None else wrap_resolution d)
       (fun id => [id]) (fun _ => 1000%N))
    [main]
    [mkBundleGroup (entry_dep "e") dist]
    (list_to_map [("e", [main])])
    (list_to_map [("main", ["a"; "a>b"; "b"; "b>c"; "c"; "a>z"; "z"])])
    [] [] ∅.

(** ** A dependency that opens no group at the root

    The traversal starts at the dependency [plain], which is neither an
    entry nor async and resolves to nothing. *)
Definition plain_dep : Dependency := sync_dep "plain".

Definition plain_root_host : Host :=
  mkHost (host_bundleId idle_host) (fun _ => [leaf (DependencyNode plain_dep)])
    (fun _ => []) (fun _ => []) (fun _ _ => []).

(** The traversal starts at the asset [index.js], whose dependency
    [plain] opens no group. *)
Definition asset_root_host : Host :=
  mkHost (host_bundleId idle_host)
    (fun _ => [VNode (AssetNode index) [leaf (DependencyNode plain_dep)]])
    (fun _ => []) (fun _ => []) (fun _ _ => []).

(** ** An entry with a stylesheet

    The entry dependency [e] resolves to [a.js], which imports the
    stylesheet [s.css] and the script [b.js]. *)
Definition css_asset (id : string) : Asset := mkAsset id "css" false false true browser.
Definition dep_css : Dependency := sync_dep "a>s".
Definition dep_js : Dependency := sync_dep "a>b".

Definition styled_assets (d : string) : list Asset :=
  if String.eqb d "e" then [js_asset "a.js"]
  else if String.eqb d "a>s" then [css_asset "s.css"]
  else if String.eqb d "a>b" then [js_asset "b.js"]
  else [].

Definition styled_graph : BundleGraph :=
  mkBundleGraph
    (mkAssetGraph styled_assets (fun d _ => head (styled_assets d))
       (fun id => [id]) (fun _ => 1000%N))
    [] [] ∅ ∅ [] [] ∅.

Definition styled_host : Host :=
  mkHost (host_bundleId idle_host)
    (fun _ => [VNode (DependencyNode (entry_dep "e"))
                 [VNode (AssetNode (js_asset "a.js"))
                    [VNode (DependencyNode dep_css) [leaf (AssetNode (css_asset "s.css"))];
                     VNode (DependencyNode dep_js) [leaf (AssetNode (js_asset "b.js"))]]]])
    (fun _ => []) (fun _ => []) (fun _ _ => []).

(** The context that [a.js] hands down, and the state in which its
    dependencies are visited: the group of [e] holds the bundle of
    [a.js], whose sibling array is empty. *)
Definition styled_group : BundleGroup := mkBundleGroup (entry_dep "e") dist.

Definition styled_context : DefaultBundler.Context :=
  {| DefaultBundler.bundleGroup := Some styled_group;
     DefaultBundler.bundleByType := Some 0%nat;
     DefaultBundler.bundleGroupDependency := Some (entry_dep "e");
     DefaultBundler.parentNode := AssetNode (js_asset "a.js") |}.

Definition styled_bundle : Bundle :=
  mkBundle "a.js" "js" browser dist true false true None (Some (js_asset "a.js")).

Definition styled_state : DefaultBundler.State :=
  DefaultBundler.mkState
    (mkBundleGraph (assetGraph styled_graph) [styled_bundle] [styled_group]
       (list_to_map [("e", [styled_bundle])]) ∅ [] [] ∅)
    [(styled_bundle, [js_asset "a.js"])]
    [("a.js", 0%nat)]
    [[]]
    [[("js", 0%nat)]].

(** The entry [e] resolves to [a.js], which imports the stylesheets
    [x.css] and [y.css]; a second entry [f] resolves to [x.css] itself.
    [createBundle] is called twice with the entry asset [x.css], for the
    import and for the entry, and [y.css] joins the first of the two
    bundles in between. *)
Definition dep_x : Dependency := sync_dep "a>x".
Definition dep_y : Dependency := sync_dep "a>y".

Definition twin_assets (d : string) : list Asset :=
  if String.eqb d "e" then [js_asset "a.js"]
  else if String.eqb d "a>x" then [css_asset "x.css"]
  else if String.eqb d "a>y" then [css_asset "y.css"]
  else if String.eqb d "f" then [css_asset "x.css"]
  else [].

Definition twin_graph : BundleGraph :=
  mkBundleGraph
    (mkAssetGraph twin_assets (fun d _ => head (twin_assets d))
       (fun id => [id]) (fun _ => 1000%N))
    [] [] ∅ ∅ [] [] ∅.

Definition twin_host : Host :=
  mkHost (host_bundleId idle_host)
    (fun _ => [VNode (DependencyNode (entry_dep "e"))
                 [VNode (AssetNode (js_asset "a.js"))
                    [VNode (DependencyNode dep_x) [leaf (AssetNode (css_asset "x.css"))];
                     VNode (DependencyNode dep_y) [leaf (AssetNode (css_asset "y.css"))]]];
               VNode (DependencyNode (entry_dep "f"))
                 [leaf (AssetNode (css_asset "x.css"))]])
    (fun _ => []) (fun _ => []) (fun _ _ => []).

(** The same assets in a graph that already has the bundle [old] in the
    group [g0]. *)
Definition kept_graph : BundleGraph :=
  mkBundleGraph (assetGraph styled_graph)
    [js_bundle "old" None]
    [group_of "g0"]
    (list_to_map [("g0", [js_bundle "old" None])])
    (list_to_map [("old", ["old.js"])])
    [] [("d0", "old.js")] ∅.

(** ** A hoist next to an entry bundle

    The graph of the hoist into a group of four, with the entry bundle
    [entry] that contains [a] as well. *)
Definition entry_bundle : Bundle :=
  mkBundle "entry" "js" browser dist true false true None None.

Definition guarded : BundleGraph :=
  mkBundleGraph empty_assets
    (bundles crowded ++ [entry_bundle])
    (bundleGroups crowded)
    (groupMembers crowded)
    (<["entry" := ["a"]]> (bundleContents crowded))
    [] [] ∅.

(** ** A host that walks the async import

    Every traversal of the graph, and of a bundle, meets the dependency
    [dx] and nothing else. *)
Definition import_host : Host :=
  mkHost (host_bundleId idle_host)
    (fun _ => [leaf (DependencyNode dx)])
    (fun _ => []) (fun _ => [])
    (fun _ _ => [leaf (DependencyNode dx)]).

(** ** A bundle without wrap flags

    The traversal of [main] meets the dependency of [a] on [z] only. *)
Definition unflagged_tree : VisitTree Node :=
  VNode (DependencyNode dep_az) [leaf (AssetNode (js_asset "z"))].

Definition unflagged_host : Host :=
  mkHost (host_bundleId idle_host) (fun _ => []) (fun _ => [leaf main])
    (fun _ => []) (fun _ _ => [unflagged_tree]).

(** ** An asset that is imported twice

    [a] imports [b] twice: through the dependency [a>b'] without the
    flag, which the traversal meets first, and through [a>b], which
    carries [meta.shouldWrap]. [b] imports [c]. *)
Definition dep_ab_plain : Dependency := sync_dep "a>b'".

Definition below_b : list (VisitTree Node) :=
  [VNode (AssetNode (js_asset "b"))
     [VNode (DependencyNode dep_bc) [leaf (AssetNode (js_asset "c"))]]].

Definition twice_tree : list (VisitTree Node) :=
  [VNode (AssetNode (js_asset "a"))
     [VNode (DependencyNode dep_ab_plain) below_b;
      VNode (DependencyNode dep_ab) below_b]].

Definition twice_resolution (d : string) : option Asset :=
  if String.eqb d "a>b'" then Some (js_asset "b") else wrap_resolution d.

Definition twice_graph : BundleGraph :=
  mkBundleGraph
    (mkAssetGraph (fun d => option_list (twice_resolution d))
       (fun d _ => twice_resolution d) (fun id => [id]) (fun _ => 1000%N))
    [main]
    [mkBundleGroup (entry_dep "e") dist]
    (list_to_map [("e", [main])])
    (list_to_map [("main", ["a"; "a>b'"; "a>b"; "b"; "b>c"; "c"])])
    [] [] ∅.

Definition twice_host : Host :=
  mkHost (host_bundleId idle_host) (fun _ => []) (fun _ => [leaf main])
    (fun _ => []) (fun _ _ => twice_tree).

(** The same graph with the flagged dependency of [a] on [b] unresolved
    in the bundle. *)
Definition twice_unresolved : BundleGraph :=
  mkBundleGraph
    (mkAssetGraph (fun d => option_list (twice_resolution d))
       (fun d _ => if String.eqb d "a>b" then None else twice_resolution d)
       (fun id => [id]) (fun _ => 1000%N))
    [main]
    [mkBundleGroup (entry_dep "e") dist]
    (list_to_map [("e", [main])])
    (list_to_map [("main", ["a"; "a>b'"; "a>b"; "b"; "b>c"; "c"])])
    [] [] ∅.

End Examples.

(* ===================================================================== *)
(** * Facts about the JavaScript library functions                        *)
(* ===================================================================== *)

Section SortFacts.
Context {A : Type} (key : A -> Z).

(** The comparator [(a, b) => key(b) - key(a)]. *)
Let cmp : A -> A -> Z := fun a b => key b - key a.

Lemma insert_sorted_Permutation (c : A -> A -> Z) (x : A) (l : list A) :
  Permutation (JS.insert_sorted c x l) (x :: l).
Proof.
  induction l as [|y l IH]; simpl; [done|].
  destruct (c x y <=? 0); [done|].
  rewrite IH. apply perm_swap.
Qed.

Lemma sort_Permutation (c : A -> A -> Z) (l : list A) :
  Permutation (JS.sort c l) l.
Proof.
  induction l as [|x l IH]; simpl; [done|].
  by rewrite insert_sorted_Permutation, IH.
Qed.

Lemma insert_sorted_descending (x : A) (l : list A) :
  StronglySorted (fun a b => key b <= key a) l ->
  StronglySorted (fun a b => key b <= key a) (JS.insert_sorted cmp x l).
Proof.
  induction 1 as [|y l Hl IH Hy]; simpl.
  - repeat constructor.
  - subst cmp; simpl. destruct (Z.leb_spec (key y - key x) 0) as [Hle|Hgt].
    + constructor; [by constructor|].
      constructor; [lia|].
      eapply Forall_impl; [exact Hy|]. simpl. intros; lia.
    + constructor; [exact IH|].
      eapply Permutation_Forall; [symmetry; apply insert_sorted_Permutation|].
      constructor; [lia | exact Hy].
Qed.

Lemma sort_descending (l : list A) :
  StronglySorted (fun a b => key b <= key a) (JS.sort cmp l).
Proof.
  induction l as [|x l IH]; simpl; [constructor|].
  by apply insert_sorted_descending.
Qed.

(** Stability: the elements of one key keep their order. *)
Lemma insert_sorted_stable (s : Z) (x : A) (l : list A) :
  List.filter (fun a => key a =? s) (JS.insert_sorted cmp x l)
  = List.filter (fun a => key a =? s) (x :: l).
Proof.
  induction l as [|y l IH]; [done|].
  simpl. subst cmp; simpl.
  destruct (Z.leb_spec (key y - key x) 0) as [Hle|Hgt]; [done|].
  simpl in *. rewrite IH.
  destruct (Z.eqb_spec (key x) s), (Z.eqb_spec (key y) s); try done; lia.
Qed.

Lemma sort_stable (s : Z) (l : list A) :
  List.filter (fun a => key a =? s) (JS.sort cmp l)
  = List.filter (fun a => key a =? s) l.
Proof.
  induction l as [|x l IH]; [done|].
  simpl JS.sort. rewrite insert_sorted_stable. simpl. by rewrite IH.
Qed.
End SortFacts.

Section MapFacts.
Context {V : Type}.

Lemma map_get_Some (P : V -> Prop) (k : string) (m : list (string * V)) (v : V) :
  Forall (fun e => P e.2) m -> JS.map_get k m = Some v -> P v.
Proof.
  induction 1 as [|[k' v'] m Hv Hm IH]; simpl; [done|].
  destruct (String.eqb k' k); [|exact IH].
  intros [= <-]. exact Hv.
Qed.

Lemma map_set_Forall (P : V -> Prop) (k : string) (v : V) (m : list (string * V)) :
  Forall (fun e => P e.2) m -> P v -> Forall (fun e => P e.2) (JS.map_set k v m).
Proof.
  intros Hm Hv. induction Hm as [|[k' v'] m Hv' Hm IH]; simpl.
  - by repeat constructor.
  - destruct (String.eqb k' k); by constructor.
Qed.

Lemma map_values_Forall (P : V -> Prop) (m : list (string * V)) :
  Forall (fun e => P e.2) m -> Forall P (JS.map_values m).
Proof. unfold JS.map_values. by rewrite Forall_fmap. Qed.
End MapFacts.

Section MapEntries.
Context {V : Type}.

Lemma map_get_elem (k : string) (m : list (string * V)) (v : V) :
  JS.map_get k m = Some v -> (k, v) ∈ m.
Proof.
  induction m as [|[k' v'] m IH]; simpl; [done|].
  destruct (String.eqb_spec k' k) as [->|Hne].
  - intros [= ->]. apply elem_of_cons. by left.
  - intros H. apply elem_of_cons. right. by apply IH.
Qed.

Lemma map_get_None (k : string) (m : list (string * V)) :
  JS.map_get k m = None -> k ∉ m.*1.
Proof.
  induction m as [|[k' v'] m IH]; simpl; [intros _ H; by apply elem_of_nil in H|].
  destruct (String.eqb_spec k' k) as [->|Hne]; [done|].
  intros H [->|Hin]%elem_of_cons; [done|]. by apply IH.
Qed.

Lemma map_set_entries (P : string * V -> Prop) (k : string) (v : V)
    (m : list (string * V)) :
  Forall P m -> P (k, v) -> Forall P (JS.map_set k v m).
Proof.
  intros Hm Hv. induction Hm as [|[k' v'] m Hv' Hm IH]; simpl.
  - by repeat constructor.
  - destruct (String.eqb k' k); by constructor.
Qed.

Lemma map_set_keys (k : string) (v : V) (m : list (string * V)) :
  (JS.map_set k v m).*1
  = match JS.map_get k m with
    | Some _ => m.*1
    | None => (m.*1 ++ [k])%list
    end.
Proof.
  induction m as [|[k' v'] m IH]; [done|].
  cbn [JS.map_set JS.map_get].
  destruct (String.eqb_spec k' k) as [->|Hne]; [done|].
  rewrite !fmap_cons, IH. by destruct (JS.map_get k m).
Qed.

Lemma map_set_keys_NoDup (k : string) (v : V) (m : list (string * V)) :
  NoDup m.*1 -> NoDup (JS.map_set k v m).*1.
Proof.
  intros Hm. rewrite map_set_keys.
  destruct (JS.map_get k m) eqn:Hget; [done|].
  apply NoDup_app. split; [done|]. split; [|apply NoDup_singleton].
  intros x Hx ->%list_elem_of_singleton. by apply (map_get_None _ _ Hget).
Qed.

(** Reading a key that was just set, and any other key. *)
Lemma map_get_set_eq (k : string) (v : V) (m : list (string * V)) :
  JS.map_get k (JS.map_set k v m) = Some v.
Proof.
  induction m as [|[k' v'] m IH]; simpl; [by rewrite String.eqb_refl|].
  destruct (String.eqb_spec k' k) as [->|Hne]; simpl.
  - by rewrite String.eqb_refl.
  - by apply String.eqb_neq in Hne as ->.
Qed.

Lemma map_get_set_ne (k k0 : string) (v : V) (m : list (string * V)) :
  k0 <> k -> JS.map_get k0 (JS.map_set k v m) = JS.map_get k0 m.
Proof.
  intros Hne. induction m as [|[k' v'] m IH]; simpl.
  - apply not_eq_sym in Hne. by apply String.eqb_neq in Hne as ->.
  - destruct (String.eqb_spec k' k) as [->|Hne']; simpl; [|by rewrite IH].
    apply not_eq_sym in Hne. by apply String.eqb_neq in Hne as ->.
Qed.
End MapEntries.

(* ===================================================================== *)
(** * Facts about traversals                                              *)
(* ===================================================================== *)


Section TraverseFacts.
Import MutableBundleGraph.
Context {N C S : Type}.
Variable id_of : N -> string.
Variable enter : N -> C -> S -> JS.Result (Visit C S).
Variable exit : N -> C -> S -> JS.Result S.

Lemma walk_unfold (n : N) (children : list (VisitTree N)) (ctx : C)
    (st : list string * S) :
  walk id_of enter exit (VNode n children) ctx st
  = if bool_decide (id_of n ∈ st.1) then JS.Ok st
    else
      v ← enter n ctx st.2;
      let ctx' := default ctx (visit_context v) in
      let st1 := (id_of n :: st.1, visit_state v) in
      if visit_skipChildren v then JS.Ok st1
      else
        st2 ← walk_all id_of enter exit children ctx' st1;
        s3 ← exit n ctx' st2.2;
        JS.Ok (st2.1, s3).
Proof.
  simpl. destruct (bool_decide _); [done|].
  destruct (enter n ctx st.2) as [v|e]; [|done]. simpl.
  destruct (visit_skipChildren v); [done|].
  generalize (id_of n :: st.1, visit_state v).
  generalize (default ctx (visit_context v)). intros ctx' st1.
  f_equal. revert st1.
  induction children as [|t ts IH]; intros st1; [done|].
  simpl. destruct (walk id_of enter exit t ctx' st1); [|done].
  simpl. apply IH.
Qed.

(** A property of the state that every hook keeps is kept by the walk. *)
Section Preserved.
Variable P : S -> Prop.
Hypothesis enter_keeps : forall n c s v, P s -> enter n c s = JS.Ok v -> P (visit_state v).
Hypothesis exit_keeps : forall n c s s', P s -> exit n c s = JS.Ok s' -> P s'.

Lemma walk_preserves (t : VisitTree N) :
  forall ctx st st', P st.2 -> walk id_of enter exit t ctx st = JS.Ok st' -> P st'.2.
Proof.
  induction t as [n children IH] using VisitTree_ind.
  intros ctx st st' Hst. rewrite walk_unfold.
  destruct (bool_decide _); [by intros [= <-]|].
  destruct (enter n ctx st.2) as [v|e] eqn:Hv; [|done]. simpl.
  pose proof (enter_keeps _ _ _ _ Hst Hv) as Hv'.
  destruct (visit_skipChildren v); [by intros [= <-]|].
  set (ctx' := default ctx (visit_context v)).
  assert (Hall : forall st1 st2, P st1.2 ->
            walk_all id_of enter exit children ctx' st1 = JS.Ok st2 -> P st2.2).
  { clear Hv Hv'. induction IH as [|t ts Ht _ IHts]; intros st1 st2 H1; simpl.
    - by intros [= <-].
    - destruct (walk id_of enter exit t ctx' st1) as [st1'|] eqn:Hw; [|done].
      simpl. apply IHts. eapply Ht; eauto. }
  destruct (walk_all _ _ _ children ctx' _) as [st2|] eqn:Hk; [|done]. simpl.
  destruct (exit n ctx' st2.2) as [s3|] eqn:Hx; [|done]. simpl.
  intros [= <-]. simpl. eapply exit_keeps; [|exact Hx].
  eapply Hall; [|exact Hk]. exact Hv'.
Qed.

Lemma walk_all_preserves (ts : list (VisitTree N)) :
  forall ctx st st', P st.2 -> walk_all id_of enter exit ts ctx st = JS.Ok st' -> P st'.2.
Proof.
  induction ts as [|t ts IH]; intros ctx st st' Hst; simpl.
  - by intros [= <-].
  - destruct (walk id_of enter exit t ctx st) as [st1|] eqn:Hw; [|done].
    simpl. apply IH. eapply walk_preserves; eauto.
Qed.

Lemma traverse_preserves (roots : list (VisitTree N)) (ctx : C) (s s' : S) :
  P s -> traverse id_of enter exit roots ctx s = JS.Ok s' -> P s'.
Proof.
  unfold traverse. intros Hs.
  destruct (walk_all _ _ _ roots ctx _) as [st|] eqn:Hw; [|done].
  simpl. intros [= <-]. eapply walk_all_preserves in Hw; eauto.
Qed.
End Preserved.

(** Hooks that never throw make a traversal that never throws. *)
Section Total.
Hypothesis enter_ok : forall n c s, exists v, enter n c s = JS.Ok v.
Hypothesis exit_ok : forall n c s, exists s', exit n c s = JS.Ok s'.

Lemma walk_total (t : VisitTree N) :
  forall ctx st, exists st', walk id_of enter exit t ctx st = JS.Ok st'.
Proof.
  induction t as [n children IH] using VisitTree_ind.
  intros ctx st. rewrite walk_unfold.
  destruct (bool_decide _); [eauto|].
  destruct (enter_ok n ctx st.2) as [v ->]. simpl.
  destruct (visit_skipChildren v); [eauto|].
  set (ctx' := default ctx (visit_context v)).
  assert (Hall : forall st1, exists st2,
            walk_all id_of enter exit children ctx' st1 = JS.Ok st2).
  { induction IH as [|t ts Ht _ IHts]; intros st1; simpl; [eauto|].
    destruct (Ht ctx' st1) as [st1' ->]. simpl. apply IHts. }
  destruct (Hall (id_of n :: st.1, visit_state v)) as [st2 ->]. simpl.
  destruct (exit_ok n ctx' st2.2) as [s3 ->]. simpl. eauto.
Qed.

Lemma traverse_total (roots : list (VisitTree N)) (ctx : C) (s : S) :
  exists s', traverse id_of enter exit roots ctx s = JS.Ok s'.
Proof.
  unfold traverse.
  assert (Hall : forall st, exists st',
            walk_all id_of enter exit roots ctx st = JS.Ok st').
  { induction roots as [|t ts IH]; intros st; simpl; [eauto|].
    destruct (walk_total t ctx st) as [st1 ->]. simpl. apply IH. }
  destruct (Hall ([], s)) as [st ->]. simpl. eauto.
Qed.
End Total.
End TraverseFacts.

(* ===================================================================== *)
(** * The visits of a traversal                                           *)
(* ===================================================================== *)

Section TreeFacts.
Import Properties.
Context {N : Type}.

Lemma tree_nodes_unfold (n : N) (children : list (VisitTree N)) :
  tree_nodes (VNode n children) = n :: (children ≫= tree_nodes).
Proof. done. Qed.

Lemma subtrees_unfold (n : N) (children : list (VisitTree N)) :
  subtrees (VNode n children) = VNode n children :: (children ≫= subtrees).
Proof. done. Qed.

Lemma nodes_single (n : N) (children : list (VisitTree N)) :
  [VNode n children] ≫= tree_nodes = n :: (children ≫= tree_nodes).
Proof. cbn [mbind list_bind]. by rewrite app_nil_r. Qed.

Lemma subtrees_self (t : VisitTree N) : t ∈ subtrees t.
Proof. destruct t. rewrite subtrees_unfold. apply elem_of_cons. by left. Qed.

Lemma root_tree_nodes (t : VisitTree N) : root t ∈ tree_nodes t.
Proof. destruct t. rewrite tree_nodes_unfold. apply elem_of_cons. by left. Qed.

(** The nodes of a tree are the roots of its subtrees. *)
Lemma tree_nodes_subtrees (t : VisitTree N) (x : N) :
  x ∈ tree_nodes t <-> exists t', t' ∈ subtrees t /\ root t' = x.
Proof.
  induction t as [n children IH] using VisitTree_ind.
  rewrite tree_nodes_unfold, subtrees_unfold, elem_of_cons. split.
  - intros [->|(t & Hx & Ht)%list_elem_of_bind].
    + exists (VNode n children). split; [apply elem_of_cons; by left|done].
    + rewrite List.Forall_forall in IH.
      apply (IH t) in Hx as (t' & Ht' & Hroot); [|by apply list_elem_of_In].
      exists t'. split; [|done]. apply elem_of_cons. right.
      apply list_elem_of_bind. by exists t.
  - intros (t' & [->|(t & Ht' & Ht)%list_elem_of_bind]%elem_of_cons & Hroot).
    + by left.
    + right. apply list_elem_of_bind. exists t. split; [|done].
      rewrite List.Forall_forall in IH. apply (IH t); [by apply list_elem_of_In|].
      by exists t'.
Qed.

(** A subtree of a subtree is a subtree. *)
Lemma subtrees_trans (t t' t'' : VisitTree N) :
  t' ∈ subtrees t -> t'' ∈ subtrees t' -> t'' ∈ subtrees t.
Proof.
  induction t as [n children IH] using VisitTree_ind.
  rewrite subtrees_unfold. intros [->|(t0 & Ht' & Ht0)%list_elem_of_bind]%elem_of_cons.
  - by rewrite subtrees_unfold.
  - intros Ht''. apply elem_of_cons. right. apply list_elem_of_bind. exists t0.
    split; [|done]. rewrite List.Forall_forall in IH.
    apply (IH t0); [by apply list_elem_of_In|done|done].
Qed.

(** The nodes below the root of a subtree are nodes of the tree. *)
Lemma children_nodes (t t' : VisitTree N) (x : N) :
  t' ∈ subtrees t -> x ∈ children_of t' ≫= tree_nodes -> x ∈ tree_nodes t.
Proof.
  intros Ht' Hx. apply tree_nodes_subtrees.
  destruct t' as [n kids]. simpl in Hx.
  apply list_elem_of_bind in Hx as (k & Hx & Hk).
  apply tree_nodes_subtrees in Hx as (t'' & Ht'' & Hroot).
  exists t''. split; [|done]. eapply subtrees_trans; [exact Ht'|].
  rewrite subtrees_unfold. apply elem_of_cons. right.
  apply list_elem_of_bind. by exists k.
Qed.
End TreeFacts.

Section VisitFacts.
Import Properties.
Context {N C : Type}.
Variable id_of : N -> string.
Variable next : C -> N -> C.

Abbreviation Forest := (list (VisitTree (N * C))).

Lemma visitTree_unfold (n : N) (children : list (VisitTree N)) (c : C)
    (st : list string * Forest) :
  visitTree id_of next (VNode n children) c st
  = if bool_decide (id_of n ∈ st.1) then st
    else
      let below := visitAll id_of next children (next c n) (id_of n :: st.1, []) in
      (below.1, (st.2 ++ [VNode (n, c) below.2])%list).
Proof.
  simpl. destruct (bool_decide _); [done|].
  generalize (id_of n :: st.1, @nil (VisitTree (N * C))). intros acc.
  assert (Hall : forall acc,
    (fix visitAll (ts : list (VisitTree N)) (acc : list string * Forest) :=
       match ts with
       | [] => acc
       | t' :: ts' => visitAll ts' (visitTree id_of next t' (next c n) acc)
       end) children acc
    = visitAll id_of next children (next c n) acc).
  { clear acc. induction children as [|t ts IH]; intros acc; [done|]. simpl. apply IH. }
  by rewrite Hall.
Qed.

(** The trees built so far are a prefix of the result. *)
Lemma visitTree_acc (t : VisitTree N) (c : C) (seen : list string) (F : Forest) :
  visitTree id_of next t c (seen, F)
  = ((visitTree id_of next t c (seen, [])).1,
     (F ++ (visitTree id_of next t c (seen, [])).2)%list).
Proof.
  destruct t as [n children]. rewrite !visitTree_unfold. simpl.
  destruct (bool_decide _); simpl; [by rewrite app_nil_r|done].
Qed.

Lemma visitAll_acc (ts : list (VisitTree N)) (c : C) :
  forall seen F,
    visitAll id_of next ts c (seen, F)
    = ((visitAll id_of next ts c (seen, [])).1,
       (F ++ (visitAll id_of next ts c (seen, [])).2)%list).
Proof.
  induction ts as [|t ts IH]; intros seen F; simpl; [by rewrite app_nil_r|].
  rewrite (visitTree_acc t c seen F).
  destruct (visitTree id_of next t c (seen, [])) as [seen1 F1]. simpl.
  rewrite (IH seen1 (F ++ F1)%list), (IH seen1 F1). simpl. by rewrite app_assoc.
Qed.

Lemma visitAll_cons (t : VisitTree N) (ts : list (VisitTree N)) (c : C)
    (seen : list string) :
  visitAll id_of next (t :: ts) c (seen, [])
  = let r := visitTree id_of next t c (seen, []) in
    let r' := visitAll id_of next ts c (r.1, []) in
    (r'.1, (r.2 ++ r'.2)%list).
Proof.
  simpl. destruct (visitTree id_of next t c (seen, [])) as [seen1 F1]. simpl.
  by rewrite visitAll_acc.
Qed.

(** What the traversal has seen when it is done: what it had seen, and
    the nodes it has visited. *)
Lemma visitTree_seen (t : VisitTree N) :
  forall c seen x,
    x ∈ (visitTree id_of next t c (seen, [])).1
    <-> x ∈ seen
        \/ x ∈ (id_of ∘ fst) <$> ((visitTree id_of next t c (seen, [])).2 ≫= tree_nodes).
Proof.
  induction t as [n children IH] using VisitTree_ind.
  intros c seen x. rewrite visitTree_unfold. cbn [fst snd].
  destruct (bool_decide _) eqn:Hseen; cbn [fst snd].
  { split; [by left|]. intros [H|H]; [done|by apply elem_of_nil in H]. }
  cbn zeta. cbn [fst snd]. rewrite app_nil_l, nodes_single, fmap_cons.
  assert (Hall : forall seen1 x,
    x ∈ (visitAll id_of next children (next c n) (seen1, [])).1
    <-> x ∈ seen1
        \/ x ∈ (id_of ∘ fst)
               <$> ((visitAll id_of next children (next c n) (seen1, [])).2 ≫= tree_nodes)).
  { clear Hseen. induction IH as [|t ts Ht _ IHts]; intros seen1 y.
    - cbn [visitAll fst snd]. split; [by left|].
      intros [H|H]; [done|by apply elem_of_nil in H].
    - rewrite visitAll_cons. cbn zeta. cbn [fst snd].
      rewrite IHts, Ht, bind_app, fmap_app, elem_of_app. tauto. }
  rewrite Hall, !elem_of_cons. cbn [compose fst]. tauto.
Qed.

Lemma visitAll_seen (ts : list (VisitTree N)) :
  forall c seen x,
    x ∈ (visitAll id_of next ts c (seen, [])).1
    <-> x ∈ seen
        \/ x ∈ (id_of ∘ fst) <$> ((visitAll id_of next ts c (seen, [])).2 ≫= tree_nodes).
Proof.
  induction ts as [|t ts IH]; intros c seen x.
  - cbn [visitAll fst snd]. split; [by left|].
    intros [H|H]; [done|by apply elem_of_nil in H].
  - rewrite visitAll_cons. cbn zeta. cbn [fst snd].
    rewrite IH, visitTree_seen, bind_app, fmap_app, elem_of_app. tauto.
Qed.

(** A node that was seen before is not visited again. *)
Lemma visitTree_fresh (t : VisitTree N) :
  forall c seen v,
    v ∈ (visitTree id_of next t c (seen, [])).2 ≫= tree_nodes -> id_of v.1 ∉ seen.
Proof.
  induction t as [n children IH] using VisitTree_ind.
  intros c seen v. rewrite visitTree_unfold. cbn [fst snd].
  destruct (bool_decide _) eqn:Hseen; cbn [fst snd];
    [intros H; by apply elem_of_nil in H|].
  apply bool_decide_eq_false in Hseen.
  cbn zeta. cbn [fst snd]. rewrite app_nil_l, nodes_single.
  assert (Hall : forall seen1 v,
    v ∈ (visitAll id_of next children (next c n) (seen1, [])).2 ≫= tree_nodes ->
    id_of v.1 ∉ seen1).
  { clear Hseen. induction IH as [|t ts Ht _ IHts]; intros seen1 w.
    - cbn [visitAll fst snd]. intros H. by apply elem_of_nil in H.
    - rewrite visitAll_cons. cbn zeta. cbn [fst snd]. rewrite bind_app, elem_of_app.
      intros [Hw|Hw]; [by eapply Ht|].
      apply IHts in Hw. intros Hin. apply Hw. apply visitTree_seen. by left. }
  intros [->|Hv]%elem_of_cons; [done|].
  apply Hall in Hv. intros Hin. apply Hv. apply elem_of_cons. by right.
Qed.

Lemma visitAll_fresh (ts : list (VisitTree N)) :
  forall c seen v,
    v ∈ (visitAll id_of next ts c (seen, [])).2 ≫= tree_nodes -> id_of v.1 ∉ seen.
Proof.
  induction ts as [|t ts IH]; intros c seen v.
  - cbn [visitAll fst snd]. intros H. by apply elem_of_nil in H.
  - rewrite visitAll_cons. cbn zeta. cbn [fst snd]. rewrite bind_app, elem_of_app.
    intros [Hv|Hv]; [by eapply visitTree_fresh|].
    apply IH in Hv. intros Hin. apply Hv. apply visitTree_seen. by left.
Qed.
(** A tree of visits is a visited node with the visits made from it: the
    walk of the children of the node, with the context the node hands
    down, begun when the node and some other nodes have been seen. *)
Lemma visitAll_subtrees_form (ts : list (VisitTree N)) :
  Forall (fun t => forall c seen vt,
            vt ∈ (visitTree id_of next t c (seen, [])).2 ≫= subtrees ->
            exists n c0 children seen0,
              VNode n children ∈ subtrees t /\ (id_of n ∉ seen0)
              /\ vt = VNode (n, c0)
                        (visitAll id_of next children (next c0 n)
                           (id_of n :: seen0, [])).2) ts ->
  forall c seen vt,
    vt ∈ (visitAll id_of next ts c (seen, [])).2 ≫= subtrees ->
    exists n c0 children seen0,
      VNode n children ∈ ts ≫= subtrees /\ (id_of n ∉ seen0)
      /\ vt = VNode (n, c0)
                (visitAll id_of next children (next c0 n) (id_of n :: seen0, [])).2.
Proof.
  induction 1 as [|t ts Ht _ IH]; intros c seen vt.
  - cbn [visitAll fst snd]. intros H. by apply elem_of_nil in H.
  - rewrite visitAll_cons. cbn zeta. cbn [fst snd]. rewrite bind_app, elem_of_app.
    intros [Hvt|Hvt].
    + destruct (Ht _ _ _ Hvt) as (n & c0 & children & seen0 & Hin & Hfresh & ->).
      exists n, c0, children, seen0. split; [|done].
      cbn [mbind list_bind]. apply elem_of_app. by left.
    + destruct (IH _ _ _ Hvt) as (n & c0 & children & seen0 & Hin & Hfresh & ->).
      exists n, c0, children, seen0. split; [|done].
      cbn [mbind list_bind]. apply elem_of_app. by right.
Qed.

Lemma visitTree_subtrees_form (t : VisitTree N) :
  forall c seen vt,
    vt ∈ (visitTree id_of next t c (seen, [])).2 ≫= subtrees ->
    exists n c0 children seen0,
      VNode n children ∈ subtrees t /\ (id_of n ∉ seen0)
      /\ vt = VNode (n, c0)
                (visitAll id_of next children (next c0 n) (id_of n :: seen0, [])).2.
Proof.
  induction t as [n children IH] using VisitTree_ind.
  intros c seen vt. rewrite visitTree_unfold. cbn [fst snd].
  destruct (bool_decide _) eqn:Hseen; cbn [fst snd];
    [intros H; by apply elem_of_nil in H|].
  apply bool_decide_eq_false in Hseen.
  cbn zeta. cbn [fst snd]. rewrite app_nil_l.
  cbn [mbind list_bind]. rewrite app_nil_r, subtrees_unfold.
  intros [->|Hvt]%elem_of_cons.
  - exists n, c, children, seen. split; [apply subtrees_self|done].
  - destruct (visitAll_subtrees_form children IH _ _ _ Hvt)
      as (m & c0 & ch & seen0 & Hin & Hfresh & ->).
    exists m, c0, ch, seen0. split; [|done].
    rewrite subtrees_unfold. apply elem_of_cons. by right.
Qed.

Lemma visits_subtrees_form (roots : list (VisitTree N)) (c : C)
    (vt : VisitTree (N * C)) :
  vt ∈ visits id_of next roots c ≫= subtrees ->
  exists n c0 children seen0,
    VNode n children ∈ roots ≫= subtrees /\ (id_of n ∉ seen0)
    /\ vt = VNode (n, c0)
              (visitAll id_of next children (next c0 n) (id_of n :: seen0, [])).2.
Proof.
  apply visitAll_subtrees_form. apply List.Forall_forall. intros t _.
  apply visitTree_subtrees_form.
Qed.

(** A property of the context that [next] keeps holds of every visit of
    a walk that begins with it. *)
Section Contexts.
Variable P : C -> Prop.
Hypothesis next_keeps : forall c n, P c -> P (next c n).

Lemma visitTree_contexts (t : VisitTree N) :
  forall c seen v,
    P c -> v ∈ (visitTree id_of next t c (seen, [])).2 ≫= tree_nodes -> P v.2.
Proof.
  induction t as [n children IH] using VisitTree_ind.
  intros c seen v Hc. rewrite visitTree_unfold. cbn [fst snd].
  destruct (bool_decide _); cbn [fst snd]; [intros H; by apply elem_of_nil in H|].
  cbn zeta. cbn [fst snd]. rewrite app_nil_l, nodes_single.
  assert (Hall : forall c' seen1 v,
    P c' ->
    v ∈ (visitAll id_of next children c' (seen1, [])).2 ≫= tree_nodes -> P v.2).
  { induction IH as [|t ts Ht _ IHts]; intros c' seen1 w Hc'.
    - cbn [visitAll fst snd]. intros H. by apply elem_of_nil in H.
    - rewrite visitAll_cons. cbn zeta. cbn [fst snd]. rewrite bind_app, elem_of_app.
      intros [Hw|Hw]; [by eapply Ht|by eapply IHts]. }
  intros [->|Hv]%elem_of_cons; [done|]. eapply Hall; [|exact Hv]. by apply next_keeps.
Qed.

Lemma visitAll_contexts (ts : list (VisitTree N)) :
  forall c seen v,
    P c -> v ∈ (visitAll id_of next ts c (seen, [])).2 ≫= tree_nodes -> P v.2.
Proof.
  induction ts as [|t ts IH]; intros c seen v Hc.
  - cbn [visitAll fst snd]. intros H. by apply elem_of_nil in H.
  - rewrite visitAll_cons. cbn zeta. cbn [fst snd]. rewrite bind_app, elem_of_app.
    intros [Hv|Hv]; [by eapply visitTree_contexts|by eapply IH].
Qed.
End Contexts.
End VisitFacts.

(** The walk of a traversal whose hooks hand the context down by [next]
    and never skip children visits the nodes of [visitTree], in order.
    Along the way the state advances in the preorder [R] and stays within
    [I]; what [enter] and [exit] establish at a node, [He] and [Hx], holds
    at the end when it is kept along [R]. A throw comes from a hook at
    one of these nodes. *)
Section WalkVisits.
Import MutableBundleGraph Properties.
Context {N C S : Type}.
Variable id_of : N -> string.
Variable enter : N -> C -> S -> JS.Result (Visit C S).
Variable exit : N -> C -> S -> JS.Result S.
Variable next : C -> N -> C.
Variable V : N * C -> Prop.
Variable I : S -> Prop.
Variable R : S -> S -> Prop.
Variables He Hx : N -> C -> S -> Prop.

Hypothesis R_refl : forall s, R s s.
Hypothesis R_trans : forall s1 s2 s3, R s1 s2 -> R s2 s3 -> R s1 s3.
Hypothesis enter_law : forall n c s v,
  enter n c s = JS.Ok v ->
  visit_skipChildren v = false /\ default c (visit_context v) = next c n.
Hypothesis enter_step : forall n c s v,
  V (n, c) -> I s -> enter n c s = JS.Ok v ->
  I (visit_state v) /\ R s (visit_state v) /\ He n c (visit_state v).
Hypothesis exit_step : forall n c s s',
  V (n, c) -> I s -> exit n (next c n) s = JS.Ok s' ->
  I s' /\ R s s' /\ Hx n c s'.
Hypothesis He_kept : forall n c s s', He n c s -> R s s' -> He n c s'.
Hypothesis Hx_kept : forall n c s s', Hx n c s -> R s s' -> Hx n c s'.

Lemma walk_all_walked (ts : list (VisitTree N)) :
  Forall (fun t => forall c seen s,
            (forall v, v ∈ (visitTree id_of next t c (seen, [])).2 ≫= tree_nodes -> V v) ->
            I s ->
            walked enter exit next I R He Hx s (visitTree id_of next t c (seen, []))
                   (walk id_of enter exit t c (seen, s))) ts ->
  forall c seen s,
    (forall v, v ∈ (visitAll id_of next ts c (seen, [])).2 ≫= tree_nodes -> V v) ->
    I s ->
    walked enter exit next I R He Hx s (visitAll id_of next ts c (seen, []))
           (walk_all id_of enter exit ts c (seen, s)).
Proof.
  induction 1 as [|t ts Ht _ IH]; intros c seen s HV Hs.
  { simpl. split; [done|]. split; [done|]. split; [apply R_refl|].
    intros v Hv. by apply elem_of_nil in Hv. }
  rewrite visitAll_cons in HV |- *. cbn [walk_all]. simpl in HV |- *.
  specialize (Ht c seen s).
  destruct (visitTree id_of next t c (seen, [])) as [seen1 F1] eqn:Hvt. simpl in *.
  assert (HV1 : forall v, v ∈ F1 ≫= tree_nodes -> V v).
  { intros v Hv. apply HV. rewrite bind_app. apply elem_of_app. by left. }
  specialize (Ht HV1 Hs).
  destruct (walk id_of enter exit t c (seen, s)) as [[seen1' s1]|e]; simpl in *.
  - destruct Ht as (-> & Hs1 & HR1 & Hdone1).
    specialize (IH c seen1 s1).
    destruct (visitAll id_of next ts c (seen1, [])) as [seen2 F2] eqn:Hva. simpl in *.
    assert (HV2 : forall v, v ∈ F2 ≫= tree_nodes -> V v).
    { intros v Hv. apply HV. rewrite bind_app. apply elem_of_app. by right. }
    specialize (IH HV2 Hs1).
    destruct (walk_all id_of enter exit ts c (seen1, s1)) as [[seen2' s2]|e]; simpl in *.
    + destruct IH as (-> & Hs2 & HR2 & Hdone2).
      split; [done|]. split; [done|]. split; [by eapply R_trans|].
      intros v. rewrite bind_app, elem_of_app. intros [Hv|Hv]; [|by apply Hdone2].
      destruct (Hdone1 v Hv) as [H1 H2]. split; [by eapply He_kept|by eapply Hx_kept].
    + destruct IH as (n & c0 & s0 & Hin & Hs0 & HR0 & Hthrow).
      exists n, c0, s0. split; [rewrite bind_app; apply elem_of_app; by right|].
      split; [done|]. split; [by eapply R_trans|done].
  - destruct Ht as (n & c0 & s0 & Hin & Hs0 & HR0 & Hthrow).
    exists n, c0, s0. split; [rewrite bind_app; apply elem_of_app; by left|].
    done.
Qed.

Lemma walk_walked (t : VisitTree N) :
  forall c seen s,
    (forall v, v ∈ (visitTree id_of next t c (seen, [])).2 ≫= tree_nodes -> V v) ->
    I s ->
    walked enter exit next I R He Hx s (visitTree id_of next t c (seen, []))
           (walk id_of enter exit t c (seen, s)).
Proof.
  induction t as [n children IH] using VisitTree_ind.
  intros c seen s. rewrite walk_unfold, visitTree_unfold. cbn [fst snd].
  destruct (bool_decide _).
  { intros _ Hs. unfold walked. cbn [fst snd]. split; [done|]. split; [done|].
    split; [apply R_refl|]. intros v Hv. by apply elem_of_nil in Hv. }
  cbn zeta. cbn [fst snd]. rewrite app_nil_l.
  pose proof (walk_all_walked children IH (next c n) (id_of n :: seen)) as Hkids.
  destruct (visitAll id_of next children (next c n) (id_of n :: seen, []))
    as [seen2 F2] eqn:Hva.
  unfold walked in *. cbn [fst snd] in *. rewrite nodes_single.
  intros HV Hs.
  assert (Hroot : V (n, c)) by (apply HV, elem_of_cons; by left).
  assert (HV2 : forall w, w ∈ F2 ≫= tree_nodes -> V w).
  { intros w Hw. apply HV, elem_of_cons. by right. }
  destruct (enter n c s) as [v|e] eqn:Hv; cycle 1.
  { exists n, c, s. split; [apply elem_of_cons; by left|].
    split; [done|]. split; [apply R_refl|by left]. }
  destruct (enter_law _ _ _ _ Hv) as [Hskip Hctx].
  destruct (enter_step _ _ _ _ Hroot Hs Hv) as (Hs1 & HR1 & Hent).
  cbn [mbind Result_bind JS.bind]. rewrite Hskip, Hctx.
  specialize (Hkids (visit_state v) HV2 Hs1).
  destruct (walk_all id_of enter exit children (next c n) _) as [[seen2' s2]|e];
    cbn [mbind Result_bind JS.bind fst snd] in *; cycle 1.
  { destruct Hkids as (m & c0 & s0 & Hin & Hs0 & HR0 & Hthrow).
    exists m, c0, s0. split; [apply elem_of_cons; by right|].
    split; [done|]. split; [by eapply R_trans|done]. }
  destruct Hkids as (-> & Hs2 & HR2 & Hdone).
  destruct (exit n (next c n) s2) as [s3|e] eqn:Hx3;
    cbn [mbind Result_bind JS.bind fst snd]; cycle 1.
  { exists n, c, s2. split; [apply elem_of_cons; by left|].
    split; [done|]. split; [by eapply R_trans|by right]. }
  destruct (exit_step _ _ _ _ Hroot Hs2 Hx3) as (Hs3 & HR3 & Hex).
  split; [done|]. split; [done|].
  split; [eapply R_trans; [exact HR1|]; by eapply R_trans|].
  intros w [->|Hw]%elem_of_cons.
  - cbn [fst snd]. split; [|done]. eapply He_kept; [exact Hent|]. by eapply R_trans.
  - destruct (Hdone w Hw) as [H1 H2]. split; [by eapply He_kept|by eapply Hx_kept].
Qed.

Lemma traverse_walked (roots : list (VisitTree N)) (c : C) (s : S) :
  (forall v, v ∈ visits id_of next roots c ≫= tree_nodes -> V v) ->
  I s ->
  match traverse id_of enter exit roots c s with
  | JS.Ok s' =>
      I s' /\ R s s'
      /\ forall v, v ∈ visits id_of next roots c ≫= tree_nodes ->
                   He v.1 v.2 s' /\ Hx v.1 v.2 s'
  | JS.Throw e =>
      exists n c0 s0,
        (n, c0) ∈ visits id_of next roots c ≫= tree_nodes /\ I s0 /\ R s s0
        /\ (enter n c0 s0 = JS.Throw e \/ exit n (next c0 n) s0 = JS.Throw e)
  end.
Proof.
  intros HV Hs. unfold traverse, visits in *.
  pose proof (walk_all_walked roots
                ltac:(apply List.Forall_forall; intros t _; apply walk_walked)
                c [] s HV Hs) as H.
  destruct (walk_all id_of enter exit roots c ([], s)) as [[seen' s']|e]; simpl in *.
  - by destruct H as (_ & H).
  - done.
Qed.
End WalkVisits.

(* ===================================================================== *)
(** * OptimizingBundler: the order of the shared-bundle candidates        *)
(* ===================================================================== *)

Section CandidateOrder.
Import MutableBundleGraph OptimizeBundler Properties.

(** C4, as the code has it. The candidates are processed in descending
    order of accumulated size; the sort compares sizes only, so
    candidates of one size keep the order in which the traversal first
    keyed them (the insertion order of [candidateBundles]), whatever their
    key strings are. The order is a function of the collected map. *)
Theorem sortedCandidates_by_size_stable (candidateBundles : list (string * Candidate)) :
  let kept :=
    List.filter (fun c => minBundleSize <=? size c) (JS.map_values candidateBundles) in
  Permutation (sortedCandidates candidateBundles) kept
  /\ StronglySorted (fun a b => size b <= size a) (sortedCandidates candidateBundles)
  /\ forall s : Z,
       List.filter (fun c => size c =? s) (sortedCandidates candidateBundles)
       = List.filter (fun c => size c =? s) kept.
Proof.
  unfold sortedCandidates. repeat split.
  - apply sort_Permutation.
  - apply (sort_descending size).
  - intros s. apply (sort_stable size).
Qed.

End CandidateOrder.

(** C4 as stated fails: three candidates of one size are processed in the
    order of their first appearance, [c:d], [a:b], [e:f], which is neither
    the ascending nor the descending order of the key strings. *)
Lemma sortedCandidates_ties_ignore_key :
  exists candidateBundles,
    OptimizeBundler.collectCandidates Examples.three_shared_host Examples.three_shared
      = JS.Ok candidateBundles
    /\ Properties.keyOf <$> OptimizeBundler.sortedCandidates candidateBundles
       = ["c:d"; "a:b"; "e:f"]
    /\ ~ Properties.by_size_then_key String.leb
          (OptimizeBundler.sortedCandidates candidateBundles)
    /\ ~ Properties.by_size_then_key (fun k1 k2 => String.leb k2 k1)
          (OptimizeBundler.sortedCandidates candidateBundles).
Proof.
  eexists. split; [vm_compute; reflexivity|].
  split; [vm_compute; reflexivity|].
  split.
  - intros H. apply StronglySorted_inv in H as [_ H].
    apply Forall_cons_1 in H as [[H|[_ H]] _].
    + vm_compute in H. discriminate H.
    + vm_compute in H. discriminate H.
  - intros H. apply StronglySorted_inv in H as [H _].
    apply StronglySorted_inv in H as [_ H].
    apply Forall_cons_1 in H as [[H|[_ H]] _].
    + vm_compute in H. discriminate H.
    + vm_compute in H. discriminate H.
Qed.

(* ===================================================================== *)
(** * Sets of bundles and of bundle groups                                *)
(* ===================================================================== *)

Section SetFacts.
Import MutableBundleGraph.

Lemma filter_elem_of {A : Type} (p : A -> bool) (l : list A) (x : A) :
  x ∈ List.filter p l <-> x ∈ l /\ p x = true.
Proof. rewrite !list_elem_of_In. apply filter_In. Qed.

Lemma has_bundle_true (b : Bundle) (l : list Bundle) :
  has_bundle b l = true <-> bundle_id b ∈ bundle_id <$> l.
Proof. unfold has_bundle. by rewrite bool_decide_eq_true. Qed.

Lemma has_group_true (bg : BundleGroup) (l : list BundleGroup) :
  has_group bg l = true <-> bg_id bg ∈ bg_id <$> l.
Proof. unfold has_group. by rewrite bool_decide_eq_true. Qed.

Lemma set_add_bundle_length (l : list Bundle) (b : Bundle) :
  (length l <= length (set_add_bundle l b) <= S (length l))%nat.
Proof.
  unfold set_add_bundle. destruct (has_bundle b l); [lia|].
  rewrite length_app. simpl. lia.
Qed.

Lemma set_add_bundle_again (l : list Bundle) (b : Bundle) :
  set_add_bundle (set_add_bundle l b) b = set_add_bundle l b.
Proof.
  unfold set_add_bundle. destruct (has_bundle b l) eqn:Hb.
  - by rewrite Hb.
  - assert (has_bundle b (l ++ [b])%list = true) as ->; [|done].
    apply has_bundle_true. rewrite fmap_app. set_solver.
Qed.

Lemma set_add_bundle_NoDup (l : list Bundle) (b : Bundle) :
  NoDup (bundle_id <$> l) -> NoDup (bundle_id <$> set_add_bundle l b).
Proof.
  intros Hl. unfold set_add_bundle. destruct (has_bundle b l) eqn:Hb; [done|].
  rewrite fmap_app. apply NoDup_app. split; [done|]. split.
  - intros x Hx Hin. simpl in Hin. apply list_elem_of_singleton in Hin as ->.
    apply has_bundle_true in Hx. congruence.
  - simpl. apply NoDup_singleton.
Qed.

Lemma set_add_bundle_Forall (P : Bundle -> Prop) (l : list Bundle) (b : Bundle) :
  Forall P l -> P b -> Forall P (set_add_bundle l b).
Proof.
  intros Hl Hb. unfold set_add_bundle. destruct (has_bundle b l); [done|].
  apply Forall_app. by repeat constructor.
Qed.

Lemma foldl_set_add_bundle_length (l acc : list Bundle) :
  (length acc <= length (foldl set_add_bundle acc l))%nat.
Proof.
  revert acc. induction l as [|b l IH]; intros acc; simpl; [lia|].
  etrans; [|apply IH]. apply set_add_bundle_length.
Qed.

Lemma foldl_set_add_bundle_NoDup (l acc : list Bundle) :
  NoDup (bundle_id <$> acc) -> NoDup (bundle_id <$> foldl set_add_bundle acc l).
Proof.
  revert acc. induction l as [|b l IH]; intros acc Hacc; simpl; [done|].
  by apply IH, set_add_bundle_NoDup.
Qed.

Lemma foldl_set_add_bundle_Forall (P : Bundle -> Prop) (l acc : list Bundle) :
  Forall P acc -> Forall P l -> Forall P (foldl set_add_bundle acc l).
Proof.
  revert acc. induction l as [|b l IH]; intros acc Hacc Hl; simpl; [done|].
  apply Forall_cons_1 in Hl as [Hb Hl].
  by apply IH; [apply set_add_bundle_Forall|].
Qed.

(** Bundles of distinct ids are all added. *)
Lemma foldl_set_add_bundle_distinct (l acc : list Bundle) :
  NoDup (bundle_id <$> (acc ++ l)%list) -> foldl set_add_bundle acc l = (acc ++ l)%list.
Proof.
  revert acc. induction l as [|b l IH]; intros acc Hnd; simpl.
  - by rewrite app_nil_r.
  - assert (has_bundle b acc = false) as Hb.
    { apply not_true_is_false. rewrite has_bundle_true. intros Hin.
      rewrite fmap_app in Hnd. apply NoDup_app in Hnd as (_ & Hnd & _).
      apply (Hnd _ Hin). simpl. set_solver. }
    unfold set_add_bundle at 2. rewrite Hb.
    rewrite IH; rewrite <- app_assoc; done.
Qed.

Lemma filter_fmap_NoDup {A : Type} (f : A -> string) (p : A -> bool) (l : list A) :
  NoDup (f <$> l) -> NoDup (f <$> List.filter p l).
Proof.
  induction l as [|x l IH]; simpl; [done|].
  intros [Hx Hl]%NoDup_cons. destruct (p x); [|by apply IH].
  simpl. apply NoDup_cons. split; [|by apply IH].
  intros Hin. apply Hx.
  apply list_elem_of_fmap in Hin as (y & -> & Hy).
  apply list_elem_of_fmap. exists y. split; [done|].
  apply list_elem_of_In in Hy. apply filter_In in Hy as [Hy _].
  by apply list_elem_of_In.
Qed.

Lemma set_add_group_ids (l : list BundleGroup) (bg x : BundleGroup) :
  bg_id x ∈ bg_id <$> set_add_group l bg
  <-> bg_id x ∈ bg_id <$> l \/ bg_id x = bg_id bg.
Proof.
  unfold set_add_group. destruct (has_group bg l) eqn:Hg.
  - apply has_group_true in Hg. split; [auto|]. intros [H| ->]; done.
  - rewrite fmap_app. simpl. set_solver.
Qed.

Lemma foldl_set_add_group_ids (l acc : list BundleGroup) (x : BundleGroup) :
  bg_id x ∈ bg_id <$> foldl set_add_group acc l
  <-> bg_id x ∈ bg_id <$> acc \/ bg_id x ∈ bg_id <$> l.
Proof.
  revert acc. induction l as [|bg l IH]; intros acc; simpl.
  - set_solver.
  - rewrite IH, set_add_group_ids. set_solver.
Qed.
Lemma set_add_bundle_ids (l : list Bundle) (b : Bundle) (id : string) :
  id ∈ bundle_id <$> set_add_bundle l b <-> id ∈ bundle_id <$> l \/ id = bundle_id b.
Proof.
  unfold set_add_bundle. destruct (has_bundle b l) eqn:Hb.
  - apply has_bundle_true in Hb. split; [by left|]. by intros [?| ->].
  - rewrite fmap_app, elem_of_app. simpl. by rewrite list_elem_of_singleton.
Qed.

Lemma set_add_bundle_elem (l : list Bundle) (b x : Bundle) :
  x ∈ set_add_bundle l b -> x ∈ l \/ x = b.
Proof.
  unfold set_add_bundle. destruct (has_bundle b l); [by left|].
  rewrite elem_of_app, list_elem_of_singleton. tauto.
Qed.

Lemma foldl_set_add_bundle_ids (l acc : list Bundle) (id : string) :
  id ∈ bundle_id <$> foldl set_add_bundle acc l
  <-> id ∈ bundle_id <$> acc \/ id ∈ bundle_id <$> l.
Proof.
  revert acc. induction l as [|b l IH]; intros acc; simpl.
  - split; [by left|]. intros [H|H]; [done|by apply elem_of_nil in H].
  - rewrite IH, set_add_bundle_ids, elem_of_cons. tauto.
Qed.

Lemma foldl_set_add_bundle_elem (l acc : list Bundle) (x : Bundle) :
  x ∈ foldl set_add_bundle acc l -> x ∈ acc \/ x ∈ l.
Proof.
  revert acc. induction l as [|b l IH]; intros acc; simpl; [by left|].
  intros [[Hx| ->]%set_add_bundle_elem|Hx]%IH.
  - by left.
  - right. apply elem_of_cons. by left.
  - right. apply elem_of_cons. by right.
Qed.

End SetFacts.

(* ===================================================================== *)
(** * OptimizingBundler: the candidates of shared-bundle extraction       *)
(* ===================================================================== *)

Section Numbers.

Lemma to_number_exact (z : Z) : z < 2 ^ 53 -> JS.to_number z = z.
Proof. intros Hz. unfold JS.to_number. by destruct (Z.ltb_spec z (2 ^ 53)); [|lia]. Qed.

Lemma number_add_exact (x y : Z) : x + y < 2 ^ 53 -> JS.number_add x y = x + y.
Proof. apply to_number_exact. Qed.

(** From 2^53 on a sum is rounded to the nearest number that has 53
    significant bits, a tie to the even one; from 2^1024 on it is
    [Infinity]. *)
Example number_add_rounds :
  JS.number_add (2 ^ 53) 1 = 2 ^ 53
  /\ JS.number_add (2 ^ 53) 3 = 2 ^ 53 + 4
  /\ JS.number_add (2 ^ 53 + 2) 1 = 2 ^ 53 + 4
  /\ JS.number_add (2 ^ 54) 5 = 2 ^ 54 + 4
  /\ JS.number_add (2 ^ 1023) (2 ^ 1023) = JS.infinity.
Proof. repeat split; vm_compute; reflexivity. Qed.
End Numbers.

Section Candidates.
Import MutableBundleGraph OptimizeBundler Properties.
Context (host : Host) (md5FromString : string -> string).

Lemma isSourceBundle_flags (asset : Asset) (l : list Bundle) :
  Forall (fun b => bundle_isEntry b = false /\ bundle_isSplittable b = true)
         (List.filter (isSourceBundle asset) l).
Proof.
  apply List.Forall_forall. intros b [_ Hb]%filter_In.
  unfold isSourceBundle in Hb.
  apply andb_prop in Hb as [[He Hs]%andb_prop _].
  by apply negb_true_iff in He.
Qed.

(** [createBundle] keeps the ids of the graph's bundles distinct. *)
Lemma createBundle_distinct (g : BundleGraph) (o : BundleOpts) :
  distinct_bundles g -> distinct_bundles (createBundle host g o).2.
Proof.
  unfold distinct_bundles, createBundle. simpl. intros Hg.
  rewrite fmap_app. apply NoDup_app. split; [by apply filter_fmap_NoDup|].
  split; [|apply NoDup_singleton].
  intros id (b & Hid & Hb)%list_elem_of_fmap Hnew%list_elem_of_singleton.
  apply list_elem_of_In, filter_In in Hb as [_ Hb].
  apply negb_true_iff, String.eqb_neq in Hb. simpl in *. congruence.
Qed.

Lemma distinct_bundles_inj (g : BundleGraph) (b c : Bundle) :
  distinct_bundles g -> b ∈ bundles g -> c ∈ bundles g ->
  bundle_id b = bundle_id c -> b = c.
Proof.
  unfold distinct_bundles. induction (bundles g) as [|x l IH]; simpl.
  { intros _ Hb. by apply elem_of_nil in Hb. }
  intros [Hx Hl]%NoDup_cons [->|Hb]%elem_of_cons [->|Hc]%elem_of_cons Hid.
  - done.
  - exfalso. apply Hx. rewrite Hid. by apply list_elem_of_fmap_2.
  - exfalso. apply Hx. rewrite <- Hid. by apply list_elem_of_fmap_2.
  - by apply IH.
Qed.

Lemma containingBundles_distinct (g : BundleGraph) (asset : Asset) :
  distinct_bundles g ->
  NoDup (bundle_id <$> List.filter (isSourceBundle asset) (findBundlesWithAsset g asset)).
Proof.
  intros Hg. unfold findBundlesWithAsset. by do 2 apply filter_fmap_NoDup.
Qed.

(** The filter of the collecting visitor, said of one bundle. *)
Lemma source_of_containing (g : BundleGraph) (a : Asset) (b : Bundle) :
  b ∈ containingBundlesOf g a <-> source_of g a b.
Proof.
  unfold containingBundlesOf, findBundlesWithAsset, source_of, isSourceBundle.
  rewrite !filter_elem_of, !andb_true_iff, negb_true_iff. split.
  - intros [[Hb Ha] [[He Hs] Hm]]. repeat (split; [done|]).
    intros m Hmain. rewrite Hmain in Hm. by apply negb_true_iff, String.eqb_neq in Hm.
  - intros (Hb & Ha & He & Hs & Hm). repeat (split; [done|]).
    destruct (getMainEntry b) as [m|]; [|done].
    apply negb_true_iff, String.eqb_neq. by apply Hm.
Qed.

Lemma totalSizeOf_snoc (g : BundleGraph) (l : list Asset) (a : Asset) :
  totalSizeOf g (l ++ [a])
  = totalSizeOf g l + Z.of_N (ag_totalSize (assetGraph g) (asset_id a)).
Proof.
  unfold totalSizeOf. induction l as [|x l IH]; simpl; [lia|]. rewrite IH. lia.
Qed.

Lemma totalSizeOf_nonneg (g : BundleGraph) (l : list Asset) : 0 <= totalSizeOf g l.
Proof. unfold totalSizeOf. induction l as [|x l IH]; simpl; lia. Qed.

Lemma getTotalSize_exact (g : BundleGraph) (a : Asset) :
  Z.of_N (ag_totalSize (assetGraph g) (asset_id a)) < 2 ^ 53 ->
  getTotalSize g a = Z.of_N (ag_totalSize (assetGraph g) (asset_id a)).
Proof. apply to_number_exact. Qed.

Lemma accumulatedSize_snoc (g : BundleGraph) (l : list Asset) (a : Asset) :
  l <> [] ->
  accumulatedSize g (l ++ [a]) = JS.number_add (accumulatedSize g l) (getTotalSize g a).
Proof. destruct l as [|x l]; [done|]. intros _. simpl. by rewrite foldl_app. Qed.

(** Below 2^53 the additions are exact. *)
Lemma accumulatedSize_exact (g : BundleGraph) (l : list Asset) :
  totalSizeOf g l < 2 ^ 53 -> accumulatedSize g l = totalSizeOf g l.
Proof.
  induction l as [|a l IH] using rev_ind; [done|].
  rewrite totalSizeOf_snoc. intros Hsum.
  pose proof (totalSizeOf_nonneg g l) as Hl.
  pose proof (N2Z.is_nonneg (ag_totalSize (assetGraph g) (asset_id a))) as Ha.
  destruct (decide (l = [])) as [->|Hne].
  - simpl. rewrite getTotalSize_exact by lia. unfold totalSizeOf. simpl. lia.
  - rewrite accumulatedSize_snoc by done. rewrite IH by lia.
    rewrite getTotalSize_exact by lia. apply number_add_exact. lia.
Qed.

(** What the collecting visitor keeps of every entry of the map. *)
Lemma collectVisitor_accumulated (g : BundleGraph) (node : Node) (u : unit)
    (candidateBundles : list (string * Candidate))
    (v : Visit unit (list (string * Candidate))) :
  NoDup candidateBundles.*1 /\ Forall (accumulated g) candidateBundles ->
  collectVisitor g node u candidateBundles = JS.Ok v ->
  NoDup (visit_state v).*1 /\ Forall (accumulated g) (visit_state v).
Proof.
  intros [Hnd Hall]. destruct node as [asset|d]; simpl; [|by intros [= <-]].
  fold (containingBundlesOf g asset).
  destruct (Nat.ltb_spec minBundles (length (containingBundlesOf g asset))) as [Hlen|Hlen];
    [|by intros [= <-]].
  intros [= <-]. simpl.
  destruct (JS.map_get _ candidateBundles) as [candidate|] eqn:Hget.
  - split; [by apply map_set_keys_NoDup|].
    apply map_set_entries; [done|].
    apply map_get_elem in Hget. rewrite List.Forall_forall in Hall.
    apply list_elem_of_In in Hget.
    destruct (Hall _ Hget) as (H1 & H2 & H2' & H3 & H4 & H5 & H6).
    unfold accumulated. cbn [fst snd assets sourceBundles size] in *.
    assert (Hsize : JS.number_add (size candidate) (getTotalSize g asset)
                    = accumulatedSize g (assets candidate ++ [asset])).
    { rewrite accumulatedSize_snoc by done. by rewrite H2. }
    split; [by destruct (assets candidate)|]. split; [exact Hsize|].
    split; [|split; [|split; [|split]]].
    + intros Hsum. rewrite Hsize. by apply accumulatedSize_exact.
    + intros a [Ha| ->%list_elem_of_singleton]%elem_of_app; [by apply H3|done].
    + intros id. rewrite foldl_set_add_bundle_ids, H4. split.
      * intros [(a & Ha & Hid)|Hid].
        -- exists a. split; [apply elem_of_app; by left|done].
        -- exists asset. split; [apply elem_of_app; right; by apply list_elem_of_singleton|done].
      * intros (a & [Ha| ->%list_elem_of_singleton]%elem_of_app & Hid);
          [left; by exists a|by right].
    + by apply foldl_set_add_bundle_NoDup.
    + intros b [Hb|Hb]%foldl_set_add_bundle_elem.
      * destruct (H6 b Hb) as (a & Ha & Hsrc). exists a.
        split; [apply elem_of_app; by left|done].
      * exists asset. split; [apply elem_of_app; right; by apply list_elem_of_singleton|].
        by apply source_of_containing.
  - split; [by apply map_set_keys_NoDup|].
    apply map_set_entries; [done|].
    unfold accumulated. cbn [fst snd assets sourceBundles size].
    split; [done|]. split; [done|]. split; [|split; [|split; [|split]]].
    + intros Hsum. by apply (accumulatedSize_exact g [asset]).
    + by intros a ->%list_elem_of_singleton.
    + intros id. rewrite foldl_set_add_bundle_ids. split.
      * intros [H|Hid]; [by apply elem_of_nil in H|].
        exists asset. split; [by apply list_elem_of_singleton|done].
      * intros (a & ->%list_elem_of_singleton & Hid). by right.
    + apply foldl_set_add_bundle_NoDup. constructor.
    + intros b [Hb|Hb]%foldl_set_add_bundle_elem; [by apply elem_of_nil in Hb|].
      exists asset. split; [by apply list_elem_of_singleton|].
      by apply source_of_containing.
Qed.

Lemma collectCandidates_total (g : BundleGraph) :
  exists candidateBundles, collectCandidates host g = JS.Ok candidateBundles.
Proof.
  apply traverse_total.
  - intros [asset|d] c s; simpl; [|eauto].
    destruct (_ <? _)%nat; eauto.
  - intros n c s. by exists s.
Qed.

Lemma collectCandidates_accumulated (g : BundleGraph)
    (candidateBundles : list (string * Candidate)) :
  collectCandidates host g = JS.Ok candidateBundles ->
  NoDup candidateBundles.*1 /\ Forall (accumulated g) candidateBundles.
Proof.
  intros Hc. unfold collectCandidates in Hc.
  eapply (traverse_preserves _ _ _
            (fun m => NoDup m.*1 /\ Forall (accumulated g) m));
    [| | |exact Hc].
  - intros n c s v Hs Hv. eapply collectVisitor_accumulated; eauto.
  - by intros n c s s' Hs [= <-].
  - split; constructor.
Qed.

(** An entry of the map, when it is large enough, meets the thresholds. *)
Lemma accumulated_meets_thresholds (g : BundleGraph) (e : string * Candidate) :
  distinct_bundles g -> accumulated g e -> minBundleSize <= size e.2 ->
  meets_thresholds g e.2.
Proof.
  intros Hg (Hne & Hacc & _ & Hassets & Hids & Hnd & Hsrc) Hsize.
  assert (Hper : forall a, a ∈ assets e.2 ->
            forall b, b ∈ containingBundlesOf g a ->
                      b ∈ sourceBundles e.2 /\ source_of g a b).
  { intros a Ha b Hb. split; [|by apply source_of_containing].
    assert (bundle_id b ∈ bundle_id <$> sourceBundles e.2) as Hid.
    { apply Hids. exists a. split; [done|]. by apply list_elem_of_fmap_2. }
    apply list_elem_of_fmap in Hid as (b' & Hid & Hb').
    destruct (Hsrc b' Hb') as (a' & _ & Hb'g & _).
    apply source_of_containing in Hb as (Hbg & _).
    by rewrite (distinct_bundles_inj g b b' Hg Hbg Hb'g Hid). }
  split; [done|]. split; [done|]. split; [|split; [done|split; [done|split; [done|]]]].
  - destruct (assets e.2) as [|a l] eqn:Ha; [done|].
    destruct (Hassets a ltac:(apply elem_of_cons; by left)) as [Hlen _].
    eapply Nat.lt_le_trans; [exact Hlen|].
    rewrite <- (length_fmap bundle_id (containingBundlesOf g a)),
            <- (length_fmap bundle_id (sourceBundles e.2)).
    apply submseteq_length, NoDup_submseteq; [by apply containingBundles_distinct|].
    intros id (b & -> & Hb)%list_elem_of_fmap. apply list_elem_of_fmap_2.
    apply (Hper a); [apply elem_of_cons; by left|done].
  - intros a Ha. exists (containingBundlesOf g a).
    split; [by apply Hassets|]. split; [by apply containingBundles_distinct|].
    by apply Hper.
Qed.

(** C3. In a graph whose bundles have distinct ids the candidates are
    collected without error, and the extraction loop is run on the
    candidates that pass the size filter, in sorted order. Every one of
    them, hence every shared bundle the loop creates, has as its size the
    accumulated size of its assets, which is at least [minBundleSize],
    and has more than [minBundles] source bundles of distinct ids. Each source bundle is a bundle of the graph
    that holds an asset of the candidate, is no entry bundle, is
    splittable and does not have that asset as its main entry; and every
    asset of the candidate has more than [minBundles] such source
    bundles. *)
Theorem shared_bundles_meet_thresholds (g : BundleGraph) :
  distinct_bundles g ->
  exists candidateBundles,
    collectCandidates host g = JS.Ok candidateBundles
    /\ extractStep host md5FromString g
       = extractAll host md5FromString g (sortedCandidates candidateBundles)
    /\ Forall (meets_thresholds g) (sortedCandidates candidateBundles).
Proof.
  intros Hg. destruct (collectCandidates_total g) as [cands Hc].
  exists cands. split; [done|]. split.
  { unfold extractStep. by rewrite Hc. }
  destruct (collectCandidates_accumulated g cands Hc) as [_ Hall].
  unfold sortedCandidates.
  eapply Permutation_Forall; [symmetry; apply sort_Permutation|].
  apply List.Forall_forall. intros c [Hin Hsize]%filter_In.
  unfold JS.map_values in Hin.
  apply list_elem_of_In, list_elem_of_fmap in Hin as ([k c'] & -> & Hin).
  rewrite List.Forall_forall in Hall. apply list_elem_of_In in Hin.
  apply (accumulated_meets_thresholds g (k, c') Hg (Hall _ Hin)).
  by apply Z.leb_le.
Qed.

Lemma connectedBundleGroups_ids (g : BundleGraph) (bs : list Bundle)
    (b : Bundle) (bg : BundleGroup) :
  b ∈ bs -> bg ∈ getBundleGroupsContainingBundle g b ->
  bg_id bg ∈ bg_id <$> connectedBundleGroups g bs.
Proof.
  intros Hb Hbg. unfold connectedBundleGroups.
  assert (Hgen : forall acc,
    bg_id bg ∈ bg_id <$> acc \/ b ∈ bs ->
    bg_id bg ∈ bg_id <$>
      foldl (fun bundleGroups bundle =>
               foldl set_add_group bundleGroups (getBundleGroupsContainingBundle g bundle))
            acc bs).
  { clear Hb. induction bs as [|b' bs IH]; intros acc [Hacc|Hin]; simpl.
    - done.
    - by apply elem_of_nil in Hin.
    - apply IH. left. apply foldl_set_add_group_ids. by left.
    - apply IH. apply elem_of_cons in Hin as [<-|Hin]; [left|by right].
      apply foldl_set_add_group_ids. right. by apply list_elem_of_fmap_2. }
  apply Hgen. by right.
Qed.

Lemma overLimit_true (g : BundleGraph) (l : list BundleGroup) (bg : BundleGroup) :
  bg_id bg ∈ bg_id <$> l ->
  (maxParallelRequests <= length (getBundlesInBundleGroup g bg))%nat ->
  overLimit g l = true.
Proof.
  intros Hin Hlen. unfold overLimit. apply existsb_exists.
  apply list_elem_of_fmap in Hin as (bg' & Hid & Hin').
  exists bg'. split; [by apply list_elem_of_In|].
  apply Nat.leb_le. unfold getBundlesInBundleGroup in *. by rewrite <- Hid.
Qed.

(** C5. A candidate one of whose source bundles is in a bundle group that
    holds [maxParallelRequests] bundles or more when the candidate is
    considered is skipped: the iteration returns without error and leaves
    the bundle graph as it was, so no bundle is created, no asset graph
    moved and no membership changed. *)
Theorem extractCandidate_over_limit_skips (g : BundleGraph) (c : Candidate)
    (b : Bundle) (bg : BundleGroup) :
  b ∈ sourceBundles c ->
  bg ∈ getBundleGroupsContainingBundle g b ->
  (maxParallelRequests <= length (getBundlesInBundleGroup g bg))%nat ->
  extractCandidate host md5FromString g c = JS.Ok g.
Proof.
  intros Hb Hbg Hlen. unfold extractCandidate.
  by rewrite (overLimit_true g _ bg (connectedBundleGroups_ids g _ b bg Hb Hbg) Hlen).
Qed.
End Candidates.

(* ===================================================================== *)
(** * Which mutations change the membership relation                      *)
(* ===================================================================== *)

Section Membership.
Import MutableBundleGraph OptimizeBundler Properties.
Context (host : Host) (md5FromString : string -> string).

Lemma getBundlesInBundleGroup_members (g : BundleGraph) (bg : BundleGroup) :
  getBundlesInBundleGroup g bg = members g (bg_id bg).
Proof. done. Qed.

Lemma members_same (g g' : BundleGraph) (id : string) :
  groupMembers g' = groupMembers g -> members g' id = members g id.
Proof. unfold members. by intros ->. Qed.

Lemma members_add_eq (g : BundleGraph) (b : Bundle) (bg : BundleGroup) :
  members (addBundleToBundleGroup g b bg) (bg_id bg)
  = set_add_bundle (members g (bg_id bg)) b.
Proof. unfold members, addBundleToBundleGroup. simpl. by rewrite lookup_insert_eq. Qed.

Lemma members_add_ne (g : BundleGraph) (b : Bundle) (bg : BundleGroup) (id : string) :
  id <> bg_id bg -> members (addBundleToBundleGroup g b bg) id = members g id.
Proof.
  intros Hne. unfold members, addBundleToBundleGroup. simpl.
  by rewrite lookup_insert_ne.
Qed.

Lemma deduplicateAssets_members (bundle : Bundle) (assets : list Asset) (g : BundleGraph) :
  groupMembers (deduplicateAssets bundle g assets) = groupMembers g.
Proof.
  unfold deduplicateAssets. revert g.
  induction assets as [|a l IH]; intros g; simpl; [done|].
  rewrite IH. by destruct (_ && _).
Qed.

Lemma deduplicateBundle_members (g g' : BundleGraph) (bundle : Bundle) :
  deduplicateBundle host g bundle = JS.Ok g' -> groupMembers g' = groupMembers g.
Proof.
  unfold deduplicateBundle. destruct (_ || _); [by intros [= <-]|].
  apply (traverse_preserves _ _ _ (fun s => groupMembers s = groupMembers g)); [| |done].
  - intros [a|d] c s v Hs; simpl; intros [= <-]; simpl; [done|].
    by rewrite deduplicateAssets_members.
  - by intros n c s s' Hs [= <-].
Qed.

Lemma moveAssets_members (shared : Bundle) (sources : list Bundle)
    (assets : list Asset) (g : BundleGraph) :
  groupMembers (moveAssets shared sources g assets) = groupMembers g.
Proof.
  assert (Hrem : forall a g0, groupMembers
            (foldl (fun g bundle => removeAssetGraphFromBundle g a bundle) g0 sources)
            = groupMembers g0).
  { intros a. induction sources as [|b bs IHb]; intros g0; simpl; [done|].
    by rewrite IHb. }
  unfold moveAssets. revert g.
  induction assets as [|a l IH]; intros g; simpl; [done|].
  by rewrite IH, Hrem.
Qed.

(** Attaching one bundle to a list of groups. *)
Lemma connectBundle_members (shared : Bundle) (bgs : list BundleGroup)
    (g : BundleGraph) (id : string) :
  members (connectBundle shared g bgs) id = members g id
  \/ (id ∈ bg_id <$> bgs
      /\ members (connectBundle shared g bgs) id = set_add_bundle (members g id) shared).
Proof.
  unfold connectBundle.
  induction bgs as [|bg bgs IH] using rev_ind; simpl; [by left|].
  rewrite foldl_app. simpl. rewrite fmap_app. simpl.
  destruct (decide (id = bg_id bg)) as [->|Hne].
  - right. split; [apply elem_of_app; right; by apply list_elem_of_singleton|].
    rewrite members_add_eq.
    destruct IH as [->|[_ ->]]; [done|]. apply set_add_bundle_again.
  - rewrite members_add_ne by done.
    destruct IH as [IH|[Hin IH]]; [by left|right].
    split; [apply elem_of_app; by left|done].
Qed.

Lemma overLimit_false (g : BundleGraph) (l : list BundleGroup) (id : string) :
  overLimit g l = false -> id ∈ bg_id <$> l ->
  (length (members g id) < maxParallelRequests)%nat.
Proof.
  intros Hover (bg & -> & Hin)%list_elem_of_fmap.
  unfold overLimit in Hover.
  destruct (Nat.ltb_spec (length (members g (bg_id bg))) maxParallelRequests) as [|Hge];
    [done|].
  assert (existsb (fun group =>
            (maxParallelRequests <=? length (getBundlesInBundleGroup g group))%nat) l
          = true) as Hex; [|congruence].
  apply existsb_exists. exists bg. split; [by apply list_elem_of_In|].
  by apply Nat.leb_le.
Qed.

Lemma within_budget_refl (g : BundleGraph) : within_budget g g.
Proof. intros bg. lia. Qed.

Lemma within_budget_trans (g1 g2 g3 : BundleGraph) :
  within_budget g1 g2 -> within_budget g2 g3 -> within_budget g1 g3.
Proof. intros H12 H23 bg. specialize (H12 bg). specialize (H23 bg). lia. Qed.

Lemma within_budget_same (g g' : BundleGraph) :
  groupMembers g' = groupMembers g -> within_budget g g'.
Proof.
  intros Heq bg. rewrite !getBundlesInBundleGroup_members.
  rewrite (members_same _ _ _ Heq). lia.
Qed.

Lemma within_budget_respected (g g' : BundleGraph) :
  within_budget g g' -> budget_respected g g'.
Proof. intros H bg Hlt. specialize (H bg). lia. Qed.

Lemma extractCandidate_within_budget (g g' : BundleGraph) (c : Candidate) :
  extractCandidate host md5FromString g c = JS.Ok g' -> within_budget g g'.
Proof.
  unfold extractCandidate.
  destruct (overLimit g _) eqn:Hover; [intros [= <-]; apply within_budget_refl|].
  destruct (sourceBundles c) as [|firstBundle rest] eqn:Hsrc; [done|].
  destruct (createBundle host g _) as [sharedBundle g1] eqn:Hcreate.
  assert (groupMembers g1 = groupMembers g) as Hg1.
  { unfold createBundle in Hcreate. by injection Hcreate as _ <-. }
  intros Hd%deduplicateBundle_members bg.
  rewrite !getBundlesInBundleGroup_members.
  rewrite (members_same _ _ _ Hd).
  set (bgs := connectedBundleGroups g (firstBundle :: rest)) in *.
  set (g2 := moveAssets _ _ g1 _).
  assert (forall id, members g2 id = members g id) as Hg2.
  { intros id. apply members_same. unfold g2. by rewrite moveAssets_members. }
  destruct (connectBundle_members sharedBundle bgs g2 (bg_id bg)) as [->|[Hin ->]].
  - rewrite Hg2. lia.
  - rewrite Hg2. pose proof (overLimit_false _ _ _ Hover Hin).
    pose proof (set_add_bundle_length (members g (bg_id bg)) sharedBundle). lia.
Qed.

Lemma extractAll_within_budget (cs : list Candidate) (g g' : BundleGraph) :
  extractAll host md5FromString g cs = JS.Ok g' -> within_budget g g'.
Proof.
  revert g. induction cs as [|c cs IH]; intros g; simpl.
  - intros [= <-]. apply within_budget_refl.
  - destruct (extractCandidate host md5FromString g c) as [g1|] eqn:Hc; [|done].
    simpl. intros Hrest. eapply within_budget_trans.
    + eapply extractCandidate_within_budget; eauto.
    + by apply IH.
Qed.

Lemma extractStep_within_budget (g g' : BundleGraph) :
  extractStep host md5FromString g = JS.Ok g' -> within_budget g g'.
Proof.
  unfold extractStep. destruct (collectCandidates host g) as [cands|]; [|done].
  simpl. apply extractAll_within_budget.
Qed.

Lemma deduplicateStep_members (g g' : BundleGraph) :
  deduplicateStep host g = JS.Ok g' -> groupMembers g' = groupMembers g.
Proof.
  apply (traverse_preserves _ _ _ (fun s => groupMembers s = groupMembers g)); [| |done].
  - by intros n c s v Hs [= <-].
  - intros n c s s' Hs Hd%deduplicateBundle_members. congruence.
Qed.

Lemma internalizeIn_members (d : Dependency) (a : Asset) (bs : list Bundle)
    (g : BundleGraph) :
  groupMembers (internalizeIn d a g bs) = groupMembers g.
Proof.
  unfold internalizeIn. revert g.
  induction bs as [|b bs IH]; intros g; simpl; [done|].
  rewrite IH. by destruct (_ || _).
Qed.

Lemma internalizeStep_members (g g' : BundleGraph) (groups : list BundleGroup) :
  internalizeStep host g = JS.Ok (g', groups) -> groupMembers g' = groupMembers g.
Proof.
  intros H.
  apply (traverse_preserves _ _ _ (fun s => groupMembers s.1 = groupMembers g)) in H;
    [done| | |done].
  - intros [a|d] c [s l] v Hs; simpl; [by intros [= <-]|].
    destruct (_ || _); [by intros [= <-]|].
    destruct (getDependencyResolution s d None); [|by intros [= <-]].
    destruct (resolveExternalDependency s d) as [[value|]|]; [|done|done].
    intros [= <-]. simpl. by rewrite internalizeIn_members.
  - by intros n c s s' Hs [= <-].
Qed.

Lemma pruneStep_members (groups : list BundleGroup) (g : BundleGraph) (id : string) :
  (length (members (pruneStep g groups) id) <= length (members g id))%nat.
Proof.
  unfold pruneStep. revert g.
  induction groups as [|bg l IH]; intros g; simpl; [lia|].
  etrans; [apply IH|].
  destruct (_ =? _)%nat; [|lia].
  unfold members, removeBundleGroup. simpl.
  destruct (decide (id = bg_id bg)) as [->|Hne].
  - rewrite lookup_delete_eq. simpl. lia.
  - by rewrite lookup_delete_ne.
Qed.
End Membership.

(* ===================================================================== *)
(** * OptimizingBundler: hoisting and the request budget                  *)
(* ===================================================================== *)

Section Hoist.
Import MutableBundleGraph OptimizeBundler Properties.

Lemma grown_by_add (toAdd : list Bundle) (ids : list string) (g g' : BundleGraph)
    (id : string) (b : Bundle) (bg : BundleGroup) :
  b ∈ toAdd -> bg_id bg ∈ ids ->
  grown_by toAdd ids g g' id ->
  grown_by toAdd ids g (addBundleToBundleGroup g' b bg) id.
Proof.
  intros Hb Hbg (extra & Hm & Hnd & Hsub & Hids).
  destruct (decide (id = bg_id bg)) as [->|Hne].
  - unfold grown_by. rewrite members_add_eq. unfold set_add_bundle.
    destruct (has_bundle b (members g' (bg_id bg))) eqn:Hhas.
    + by exists extra.
    + exists (extra ++ [b])%list. rewrite Hm, app_assoc. split; [done|].
      assert (bundle_id b ∉ bundle_id <$> extra) as Hfresh.
      { intros Hin. apply not_true_iff_false in Hhas. apply Hhas.
        apply has_bundle_true. rewrite Hm, fmap_app. set_solver. }
      rewrite fmap_app. simpl. split; [|split; [|by right]].
      * apply NoDup_app. split; [done|]. split; [|apply NoDup_singleton].
        intros x Hx ->%list_elem_of_singleton. done.
      * intros x [Hx| ->%list_elem_of_singleton]%elem_of_app; [by apply Hsub|].
        by apply list_elem_of_fmap_2.
  - exists extra. by rewrite members_add_ne.
Qed.

Lemma grown_by_add_all (toAdd : list Bundle) (bgs : list BundleGroup)
    (g : BundleGraph) (id : string) :
  grown_by toAdd (bg_id <$> bgs) g
    (foldl
       (fun g bundleGroup =>
          foldl (fun g bundleToAdd => addBundleToBundleGroup g bundleToAdd bundleGroup)
                g toAdd)
       g bgs)
    id.
Proof.
  assert (Hinner : forall bg l g',
    bg_id bg ∈ bg_id <$> bgs -> (forall b, b ∈ l -> b ∈ toAdd) ->
    grown_by toAdd (bg_id <$> bgs) g g' id ->
    grown_by toAdd (bg_id <$> bgs) g
      (foldl (fun g bundleToAdd => addBundleToBundleGroup g bundleToAdd bg) g' l) id).
  { intros bg l. induction l as [|b l IH]; intros g' Hbg Hl Hg'; simpl; [done|].
    apply IH; [done|set_solver|]. apply grown_by_add; [set_solver|done|done]. }
  assert (Houter : forall l g',
    (forall bg, bg ∈ l -> bg_id bg ∈ bg_id <$> bgs) ->
    grown_by toAdd (bg_id <$> bgs) g g' id ->
    grown_by toAdd (bg_id <$> bgs) g
      (foldl
         (fun g bundleGroup =>
            foldl (fun g bundleToAdd => addBundleToBundleGroup g bundleToAdd bundleGroup)
                  g toAdd)
         g' l) id).
  { induction l as [|bg l IH]; intros g' Hl Hg'; simpl; [done|].
    apply IH; [set_solver|]. apply Hinner; [set_solver|done|done]. }
  apply Houter.
  - intros bg Hbg. by apply list_elem_of_fmap_2.
  - exists []. rewrite app_nil_r. repeat split; [constructor|set_solver|by left].
Qed.

(** One hoist: every group grows by the hoisted bundle and its siblings
    at most, and only a group that had fewer than [maxParallelRequests]
    bundles before the hoist grows at all. *)
Lemma hoistInto_members (bundle : Bundle) (siblings : list Bundle) (mainEntry : Asset)
    (g : BundleGraph) (candidate : Bundle) (bg : BundleGroup) :
  let g' := hoistInto bundle siblings mainEntry g candidate in
  (length (getBundlesInBundleGroup g' bg)
   <= length (getBundlesInBundleGroup g bg) + S (length siblings))%nat
  /\ (getBundlesInBundleGroup g' bg <> getBundlesInBundleGroup g bg ->
      (length (getBundlesInBundleGroup g bg) < maxParallelRequests)%nat).
Proof.
  simpl. unfold hoistInto.
  destruct (forallb _ _) eqn:Hall; [|split; [lia|done]].
  rewrite !getBundlesInBundleGroup_members.
  set (bgs := getBundleGroupsContainingBundle g candidate) in *.
  destruct (grown_by_add_all (bundle :: siblings) bgs
              (removeAssetGraphFromBundle g mainEntry candidate) (bg_id bg))
    as (extra & Hm & Hnd & Hsub & Hids).
  rewrite Hm. change (members (removeAssetGraphFromBundle g mainEntry candidate) (bg_id bg))
    with (members g (bg_id bg)).
  split.
  - rewrite length_app.
    assert (length extra <= length (bundle :: siblings))%nat; [|simpl in *; lia].
    rewrite <- (length_fmap bundle_id extra), <- (length_fmap bundle_id (bundle :: siblings)).
    apply submseteq_length, NoDup_submseteq; done.
  - intros Hne. destruct Hids as [->|Hin]; [by rewrite app_nil_r in Hne|].
    apply list_elem_of_fmap in Hin as (bg' & Hid & Hin).
    rewrite forallb_forall in Hall. apply list_elem_of_In in Hin.
    specialize (Hall _ Hin). apply Nat.ltb_lt in Hall.
    rewrite getBundlesInBundleGroup_members in Hall. by rewrite Hid.
Qed.
End Hoist.

Section Budget.
Import MutableBundleGraph OptimizeBundler Properties.
Context (host : Host) (md5FromString : string -> string).

(** C1, as the code has it. Deduplication, shared-bundle extraction,
    async internalization and the removal of orphaned groups keep the
    budget: a bundle group that had fewer than [maxParallelRequests]
    bundles when the step began has at most [maxParallelRequests] when it
    ends. Hoisting checks the budget only before it adds: one hoist adds
    bundles to a group only if the group had fewer than
    [maxParallelRequests] bundles, and then adds the hoisted bundle and
    every non-inline sibling, so the group ends with at most its former
    count plus one plus the number of siblings. *)
Theorem budget_respected_after_hoisting (g g' : BundleGraph) :
  (deduplicateStep host g = JS.Ok g' -> budget_respected g g')
  /\ (extractStep host md5FromString g = JS.Ok g' -> budget_respected g g')
  /\ (forall groups, internalizeStep host g = JS.Ok (g', groups) -> budget_respected g g')
  /\ (forall groups, budget_respected g (pruneStep g groups))
  /\ (forall bundle siblings mainEntry candidate bg,
        let g1 := hoistInto bundle siblings mainEntry g candidate in
        (length (getBundlesInBundleGroup g1 bg)
         <= length (getBundlesInBundleGroup g bg) + S (length siblings))%nat
        /\ (getBundlesInBundleGroup g1 bg <> getBundlesInBundleGroup g bg ->
            (length (getBundlesInBundleGroup g bg) < maxParallelRequests)%nat)).
Proof.
  repeat apply conj.
  - intros H. apply deduplicateStep_members in H.
    by apply within_budget_respected, within_budget_same.
  - intros H. apply extractStep_within_budget in H.
    by apply within_budget_respected.
  - intros groups H. apply internalizeStep_members in H.
    by apply within_budget_respected, within_budget_same.
  - intros groups bg Hlt. rewrite !getBundlesInBundleGroup_members in *.
    pose proof (pruneStep_members groups g (bg_id bg)). lia.
  - intros bundle siblings mainEntry candidate bg. apply hoistInto_members.
Qed.

End Budget.

(** C1 as stated fails for the hoisting step: the group [g1] of the
    example holds four bundles before the step and seven after it. *)
Lemma hoistStep_exceeds_budget :
  exists g',
    OptimizeBundler.hoistStep Examples.crowded_host Examples.crowded = JS.Ok g'
    /\ length (MutableBundleGraph.getBundlesInBundleGroup Examples.crowded
                 (Examples.group_of "g1")) = 4%nat
    /\ length (MutableBundleGraph.getBundlesInBundleGroup g' (Examples.group_of "g1"))
       = 7%nat
    /\ ~ Properties.budget_respected Examples.crowded g'.
Proof.
  eexists. split; [vm_compute; reflexivity|].
  split; [reflexivity|]. split; [vm_compute; reflexivity|].
  intros H. specialize (H (Examples.group_of "g1")).
  assert (4 < OptimizeBundler.maxParallelRequests)%nat as Hlt
    by (unfold OptimizeBundler.maxParallelRequests; lia).
  apply H in Hlt. vm_compute in Hlt. lia.
Qed.

(** The extraction of the example attaches the shared bundle to three
    groups of one bundle each, within the budget. *)
Lemma budget_respected_after_hoisting_witness :
  exists g',
    OptimizeBundler.extractStep Examples.shared_big_host Examples.md5 Examples.shared_big
      = JS.Ok g'
    /\ Properties.budget_respected Examples.shared_big g'.
Proof.
  eexists. split; [vm_compute; reflexivity|].
  apply (budget_respected_after_hoisting Examples.shared_big_host Examples.md5).
  vm_compute. reflexivity.
Defined.

(* ===================================================================== *)
(** * OptimizingBundler: async internalization                            *)
(* ===================================================================== *)

Section Internalize.
Import MutableBundleGraph OptimizeBundler Properties.

Lemma more_internalized_refl (g : BundleGraph) : more_internalized g g.
Proof. by repeat split. Qed.

Lemma more_internalized_trans (g1 g2 g3 : BundleGraph) :
  more_internalized g1 g2 -> more_internalized g2 g3 -> more_internalized g1 g3.
Proof.
  intros (?&?&?&?&?&?&?&H12) (?&?&?&?&?&?&?&H23).
  repeat split; try congruence. intros p Hp. by apply H23, H12.
Qed.

Lemma more_internalized_step (g : BundleGraph) (b : Bundle) (d : Dependency) :
  more_internalized g (internalizeAsyncDependency g b d).
Proof. repeat split. simpl. intros p Hp. apply elem_of_app. by left. Qed.

Section Monotone.
Context (g g' : BundleGraph) (Hmore : more_internalized g g').

Lemma hasAsset_same (b : Bundle) (a : Asset) : hasAsset g' b a = hasAsset g b a.
Proof.
  destruct Hmore as (_&_&_&_&Hc&_). unfold hasAsset, contents_of. by rewrite Hc.
Qed.

Lemma hasDependency_same (b : Bundle) (d : Dependency) :
  hasDependency g' b d = hasDependency g b d.
Proof.
  destruct Hmore as (_&_&_&_&Hc&_). unfold hasDependency, contents_of. by rewrite Hc.
Qed.

Lemma findBundlesWithDependency_same (d : Dependency) :
  findBundlesWithDependency g' d = findBundlesWithDependency g d.
Proof.
  unfold findBundlesWithDependency.
  destruct Hmore as (_&->&_). apply filter_ext. intros b. apply hasDependency_same.
Qed.

Lemma groupsContaining_same (b : Bundle) :
  getBundleGroupsContainingBundle g' b = getBundleGroupsContainingBundle g b.
Proof.
  unfold getBundleGroupsContainingBundle, getBundlesInBundleGroup.
  destruct Hmore as (_&_&->&->&_). done.
Qed.

Lemma parentBundles_fewer (b x : Bundle) :
  x ∈ parentBundles g' b -> x ∈ parentBundles g b.
Proof.
  unfold parentBundles. rewrite groupsContaining_same.
  rewrite !list_elem_of_bind. intros (bg & Hx & Hbg). exists bg. split; [|done].
  unfold getParentBundlesOfBundleGroup in *.
  apply filter_elem_of in Hx as [Hx Hp]. apply filter_elem_of.
  destruct Hmore as (_&Hb&_&_&_&_&_&Hint). rewrite Hb in Hx. split; [done|].
  rewrite hasDependency_same in Hp.
  apply andb_prop in Hp as [Hd Hn]. rewrite Hd. simpl.
  apply negb_true_iff, bool_decide_eq_false in Hn.
  apply negb_true_iff, bool_decide_eq_false. intros Hin. by apply Hn, Hint.
Qed.

Lemma ancestorBundles_fewer (n : nat) :
  forall (frontier frontier' : list Bundle) (x : Bundle),
    (forall y, y ∈ frontier' -> y ∈ frontier) ->
    x ∈ ancestorBundles g' n frontier' -> x ∈ ancestorBundles g n frontier.
Proof.
  induction n as [|n IH]; intros frontier frontier' x Hsub; simpl; [done|].
  assert (forall y, y ∈ frontier' ≫= parentBundles g' -> y ∈ frontier ≫= parentBundles g)
    as Hparents.
  { intros y. rewrite !list_elem_of_bind. intros (z & Hy & Hz).
    exists z. split; [by apply parentBundles_fewer|by apply Hsub]. }
  rewrite !elem_of_app. intros [Hx|Hx]; [left; by apply Hparents|right].
  eapply IH; [exact Hparents|exact Hx].
Qed.

Lemma isAssetInAncestorBundles_fewer (b : Bundle) (a : Asset) :
  isAssetInAncestorBundles g' b a = true -> isAssetInAncestorBundles g b a = true.
Proof.
  unfold isAssetInAncestorBundles. rewrite !existsb_exists.
  intros (x & Hx & Hp). exists x. split.
  - apply list_elem_of_In. apply list_elem_of_In in Hx.
    destruct Hmore as (_&Hb&_). rewrite Hb in Hx.
    eapply ancestorBundles_fewer; [|exact Hx]. done.
  - by rewrite hasAsset_same in Hp.
Qed.

Lemma canReach_fewer (b : Bundle) (a : Asset) :
  canReach g' b a = true -> canReach g b a = true.
Proof.
  unfold canReach. rewrite hasAsset_same.
  intros [->|H]%orb_prop; [done|].
  rewrite (isAssetInAncestorBundles_fewer _ _ H). apply orb_true_r.
Qed.
End Monotone.

Lemma internalizeIn_cons (d : Dependency) (a : Asset) (g : BundleGraph)
    (b : Bundle) (bs : list Bundle) :
  internalizeIn d a g (b :: bs)
  = internalizeIn d a
      (if canReach g b a then internalizeAsyncDependency g b d else g) bs.
Proof. done. Qed.

Lemma internalizeIn_more (d : Dependency) (a : Asset) (bs : list Bundle) :
  forall g, more_internalized g (internalizeIn d a g bs).
Proof.
  induction bs as [|b bs IH]; intros g; [apply more_internalized_refl|].
  rewrite internalizeIn_cons. eapply more_internalized_trans; [|apply IH].
  destruct (canReach g b a);
    [apply more_internalized_step|apply more_internalized_refl].
Qed.

(** Every bundle of the loop that has the asset, or can still reach it
    in an ancestor when the loop is over, has internalized the
    dependency. *)
Lemma internalizeIn_complete (d : Dependency) (a : Asset) (bs : list Bundle) :
  forall g b,
    b ∈ bs -> canReach (internalizeIn d a g bs) b a = true ->
    (bundle_id b, dep_id d) ∈ internalized (internalizeIn d a g bs).
Proof.
  induction bs as [|b0 bs IH]; intros g b Hb Hreach; [by apply elem_of_nil in Hb|].
  rewrite internalizeIn_cons in *.
  apply elem_of_cons in Hb as [->|Hb]; [|by apply IH].
  set (g1 := if canReach g b0 a then internalizeAsyncDependency g b0 d else g) in *.
  pose proof (internalizeIn_more d a bs g1) as Hmore1.
  assert (more_internalized g g1) as Hmore0.
  { unfold g1. destruct (canReach g b0 a);
      [apply more_internalized_step|apply more_internalized_refl]. }
  pose proof (canReach_fewer _ _ (more_internalized_trans _ _ _ Hmore0 Hmore1) _ _ Hreach)
    as Hg.
  destruct Hmore1 as (_&_&_&_&_&_&_&Hint). apply Hint.
  unfold g1. rewrite Hg. simpl. apply elem_of_app. right. by apply list_elem_of_singleton.
Qed.

(** Only bundles of the loop that had the asset or could reach it when
    the loop began internalize the dependency. *)
Lemma internalizeIn_sound (d : Dependency) (a : Asset) (bs : list Bundle) :
  forall g p,
    p ∈ internalized (internalizeIn d a g bs) ->
    p ∈ internalized g
    \/ exists b, b ∈ bs /\ p = (bundle_id b, dep_id d) /\ canReach g b a = true.
Proof.
  induction bs as [|b0 bs IH]; intros g p Hp; [by left|].
  rewrite internalizeIn_cons in Hp.
  destruct (IH _ _ Hp) as [Hin|(b & Hb & -> & Hreach)].
  - destruct (canReach g b0 a) eqn:Hg; [|by left].
    simpl in Hin. apply elem_of_app in Hin as [Hin| ->%list_elem_of_singleton];
      [by left|right].
    exists b0. split; [apply elem_of_cons; by left|done].
  - right. exists b. split; [apply elem_of_cons; by right|]. split; [done|].
    eapply canReach_fewer; [|exact Hreach].
    destruct (canReach g b0 a);
      [apply more_internalized_step|apply more_internalized_refl].
Qed.
End Internalize.

Section WalkThrow.
Import MutableBundleGraph.
Context {N C S : Type}.
Variable id_of : N -> string.
Variable enter : N -> C -> S -> JS.Result (Visit C S).
Variable exit : N -> C -> S -> JS.Result S.

(** A throw of [enter] at a node that is reached for the first time ends
    the walk with that throw. *)
Lemma walk_enter_throws (n : N) (children : list (VisitTree N)) (ctx : C)
    (seen : list string) (s : S) (e : JS.Error) :
  id_of n ∉ seen -> enter n ctx s = JS.Throw e ->
  walk id_of enter exit (VNode n children) ctx (seen, s) = JS.Throw e.
Proof.
  intros Hfresh He. rewrite walk_unfold. simpl.
  rewrite bool_decide_eq_false_2 by done. by rewrite He.
Qed.
End WalkThrow.

Section InternalizeVisitor.
Import MutableBundleGraph OptimizeBundler Properties.
Context (host : Host).

Lemma getDependencyResolution_same (g g' : BundleGraph) (d : Dependency)
    (b : option Bundle) :
  assetGraph g' = assetGraph g ->
  getDependencyResolution g' d b = getDependencyResolution g d b.
Proof. unfold getDependencyResolution. by intros ->. Qed.

Lemma resolveExternalDependency_same (g g' : BundleGraph) (d : Dependency) :
  more_internalized g g' ->
  resolveExternalDependency g' d = resolveExternalDependency g d.
Proof.
  intros (Hag & _ & Hgroups & _). unfold resolveExternalDependency.
  by rewrite Hgroups, (getDependencyResolution_same g g' d None Hag).
Qed.

(** The bundle whose turn it is, tested in the graph that the bundles
    before it have left. *)
Lemma internalizeIn_turn (d : Dependency) (a : Asset) (g : BundleGraph)
    (pre post : list Bundle) (b : Bundle) :
  canReach (internalizeIn d a g pre) b a = true ->
  (bundle_id b, dep_id d) ∈ internalized (internalizeIn d a g (pre ++ b :: post)).
Proof.
  intros Hreach. unfold internalizeIn at 1. rewrite foldl_app.
  fold (internalizeIn d a g pre). cbn [foldl].
  fold (canReach (internalizeIn d a g pre) b a). rewrite Hreach.
  fold (internalizeIn d a (internalizeAsyncDependency (internalizeIn d a g pre) b d) post).
  destruct (internalizeIn_more d a post
              (internalizeAsyncDependency (internalizeIn d a g pre) b d))
    as (_ & _ & _ & _ & _ & _ & _ & Hint).
  apply Hint. simpl. apply elem_of_app. right. by apply list_elem_of_singleton.
Qed.

Lemma internalized_in_kept (g : BundleGraph) (d : Dependency) (a : Asset)
    (st st' : BundleGraph * list BundleGroup) :
  internalized_in g d a st ->
  more_internalized st.1 st'.1 ->
  (forall x : BundleGroup, bg_id x ∈ bg_id <$> st.2 -> bg_id x ∈ bg_id <$> st'.2) ->
  internalized_in g d a st'.
Proof.
  intros (value & g_d & Hext & Hrec & Hg & Hgd & Hturn & Hhas) Hmore Hgroups.
  exists value, g_d. split; [done|]. split; [by apply Hgroups|]. split; [done|].
  split; [by eapply more_internalized_trans|].
  destruct Hmore as (_ & _ & _ & _ & _ & _ & _ & Hint).
  split.
  - intros pre b post Hsplit Hreach. apply Hint. by eapply Hturn.
  - intros b Hb Ha. apply Hint. by apply Hhas.
Qed.

(** What one visit of the pass does. *)
Lemma internalizeVisitor_step (g : BundleGraph) (n : Node) (u : unit)
    (st : BundleGraph * list BundleGroup) :
  more_internalized g st.1 ->
  match internalizeVisitor n u st with
  | JS.Ok v =>
      visit_context v = None /\ visit_skipChildren v = false
      /\ more_internalized st.1 (visit_state v).1
      /\ (forall x : BundleGroup,
            bg_id x ∈ bg_id <$> st.2 -> bg_id x ∈ bg_id <$> (visit_state v).2)
      /\ forall d a, n = DependencyNode d -> internalizable g d a ->
                     internalized_in g d a (visit_state v)
  | JS.Throw e =>
      e = JS.AssertionError
      /\ exists d a, n = DependencyNode d /\ internalizable g d a
                     /\ externalGroup g d = None
  end.
Proof.
  destruct st as [s groups]. cbn [fst snd]. intros Hmore.
  pose proof Hmore as (Hag & _).
  destruct n as [x|d]; cbn [internalizeVisitor].
  { split; [done|]. split; [done|]. split; [apply more_internalized_refl|].
    split; [done|]. by intros d a [=]. }
  destruct (dep_isEntry d || negb (dep_isAsync d)) eqn:Hflags.
  { split; [done|]. split; [done|]. split; [apply more_internalized_refl|].
    split; [done|]. intros d' a [= <-] (Hasync & Hentry & _).
    rewrite Hentry, Hasync in Hflags. done. }
  apply orb_false_elim in Hflags as [Hentry Hasync%negb_false_iff].
  rewrite (getDependencyResolution_same g s d None Hag).
  destruct (getDependencyResolution g d None) as [a|] eqn:Hres; cycle 1.
  { split; [done|]. split; [done|]. split; [apply more_internalized_refl|].
    split; [done|]. intros d' a [= <-] (_ & _ & Hres'). congruence. }
  rewrite (resolveExternalDependency_same g s d Hmore).
  destruct (resolveExternalDependency g d) as [[value|x]|] eqn:Hext.
  - cbn [visit_context visit_skipChildren visit_state fst snd].
    split; [done|]. split; [done|]. split; [apply internalizeIn_more|].
    split; [intros x Hx; apply set_add_group_ids; by left|].
    intros d' a' [= <-] (_ & _ & Hres'). rewrite Hres in Hres'. injection Hres' as <-.
    exists value, s. split; [done|].
    split; [apply set_add_group_ids; by right|]. split; [done|].
    split; [apply internalizeIn_more|].
    rewrite (findBundlesWithDependency_same g s Hmore d).
    split.
    + intros pre b post -> Hreach. by apply internalizeIn_turn.
    + intros b Hb Ha. apply list_elem_of_split in Hb as (pre & post & Hsplit).
      rewrite Hsplit. apply internalizeIn_turn. unfold canReach.
      rewrite (hasAsset_same g (internalizeIn d a s pre)), Ha; [done|].
      eapply more_internalized_trans; [exact Hmore|apply internalizeIn_more].
  - split; [done|]. exists d, a. split; [done|]. split; [done|].
    unfold externalGroup. by rewrite Hext.
  - split; [done|]. exists d, a. split; [done|]. split; [done|].
    unfold externalGroup. by rewrite Hext.
Qed.

End InternalizeVisitor.

(** In the example the traversal visits [dx], whose importer [main]
    already has [x]: the pass records the group of [dx] and internalizes
    [dx] in [main]. *)
Example internalizeStep_internalizes_importer :
  exists g',
    OptimizeBundler.internalizeStep Examples.import_host Examples.async_self
      = JS.Ok (g', [Examples.group_of "dx"])
    /\ internalized g' = [("main", "dx")].
Proof. eexists. split; vm_compute; reflexivity. Qed.

(** Without a group for [dx] the external resolution is the asset and the
    visit throws. *)
Example internalizeVisitor_mismatch_throws :
  OptimizeBundler.internalizeVisitor (DependencyNode Examples.dx) tt
    (Examples.async_no_group, [])
  = JS.Throw JS.AssertionError.
Proof. reflexivity. Qed.

(* ===================================================================== *)
(** * OptimizingBundler: ancestor deduplication                           *)
(* ===================================================================== *)

Section Deduplicate.
Import MutableBundleGraph OptimizeBundler Properties.
Context (host : Host) (md5FromString : string -> string).

End Deduplicate.


(** In the example [p], [q] and [r] share an asset of 60000 bytes. *)
Lemma shared_bundles_meet_thresholds_witness :
  Properties.distinct_bundles Examples.shared_big
  /\ exists candidateBundles,
       OptimizeBundler.collectCandidates Examples.shared_big_host Examples.shared_big
         = JS.Ok candidateBundles
       /\ OptimizeBundler.extractStep Examples.shared_big_host Examples.md5
            Examples.shared_big
          = OptimizeBundler.extractAll Examples.shared_big_host Examples.md5
              Examples.shared_big (OptimizeBundler.sortedCandidates candidateBundles)
       /\ Forall (Properties.meets_thresholds Examples.shared_big)
                 (OptimizeBundler.sortedCandidates candidateBundles).
Proof.
  assert (Properties.distinct_bundles Examples.shared_big) as H.
  { apply (bool_decide_unpack _). vm_compute. exact I. }
  split; [exact H|].
  exact (shared_bundles_meet_thresholds Examples.shared_big_host Examples.md5
           Examples.shared_big H).
Defined.

(** The group of [p] holds five bundles: the candidate is skipped. *)
Lemma extractCandidate_over_limit_skips_witness :
  Examples.js_bundle "p" None ∈ OptimizeBundler.sourceBundles Examples.big_candidate
  /\ Examples.group_of "gp"
       ∈ MutableBundleGraph.getBundleGroupsContainingBundle Examples.full_group
           (Examples.js_bundle "p" None)
  /\ (OptimizeBundler.maxParallelRequests
      <= length (MutableBundleGraph.getBundlesInBundleGroup Examples.full_group
                   (Examples.group_of "gp")))%nat
  /\ OptimizeBundler.extractCandidate Examples.idle_host Examples.md5
       Examples.full_group Examples.big_candidate
     = JS.Ok Examples.full_group.
Proof.
  assert (Examples.js_bundle "p" None ∈ OptimizeBundler.sourceBundles Examples.big_candidate)
    as H1 by (apply elem_of_cons; by left).
  assert (Examples.group_of "gp"
            ∈ MutableBundleGraph.getBundleGroupsContainingBundle Examples.full_group
                (Examples.js_bundle "p" None))
    as H2 by (apply list_elem_of_In; vm_compute; by left).
  assert (OptimizeBundler.maxParallelRequests
          <= length (MutableBundleGraph.getBundlesInBundleGroup Examples.full_group
                       (Examples.group_of "gp")))%nat
    as H3 by (vm_compute; lia).
  split; [exact H1|]. split; [exact H2|]. split; [exact H3|].
  exact (extractCandidate_over_limit_skips Examples.idle_host Examples.md5
           Examples.full_group Examples.big_candidate _ _ H1 H2 H3).
Defined.

(* ===================================================================== *)
(** * PrimaryBundler: opening a bundle group                              *)
(* ===================================================================== *)

Section OpenGroup.
Import MutableBundleGraph DefaultBundler Properties.
Context (host : Host).

Lemma opensBundleGroup_true (d : Dependency) (r : option Asset) :
  opensBundleGroup d r = true
  <-> exists a, r = Some a
                /\ (dep_isEntry d = true \/ dep_isAsync d = true
                    \/ asset_isIsolated a = true \/ asset_isInline a = true).
Proof.
  unfold opensBundleGroup. destruct r as [a|]; simpl.
  - rewrite !andb_true_r, !orb_true_iff. split.
    + intros H. exists a. split; [done|tauto].
    + intros (a' & [= <-] & H). tauto.
  - rewrite !andb_false_r. simpl. split; [done|]. by intros (a & ? & _).
Qed.

Lemma openBundle_graph (d : Dependency) (bg : BundleGroup) (ref : nat)
    (s : State) (a : Asset) :
  graph (openBundle host d bg ref s a)
  = addBundleToBundleGroup
      (createBundle host (graph s) (entryBundleOpts d bg a)).2
      (entryBundle host d bg a) bg.
Proof. done. Qed.

Lemma createBundle_ids (g : BundleGraph) (o : BundleOpts) (id : string) :
  id ∈ bundle_id <$> bundles (createBundle host g o).2
  <-> id ∈ bundle_id <$> bundles g \/ id = host_bundleId host o.
Proof.
  unfold createBundle. simpl. rewrite fmap_app. simpl.
  rewrite elem_of_app, list_elem_of_singleton, !list_elem_of_fmap.
  split.
  - intros [(b & -> & [Hb _]%filter_elem_of)| ->]; [left; eauto|by right].
  - intros [(b & -> & Hb)| ->]; [|by right].
    destruct (String.eqb_spec (bundle_id b) (host_bundleId host o)) as [Heq|Hne];
      [by right|left].
    exists b. split; [done|]. apply filter_elem_of. split; [done|].
    apply negb_true_iff. by apply String.eqb_neq.
Qed.

Lemma createBundle_bundles (g : BundleGraph) (o : BundleOpts) (b : Bundle) :
  b ∈ bundles (createBundle host g o).2 ->
  b ∈ bundles g \/ b = new_bundle (host_bundleId host o) o.
Proof.
  unfold createBundle. simpl.
  intros [[Hb _]%filter_elem_of| ->%list_elem_of_singleton]%elem_of_app;
    [by left|by right].
Qed.

(** What the loop over the resolved assets leaves in the graph. *)
Lemma openBundles_graph (d : Dependency) (bg : BundleGroup) (ref : nat)
    (assets : list Asset) (s : State) :
  let s' := foldl (openBundle host d bg ref) s assets in
  bundleGroups (graph s') = bundleGroups (graph s)
  /\ (forall a, a ∈ assets ->
        bundle_id (entryBundle host d bg a) ∈ bundle_id <$> bundles (graph s')
        /\ bundle_id (entryBundle host d bg a)
             ∈ bundle_id <$> getBundlesInBundleGroup (graph s') bg)
  /\ (forall id, id ∈ bundle_id <$> bundles (graph s) ->
                 id ∈ bundle_id <$> bundles (graph s'))
  /\ (forall id, id ∈ bundle_id <$> getBundlesInBundleGroup (graph s) bg ->
                 id ∈ bundle_id <$> getBundlesInBundleGroup (graph s') bg)
  /\ (forall b, b ∈ bundles (graph s') ->
        b ∈ bundles (graph s) \/ exists a, a ∈ assets /\ b = entryBundle host d bg a)
  /\ (forall b, b ∈ getBundlesInBundleGroup (graph s') bg ->
        b ∈ getBundlesInBundleGroup (graph s) bg
        \/ exists a, a ∈ assets /\ b = entryBundle host d bg a).
Proof.
  simpl. revert s. induction assets as [|a assets IH]; intros s; simpl.
  { split; [done|]. split; [intros a0 Ha; by apply elem_of_nil in Ha|].
    split; [done|]. split; [done|]. split; intros b Hb; by left. }
  set (s1 := openBundle host d bg ref s a).
  destruct (IH s1) as (Hgroups & Hnew & Hkeep & Hkeepm & Honly & Honlym).
  assert (Hs1b : forall id, id ∈ bundle_id <$> bundles (graph s1)
              <-> id ∈ bundle_id <$> bundles (graph s)
                  \/ id = bundle_id (entryBundle host d bg a)).
  { intros id. unfold s1. rewrite openBundle_graph. apply createBundle_ids. }
  assert (Hs1m : getBundlesInBundleGroup (graph s1) bg
                 = set_add_bundle (getBundlesInBundleGroup (graph s) bg)
                     (entryBundle host d bg a)).
  { unfold s1. rewrite openBundle_graph, !getBundlesInBundleGroup_members.
    by rewrite members_add_eq. }
  split; [by rewrite Hgroups|].
  split; [|split; [|split; [|split]]].
  - intros a' [->|Ha']%elem_of_cons; [|by apply Hnew].
    split.
    + apply Hkeep, Hs1b. by right.
    + apply Hkeepm. rewrite Hs1m. apply set_add_bundle_ids. by right.
  - intros id Hid. apply Hkeep, Hs1b. by left.
  - intros id Hid. apply Hkeepm. rewrite Hs1m. apply set_add_bundle_ids. by left.
  - intros b [Hb|(a' & Ha' & ->)]%Honly.
    + unfold s1 in Hb. rewrite openBundle_graph in Hb.
      apply createBundle_bundles in Hb as [Hb| ->]; [by left|right].
      exists a. split; [apply elem_of_cons; by left|done].
    + right. exists a'. split; [apply elem_of_cons; by right|done].
  - intros b [Hb|(a' & Ha' & ->)]%Honlym.
    + rewrite Hs1m in Hb. apply set_add_bundle_elem in Hb as [Hb| ->]; [by left|right].
      exists a. split; [apply elem_of_cons; by left|done].
    + right. exists a'. split; [apply elem_of_cons; by right|done].
Qed.

Lemma entryBundle_fields (d : Dependency) (bg : BundleGroup) (a : Asset) :
  let b := entryBundle host d bg a in
  bundle_mainEntry b = Some a
  /\ bundle_isEntry b = dep_isEntry d && negb (asset_isIsolated a)
  /\ bundle_isInline b = asset_isInline a
  /\ bundle_target b = bg_target bg.
Proof.
  simpl. repeat split. simpl.
  destruct (asset_isIsolated a); simpl; [by rewrite andb_false_r|by rewrite andb_true_r].
Qed.

(** C7. When the visitor opens a bundle group at a dependency whose own
    target, or else the target of the enclosing group, is [target], it
    creates the group with that target and one bundle for every resolved
    asset of the dependency: the asset is the bundle's entry asset,
    [isEntry] is [dependency.isEntry && !asset.isIsolated], [isInline] is
    [asset.isInline], the target is the group's. Each of these bundles is
    in the graph and in the new group afterwards, and nothing else was
    added to either. *)
Theorem enter_opens_group_with_entry_bundles (d : Dependency)
    (context : option Context) (s : State) (target : Target) :
  opensBundleGroup d (getDependencyResolution (graph s) d None) = true ->
  JS.nullish (dep_target d) (bg_target <$> (context ≫= bundleGroup)) = Some target ->
  let bg := mkBundleGroup d target in
  let assets := getDependencyAssets (graph s) d in
  exists s',
    enter host (DependencyNode d) context s
      = JS.Ok (mkVisit
                 (Some (Some {| bundleGroup := Some bg;
                                bundleByType := Some (length (typeMaps s));
                                bundleGroupDependency := Some d;
                                parentNode := DependencyNode d |}))
                 false s')
    /\ bg ∈ bundleGroups (graph s')
    /\ Forall
         (fun a =>
            let b := entryBundle host d bg a in
            bundle_mainEntry b = Some a
            /\ bundle_isEntry b = dep_isEntry d && negb (asset_isIsolated a)
            /\ bundle_isInline b = asset_isInline a
            /\ bundle_target b = target
            /\ bundle_id b ∈ bundle_id <$> bundles (graph s')
            /\ bundle_id b ∈ bundle_id <$> getBundlesInBundleGroup (graph s') bg)
         assets
    /\ (forall b, b ∈ bundles (graph s') ->
          b ∈ bundles (graph s) \/ exists a, a ∈ assets /\ b = entryBundle host d bg a)
    /\ (forall b, b ∈ getBundlesInBundleGroup (graph s') bg ->
          b ∈ getBundlesInBundleGroup (graph s) bg
          \/ exists a, a ∈ assets /\ b = entryBundle host d bg a).
Proof.
  intros Hopen Htarget bg assets.
  unfold enter. rewrite Hopen. unfold openBundleGroup. rewrite Htarget. simpl.
  set (s1 := mkState _ _ _ _ _).
  destruct (openBundles_graph d bg (length (typeMaps s)) assets s1)
    as (Hgroups & Hnew & _ & _ & Honly & Honlym).
  eexists. split; [reflexivity|].
  split; [|split; [|split]].
  - fold bg assets. rewrite Hgroups. simpl. apply elem_of_app. right.
    by apply list_elem_of_singleton.
  - apply List.Forall_forall. intros a Ha%list_elem_of_In.
    destruct (entryBundle_fields d bg a) as (H1 & H2 & H3 & H4).
    destruct (Hnew a Ha) as [H5 H6]. done.
  - intros b Hb. apply Honly in Hb. done.
  - intros b Hb. apply Honlym in Hb. done.
Qed.
End OpenGroup.

Section ContinueGroup.
Import MutableBundleGraph DefaultBundler Properties.
Context (host : Host).

Lemma foldl_add_groups (bg : BundleGroup) (l : list Bundle) (g : BundleGraph) :
  bundleGroups (foldl (fun g bundle => addBundleToBundleGroup g bundle bg) g l)
  = bundleGroups g.
Proof. revert g. induction l as [|b l IH]; intros g; simpl; [done|]. by rewrite IH. Qed.

Lemma placeAsset_groups (d : Dependency) (parentAsset : Asset) (bg : BundleGroup)
    (bgd : Dependency) (ref siblingBundles : nat) (allSameType : bool)
    (s s' : State) (a : Asset) :
  placeAsset host d parentAsset bg bgd ref siblingBundles allSameType s a = JS.Ok s' ->
  bundleGroups (graph s') = bundleGroups (graph s).
Proof.
  unfold placeAsset.
  destruct (String.eqb _ _).
  - destruct (JS.map_get _ _) as [r|]; destruct allSameType; intros [= <-]; simpl;
      try done. apply foldl_add_groups.
  - destruct (getBundleByType s ref (asset_type a)) as [existing|].
    + destruct (getBundleRoots s existing) as [entry|]; simpl; [|done].
      destruct (JS.map_get _ _); intros [= <-]; done.
    + simpl. destruct (JS.map_get _ _); intros [= <-]; done.
Qed.

Lemma placeAssets_groups (step : State -> Asset -> JS.Result State)
    (assets : list Asset) :
  (forall s s' a, step s a = JS.Ok s' -> bundleGroups (graph s') = bundleGroups (graph s)) ->
  forall s s', placeAssets step s assets = JS.Ok s' ->
               bundleGroups (graph s') = bundleGroups (graph s).
Proof.
  intros Hstep. induction assets as [|a l IH]; intros s s'; simpl.
  - by intros [= <-].
  - destruct (step s a) as [s1|] eqn:Hs1; [|done]. simpl.
    intros H%IH. rewrite H. by eapply Hstep.
Qed.

Lemma continueBundleGroup_groups (node : Node) (d : Dependency) (assets : list Asset)
    (context : option Context) (s : State) (v : Visit (option Context) State) :
  continueBundleGroup host node d assets context s = JS.Ok v ->
  bundleGroups (graph (visit_state v)) = bundleGroups (graph s)
  /\ enclosingGroup (handedDown context v) = enclosingGroup context.
Proof.
  unfold continueBundleGroup.
  destruct context as [c|]; simpl; [|done].
  destruct (parentNode c) as [parentAsset|]; simpl; [|done].
  destruct (bundleGroup c) as [bg|] eqn:Hbg; simpl; [|done].
  destruct (bundleGroupDependency c) as [bgd|]; simpl; [|done].
  destruct (bundleByType c) as [ref|]; simpl; [|done].
  destruct (JS.map_get _ _) as [siblingBundles|]; simpl; [|done].
  destruct (placeAssets _ s assets) as [s'|] eqn:Hs'; simpl; [|done].
  intros [= <-]. simpl. split; [|done].
  eapply placeAssets_groups; [|exact Hs'].
  intros s1 s2 a. apply placeAsset_groups.
Qed.

(** C2, as the code has it. The visitor opens a bundle group at a
    dependency exactly when the dependency has a resolution and is an
    entry, is async, or that resolution is isolated or inline. It then
    creates the group for the dependency and hands it down as the
    enclosing group, or throws when there is no target. At every other
    dependency, one without a resolution among them, the set of bundle
    groups and the enclosing group stay what they were. *)
Theorem enter_opens_group_iff_resolved (d : Dependency) (context : option Context)
    (s : State) :
  let r := getDependencyResolution (graph s) d None in
  (opensBundleGroup d r = true
   <-> exists a, r = Some a
                 /\ (dep_isEntry d = true \/ dep_isAsync d = true
                     \/ asset_isIsolated a = true \/ asset_isInline a = true))
  /\ (opensBundleGroup d r = true ->
      match JS.nullish (dep_target d) (bg_target <$> (context ≫= bundleGroup)) with
      | Some target =>
          exists v, enter host (DependencyNode d) context s = JS.Ok v
                    /\ mkBundleGroup d target ∈ bundleGroups (graph (visit_state v))
                    /\ enclosingGroup (handedDown context v)
                       = Some (mkBundleGroup d target)
      | None => enter host (DependencyNode d) context s = JS.Throw JS.NullthrowsError
      end)
  /\ (opensBundleGroup d r = false ->
      forall v, enter host (DependencyNode d) context s = JS.Ok v ->
                bundleGroups (graph (visit_state v)) = bundleGroups (graph s)
                /\ enclosingGroup (handedDown context v) = enclosingGroup context).
Proof.
  simpl. split; [apply opensBundleGroup_true|]. split.
  - intros Hopen. unfold enter. rewrite Hopen. unfold openBundleGroup.
    destruct (JS.nullish _ _) as [target|]; simpl; [|done].
    set (s1 := mkState _ _ _ _ _).
    destruct (openBundles_graph host d (mkBundleGroup d target) (length (typeMaps s))
                (getDependencyAssets (graph s) d) s1) as (Hgroups & _).
    eexists. split; [reflexivity|]. simpl. split; [|done].
    rewrite Hgroups. simpl. apply elem_of_app. right. by apply list_elem_of_singleton.
  - intros Hopen v. unfold enter. rewrite Hopen. apply continueBundleGroup_groups.
Qed.

End ContinueGroup.

(** C2 as stated fails: the dependency [lazy] of the example is async and
    the visitor opens no group for it, because it resolves to nothing. The
    entry [e] is the only group when the bundler is done. *)
Lemma async_unresolved_opens_no_group :
  dep_isAsync Examples.lazy_dep = true
  /\ Properties.opens_as_specified Examples.lazy_dep
       (MutableBundleGraph.getDependencyResolution Examples.lazy_graph
          Examples.lazy_dep None) = true
  /\ DefaultBundler.opensBundleGroup Examples.lazy_dep
       (MutableBundleGraph.getDependencyResolution Examples.lazy_graph
          Examples.lazy_dep None) = false
  /\ exists g',
       DefaultBundler.bundle Examples.lazy_host Examples.lazy_graph = JS.Ok g'
       /\ bg_id <$> bundleGroups g' = ["e"].
Proof.
  split; [reflexivity|]. split; [reflexivity|]. split; [reflexivity|].
  eexists. split; [vm_compute; reflexivity|]. vm_compute. reflexivity.
Qed.

(** The entry dependency [e] of the example has a resolution and a target:
    the visitor opens its group. *)
Lemma enter_opens_group_iff_resolved_witness :
  let s0 := DefaultBundler.mkState Examples.lazy_graph [] [] [] [] in
  DefaultBundler.opensBundleGroup (Examples.entry_dep "e")
    (MutableBundleGraph.getDependencyResolution Examples.lazy_graph
       (Examples.entry_dep "e") None) = true
  /\ exists v,
       DefaultBundler.enter Examples.lazy_host (DependencyNode (Examples.entry_dep "e"))
         None s0 = JS.Ok v
       /\ mkBundleGroup (Examples.entry_dep "e") Examples.dist
            ∈ bundleGroups (DefaultBundler.graph (visit_state v)).
Proof.
  intros s0. split; [reflexivity|].
  destruct (enter_opens_group_iff_resolved Examples.lazy_host (Examples.entry_dep "e")
              None s0) as (_ & Hopen & _).
  destruct (Hopen eq_refl) as (v & Hv & Hin & _).
  exists v. split; [exact Hv|exact Hin].
Defined.

(** The entry dependency of the example opens its group with the target it
    carries. *)
Lemma enter_opens_group_with_entry_bundles_witness :
  let s0 := DefaultBundler.mkState Examples.lazy_graph [] [] [] [] in
  DefaultBundler.opensBundleGroup (Examples.entry_dep "e")
    (MutableBundleGraph.getDependencyResolution Examples.lazy_graph
       (Examples.entry_dep "e") None) = true
  /\ JS.nullish (dep_target (Examples.entry_dep "e")) None = Some Examples.dist
  /\ exists s',
       DefaultBundler.enter Examples.lazy_host (DependencyNode (Examples.entry_dep "e"))
         None s0
       = JS.Ok (mkVisit
                  (Some (Some {| DefaultBundler.bundleGroup :=
                                   Some (mkBundleGroup (Examples.entry_dep "e") Examples.dist);
                                 DefaultBundler.bundleByType := Some 0%nat;
                                 DefaultBundler.bundleGroupDependency :=
                                   Some (Examples.entry_dep "e");
                                 DefaultBundler.parentNode :=
                                   DependencyNode (Examples.entry_dep "e") |}))
                  false s')
       /\ bundle_id <$> MutableBundleGraph.getBundlesInBundleGroup
                          (DefaultBundler.graph s')
                          (mkBundleGroup (Examples.entry_dep "e") Examples.dist)
          = ["index.js"].
Proof.
  intros s0. split; [reflexivity|]. split; [reflexivity|].
  destruct (enter_opens_group_with_entry_bundles Examples.lazy_host
              (Examples.entry_dep "e") None s0 Examples.dist eq_refl eq_refl)
    as (s' & Henter & _).
  exists s'. split; [exact Henter|].
  vm_compute in Henter. injection Henter as <-. vm_compute. reflexivity.
Defined.


(* ===================================================================== *)
(** * WrapMarker                                                          *)
(* ===================================================================== *)

Section Wrap.
Import MutableBundleGraph WrapBundler Properties.

Lemma getAssetMeta_set_eq (g : BundleGraph) (a a0 : Asset) (key : string) (v : bool) :
  asset_id a0 = asset_id a ->
  getAssetMeta (setAssetMeta g a key v) a0 = <[key := v]> (getAssetMeta g a0).
Proof.
  intros Hid. unfold getAssetMeta, setAssetMeta. simpl.
  by rewrite Hid, lookup_insert_eq.
Qed.

Lemma getAssetMeta_set_ne (g : BundleGraph) (a a0 : Asset) (key : string) (v : bool) :
  asset_id a0 <> asset_id a ->
  getAssetMeta (setAssetMeta g a key v) a0 = getAssetMeta g a0.
Proof.
  intros Hid. unfold getAssetMeta, setAssetMeta. simpl.
  by rewrite lookup_insert_ne.
Qed.

Lemma isWrapped_set (g : BundleGraph) (a a0 : Asset) :
  isWrapped (setAssetMeta g a "shouldWrap" true) a0
  = bool_decide (asset_id a0 = asset_id a) || isWrapped g a0.
Proof.
  unfold isWrapped. destruct (decide (asset_id a0 = asset_id a)) as [Heq|Hne].
  - rewrite getAssetMeta_set_eq by done. rewrite bool_decide_eq_true_2 by done.
    unfold meta_truthy. by rewrite lookup_insert_eq.
  - rewrite getAssetMeta_set_ne by done. by rewrite bool_decide_eq_false_2.
Qed.

(** What the visitor does at a node, case by case. *)
Lemma wrapVisitor_unfold (bundle : Bundle) (node : Node) (c : bool) (g : BundleGraph) :
  wrapVisitor bundle node c g
  = match node with
    | DependencyNode d =>
        if wrapFlag c d then
          JS.Ok (mkVisit (Some true) false
                   match getDependencyResolution g d (Some bundle) with
                   | Some a => setAssetMeta g a "shouldWrap" true
                   | None => g
                   end)
        else JS.Ok (mkVisit None false g)
    | AssetNode _ => JS.Ok (mkVisit None false g)
    end.
Proof. by destruct node. Qed.

Lemma wrapVisitor_total (bundle : Bundle) (node : Node) (c : bool) (g : BundleGraph) :
  exists v, wrapVisitor bundle node c g = JS.Ok v.
Proof.
  rewrite wrapVisitor_unfold. destruct node as [a|d]; [eauto|].
  destruct (wrapFlag c d); eauto.
Qed.

Lemma wrapped_from_refl (g : BundleGraph) : wrapped_from g g.
Proof. repeat split; try done. by left. Qed.

Lemma wrapped_from_trans (g1 g2 g3 : BundleGraph) :
  wrapped_from g1 g2 -> wrapped_from g2 g3 -> wrapped_from g1 g3.
Proof.
  intros (Ha & Hb & Hg & Hm & Hc & Hi & Hr & Hmeta)
         (Ha' & Hb' & Hg' & Hm' & Hc' & Hi' & Hr' & Hmeta').
  split; [congruence|]. split; [congruence|]. split; [congruence|].
  split; [congruence|]. split; [congruence|]. split; [congruence|].
  split; [congruence|].
  intros a. destruct (Hmeta' a) as [->| ->]; destruct (Hmeta a) as [->| ->];
    [by left|by right|by right|right; apply insert_insert_eq].
Qed.

Lemma setAssetMeta_wrapped_from (g : BundleGraph) (a : Asset) :
  wrapped_from g (setAssetMeta g a "shouldWrap" true).
Proof.
  repeat split; try done. intros a0.
  destruct (decide (asset_id a0 = asset_id a)) as [Heq|Hne].
  - right. by apply getAssetMeta_set_eq.
  - left. by apply getAssetMeta_set_ne.
Qed.

Lemma wrapVisitor_wrapped_from (bundle : Bundle) (n : Node) (c : bool)
    (s : BundleGraph) (v : Visit bool BundleGraph) :
  wrapVisitor bundle n c s = JS.Ok v -> wrapped_from s (visit_state v).
Proof.
  rewrite wrapVisitor_unfold. destruct n as [a|d]; [intros [= <-]; apply wrapped_from_refl|].
  destruct (wrapFlag c d); intros [= <-]; simpl; [|apply wrapped_from_refl].
  destruct (getDependencyResolution s d (Some bundle));
    [apply setAssetMeta_wrapped_from|apply wrapped_from_refl].
Qed.

End Wrap.

Section WrapTheorems.
Import MutableBundleGraph WrapBundler Properties.
Context (host : Host).

Lemma wrapBundle_wrapped_from (bundle : Bundle) (u : unit) (g g' : BundleGraph) :
  wrapBundle host bundle u g = JS.Ok g' -> wrapped_from g g'.
Proof.
  apply (traverse_preserves _ _ _ (wrapped_from g)); [| |apply wrapped_from_refl].
  - intros n c s v Hs Hv. eapply wrapped_from_trans; [exact Hs|].
    by eapply wrapVisitor_wrapped_from.
  - by intros n c s s' Hs [= <-].
Qed.

Lemma wrapBundle_total (bundle : Bundle) (u : unit) (g : BundleGraph) :
  exists g', wrapBundle host bundle u g = JS.Ok g'.
Proof.
  apply traverse_total; [apply wrapVisitor_total|]. intros n c s. by exists s.
Qed.

(** The context that the visitor hands down is [wrapContext]. *)
Lemma wrapVisitor_context (bundle : Bundle) (n : Node) (c : bool) (s : BundleGraph)
    (v : Visit bool BundleGraph) :
  wrapVisitor bundle n c s = JS.Ok v ->
  visit_skipChildren v = false /\ default c (visit_context v) = wrapContext c n.
Proof.
  rewrite wrapVisitor_unfold. destruct n as [a|d]; [by intros [= <-]|].
  cbn [wrapContext]. destruct (wrapFlag c d) eqn:Hflag; intros [= <-]; [done|].
  split; [done|]. cbn [default visit_context].
  unfold wrapFlag in Hflag. by apply orb_false_elim in Hflag as [-> _].
Qed.

(** Once the flag is set it is handed down set. *)
Lemma wrapContext_true (c : bool) (n : Node) : c = true -> wrapContext c n = true.
Proof. intros ->. by destruct n. Qed.

Lemma in_pass_start (g : BundleGraph) : in_pass host g g.
Proof. split; [apply wrapped_from_refl|]. intros a. by left. Qed.

Lemma wrapped_from_marks_kept (s s' : BundleGraph) :
  wrapped_from s s' -> marks_kept s s'.
Proof.
  intros (_ & _ & _ & _ & _ & _ & _ & Hmeta) a. unfold isWrapped.
  destruct (Hmeta a) as [->| ->]; [done|]. intros _.
  unfold meta_truthy. by rewrite lookup_insert_eq.
Qed.

Lemma marks_done_kept (g : BundleGraph) (bundle : Bundle) (s s' : BundleGraph)
    (v : Node * bool) :
  marks_done g bundle s v -> wrapped_from s s' -> marks_done g bundle s' v.
Proof.
  intros Hdone Hkept d a Hd Hflag Hres.
  by eapply (wrapped_from_marks_kept s s' Hkept), Hdone.
Qed.

(** One visit of the wrap visitor in the traversal of [bundle] that began
    in the graph [s0]. *)
Lemma wrapVisitor_step (g s0 : BundleGraph) (bundle : Bundle) (n : Node) (c : bool)
    (s : BundleGraph) (v : Visit bool BundleGraph) :
  bundle ∈ bundleVisits host g -> wrapped_from g s0 ->
  (n, c) ∈ wrapVisits host s0 bundle ≫= tree_nodes ->
  in_pass host g s ->
  wrapVisitor bundle n c s = JS.Ok v ->
  in_pass host g (visit_state v)
  /\ wrapped_from s (visit_state v)
  /\ marks_done g bundle (visit_state v) (n, c).
Proof.
  intros Hbundle Hs0 Hvisit [Hframe Hmarks] Hv.
  split; [|split; [by eapply wrapVisitor_wrapped_from|]]; revert Hv;
    rewrite wrapVisitor_unfold.
  all: pose proof Hframe as (Hag & _).
  all: destruct n as [x|d]; [intros [= <-]; cbn [visit_state]; try done;
                             by intros d a [=]|].
  all: destruct (wrapFlag c d) eqn:Hflag; cycle 1.
  1, 3: intros [= <-]; cbn [visit_state]; try done;
        intros d' a [= <-] Hflag'; cbn [snd] in Hflag'; congruence.
  all: rewrite (getDependencyResolution_same g s d (Some bundle) Hag).
  all: destruct (getDependencyResolution g d (Some bundle)) as [r|] eqn:Hres; cycle 1.
  1, 3: intros [= <-]; cbn [visit_state]; try done;
        intros d' a [= <-] _ Hres'; congruence.
  all: intros [= <-]; cbn [visit_state].
  - split.
    + eapply wrapped_from_trans; [exact Hframe|apply setAssetMeta_wrapped_from].
    + intros a. destruct (decide (asset_id a = asset_id r)) as [Heq|Hne].
      * right. exists bundle, s0, d, c. split; [done|]. split; [done|]. split; [done|].
        split; [done|]. by exists r.
      * rewrite getAssetMeta_set_ne by done. apply Hmarks.
  - intros d' a [= <-] _ Hres'. rewrite Hres in Hres'. injection Hres' as <-.
    rewrite isWrapped_set. by rewrite bool_decide_eq_true_2.
Qed.

(** The traversal of one bundle. *)
Lemma wrapBundle_walked (g : BundleGraph) (bundle : Bundle) (s s' : BundleGraph) :
  bundle ∈ bundleVisits host g -> in_pass host g s ->
  wrapBundle host bundle tt s = JS.Ok s' ->
  in_pass host g s' /\ wrapped_from s s'
  /\ forall v, v ∈ wrapVisits host s bundle ≫= tree_nodes -> marks_done g bundle s' v.
Proof.
  intros Hbundle Hs Hwrap.
  pose proof (traverse_walked node_id (wrapVisitor bundle) no_exit wrapContext
                (fun v => v ∈ wrapVisits host s bundle ≫= tree_nodes)
                (in_pass host g) wrapped_from
                (fun n c s1 => marks_done g bundle s1 (n, c))
                (fun _ _ _ => True)
                wrapped_from_refl wrapped_from_trans
                (wrapVisitor_context bundle)) as Hwalk.
  specialize (Hwalk
    ltac:(intros n c s1 v Hv Hs1 Hvisit;
            by apply (wrapVisitor_step g s bundle n c s1 v Hbundle (proj1 Hs)))
    ltac:(intros n c s1 s2 _ Hs1 [= <-]; split; [done|split; [apply wrapped_from_refl|done]])
    ltac:(intros n c s1 s2; apply marks_done_kept)
    ltac:(done)
    (host_bundleTraverse host s bundle) false s ltac:(done) Hs).
  unfold wrapBundle in Hwrap. rewrite Hwrap in Hwalk.
  destruct Hwalk as (Hs' & Hkept & Hdone). split; [done|]. split; [done|].
  intros [n c] Hv. by destruct (Hdone _ Hv) as [H _].
Qed.

(** The whole pass. *)
Lemma bundle_walked (g : BundleGraph) :
  exists g',
    WrapBundler.bundle host g = JS.Ok g'
    /\ in_pass host g g'
    /\ forall bundle,
         bundle ∈ bundleVisits host g ->
         exists s, wrapped_from g s /\ wrapped_from s g'
                   /\ forall v, v ∈ wrapVisits host s bundle ≫= tree_nodes ->
                                marks_done g bundle g' v.
Proof.
  pose proof (traverse_walked bundle_id no_enter (wrapBundle host) same_context
                (fun v => v.1 ∈ bundleVisits host g)
                (in_pass host g) wrapped_from
                (fun _ _ _ => True)
                (fun bundle (_ : unit) s' =>
                   exists s, wrapped_from g s /\ wrapped_from s s'
                             /\ forall v, v ∈ wrapVisits host s bundle ≫= tree_nodes ->
                                          marks_done g bundle s' v)
                wrapped_from_refl wrapped_from_trans) as Hwalk.
  specialize (Hwalk
    ltac:(by intros n c s v [= <-])
    ltac:(intros n c s v _ Hs [= <-]; split; [done|split; [apply wrapped_from_refl|done]])).
  assert (Hexit : forall bundle (c : unit) s s',
            bundle ∈ bundleVisits host g -> in_pass host g s ->
            wrapBundle host bundle (same_context c bundle) s = JS.Ok s' ->
            in_pass host g s' /\ wrapped_from s s'
            /\ exists s0, wrapped_from g s0 /\ wrapped_from s0 s'
                          /\ forall v, v ∈ wrapVisits host s0 bundle ≫= tree_nodes ->
                                       marks_done g bundle s' v).
  { intros bundle [] s s' Hbundle Hs Hwrap.
    destruct (wrapBundle_walked g bundle s s' Hbundle Hs Hwrap) as (Hs' & Hkept & Hdone).
    split; [done|]. split; [done|]. exists s. split; [apply Hs|done]. }
  specialize (Hwalk Hexit
    ltac:(done)
    ltac:(intros bundle c s s' (s0 & Hs0 & Hs0' & Hdone) Hkept; exists s0;
            split; [done|]; split; [by eapply wrapped_from_trans|];
            intros v Hv; by eapply marks_done_kept; [apply Hdone|])
    (host_traverseBundles host g) tt g
    ltac:(intros v Hv; unfold bundleVisits; by apply list_elem_of_fmap_2)
    (in_pass_start g)).
  destruct (traverse_total bundle_id no_enter (wrapBundle host)
              (fun n c s => ex_intro _ (mkVisit None false s) eq_refl)
              (fun n c s => wrapBundle_total n c s)
              (host_traverseBundles host g) tt g) as [g' Hg'].
  rewrite Hg' in Hwalk. destruct Hwalk as (Hpass & _ & Hdone).
  exists g'. split; [exact Hg'|]. split; [done|].
  intros bundle (v & -> & Hv)%list_elem_of_fmap. destruct v as [b []].
  by destruct (Hdone _ Hv) as [_ H].
Qed.

(** The visits made from a dependency that hands the flag down. *)
Lemma flagged_children (roots : list (VisitTree Node)) (vt : VisitTree (Node * bool))
    (d : Dependency) (c : bool) :
  vt ∈ visits node_id wrapContext roots false ≫= subtrees ->
  root vt = (DependencyNode d, c) -> wrapFlag c d = true ->
  (exists children seen,
      VNode (DependencyNode d) children ∈ roots ≫= subtrees
      /\ (dep_id d ∉ seen)
      /\ children_of vt
         = (visitAll node_id wrapContext children true (dep_id d :: seen, [])).2)
  /\ forall v, v ∈ children_of vt ≫= tree_nodes -> v.2 = true.
Proof.
  intros (n & c0 & children & seen & Hin & Hfresh & ->)%visits_subtrees_form
         [= -> ->] Hflag.
  cbn [children_of wrapContext node_id] in *. rewrite Hflag. split.
  - by exists children, seen.
  - intros v Hv.
    by apply (visitAll_contexts node_id wrapContext (fun c => c = true)
                (fun c n => wrapContext_true c n) children true (dep_id d :: seen) v).
Qed.

(** The nodes below a tree of a forest are nodes of the forest. *)
Lemma forest_children_nodes {N : Type} (F : list (VisitTree N)) (vt : VisitTree N)
    (x : N) :
  vt ∈ F ≫= subtrees -> x ∈ children_of vt ≫= tree_nodes -> x ∈ F ≫= tree_nodes.
Proof.
  intros (t & Hvt & Ht)%list_elem_of_bind Hx. apply list_elem_of_bind.
  exists t. split; [by eapply children_nodes|done].
Qed.

Lemma forest_root_nodes {N : Type} (F : list (VisitTree N)) (vt : VisitTree N) :
  vt ∈ F ≫= subtrees -> root vt ∈ F ≫= tree_nodes.
Proof.
  intros (t & Hvt & Ht)%list_elem_of_bind. apply list_elem_of_bind.
  exists t. split; [|done]. apply tree_nodes_subtrees. by exists vt.
Qed.

(** What the pass leaves of the [meta] of an asset. *)
Lemma in_pass_meta (g g' : BundleGraph) (a : Asset) :
  in_pass host g g' ->
  getAssetMeta g' a = getAssetMeta g a
  \/ (getAssetMeta g' a = <["shouldWrap" := true]> (getAssetMeta g a)
      /\ marked_in_pass host g a).
Proof.
  intros [(_ & _ & _ & _ & _ & _ & _ & Hmeta) Hmarks].
  destruct (Hmarks a) as [Hsame|Hmark]; [by left|].
  destruct (Hmeta a) as [Hsame|Hset]; [by left|by right].
Qed.


End WrapTheorems.



(* ===================================================================== *)
(** * Further facts about traversals                                      *)
(* ===================================================================== *)

Section TraverseThrows.
Import MutableBundleGraph.
Context {N C S : Type}.
Variable id_of : N -> string.
Variable enter : N -> C -> S -> JS.Result (Visit C S).
Variable exit : N -> C -> S -> JS.Result S.

(** An error that ends a traversal was thrown by one of its hooks. *)
Variable Q : JS.Error -> Prop.
Hypothesis enter_throws : forall n c s e, enter n c s = JS.Throw e -> Q e.
Hypothesis exit_throws : forall n c s e, exit n c s = JS.Throw e -> Q e.

Lemma walk_throws (t : VisitTree N) :
  forall ctx st e, walk id_of enter exit t ctx st = JS.Throw e -> Q e.
Proof.
  induction t as [n children IH] using VisitTree_ind.
  intros ctx st e. rewrite walk_unfold.
  destruct (bool_decide _); [done|].
  destruct (enter n ctx st.2) as [v|e'] eqn:Hv; simpl;
    [|intros [= <-]; by eapply enter_throws].
  destruct (visit_skipChildren v); [done|].
  set (ctx' := default ctx (visit_context v)).
  assert (Hall : forall st1 e1,
            walk_all id_of enter exit children ctx' st1 = JS.Throw e1 -> Q e1).
  { induction IH as [|t ts Ht _ IHts]; intros st1 e1; simpl; [done|].
    destruct (walk id_of enter exit t ctx' st1) as [st1'|e2] eqn:Hw; simpl.
    - apply IHts.
    - intros [= <-]. by eapply Ht. }
  destruct (walk_all _ _ _ children ctx' _) as [st2|e2] eqn:Hk; simpl;
    [|intros [= <-]; by eapply Hall].
  destruct (exit n ctx' st2.2) as [s3|e3] eqn:Hx; simpl; [done|].
  intros [= <-]. by eapply exit_throws.
Qed.

Lemma traverse_throws (roots : list (VisitTree N)) (ctx : C) (s : S) (e : JS.Error) :
  traverse id_of enter exit roots ctx s = JS.Throw e -> Q e.
Proof.
  unfold traverse.
  assert (Hall : forall st e1,
            walk_all id_of enter exit roots ctx st = JS.Throw e1 -> Q e1).
  { induction roots as [|t ts IH]; intros st e1; simpl; [done|].
    destruct (walk id_of enter exit t ctx st) as [st1|e2] eqn:Hw; simpl.
    - apply IH.
    - intros [= <-]. by eapply walk_throws. }
  destruct (walk_all _ _ _ roots ctx _) as [st|e1] eqn:Hw; simpl; [done|].
  intros [= <-]. by eapply Hall.
Qed.
End TraverseThrows.

(* ===================================================================== *)
(** * OptimizingBundler: which steps can fail                             *)
(* ===================================================================== *)

Section OptimizeErrors.
Import MutableBundleGraph OptimizeBundler Properties.
Context (host : Host) (md5FromString : string -> string).

Lemma hoistStep_total (g : BundleGraph) : exists g', hoistStep host g = JS.Ok g'.
Proof.
  apply traverse_total.
  - intros n c s. by eexists.
  - intros n c s. by exists s.
Qed.

Lemma deduplicateBundle_total (g : BundleGraph) (bundle : Bundle) :
  exists g', deduplicateBundle host g bundle = JS.Ok g'.
Proof.
  unfold deduplicateBundle. destruct (_ || _); [by eexists|].
  apply traverse_total.
  - intros [a|d] c s; by eexists.
  - intros n c s. by exists s.
Qed.

Lemma deduplicateStep_total (g : BundleGraph) : exists g', deduplicateStep host g = JS.Ok g'.
Proof.
  apply traverse_total.
  - intros n c s. by eexists.
  - intros n c s. apply deduplicateBundle_total.
Qed.

Lemma foldl_set_add_bundle_nonempty (l : list Bundle) :
  l <> [] -> foldl set_add_bundle [] l <> [].
Proof.
  destruct l as [|b l]; [done|]. intros _ Hnil. simpl in Hnil.
  pose proof (foldl_set_add_bundle_length l (set_add_bundle [] b)) as Hlen.
  rewrite Hnil in Hlen. unfold set_add_bundle in Hlen. simpl in Hlen. lia.
Qed.

Lemma collectVisitor_sources (g : BundleGraph) (node : Node) (u : unit)
    (candidateBundles : list (string * Candidate))
    (v : Visit unit (list (string * Candidate))) :
  Forall (fun e => sourceBundles e.2 <> []) candidateBundles ->
  collectVisitor g node u candidateBundles = JS.Ok v ->
  Forall (fun e => sourceBundles e.2 <> []) (visit_state v).
Proof.
  intros Hall. destruct node as [asset|d]; simpl; [|by intros [= <-]].
  set (containingBundles := List.filter _ _).
  destruct (Nat.ltb_spec minBundles (length containingBundles)) as [Hlen|Hlen];
    [|by intros [= <-]].
  intros [= <-]. simpl.
  destruct (JS.map_get _ candidateBundles) as [candidate|] eqn:Hget.
  - pose proof (map_get_Some (fun c => sourceBundles c <> []) _ _ _ Hall Hget) as Hc.
    apply (map_set_Forall (fun c => sourceBundles c <> [])); [done|]. simpl.
    intros Hnil.
    pose proof (foldl_set_add_bundle_length containingBundles (sourceBundles candidate))
      as Hle.
    rewrite Hnil in Hle. simpl in Hc.
    destruct (sourceBundles candidate); [congruence|simpl in Hle; lia].
  - apply (map_set_Forall (fun c => sourceBundles c <> [])); [done|]. simpl.
    apply foldl_set_add_bundle_nonempty. intros Hnil. rewrite Hnil in Hlen.
    unfold minBundles in Hlen. simpl in Hlen. lia.
Qed.

Lemma extractAll_total (cs : list Candidate) :
  Forall (fun c => sourceBundles c <> []) cs ->
  forall g, exists g', extractAll host md5FromString g cs = JS.Ok g'.
Proof.
  induction 1 as [|c cs Hc _ IH]; intros g; simpl; [by eexists|].
  assert (exists g1, extractCandidate host md5FromString g c = JS.Ok g1) as [g1 ->].
  { unfold extractCandidate. destruct (overLimit g _); [by eexists|].
    destruct (sourceBundles c) as [|firstBundle rest]; [done|].
    destruct (createBundle host g _) as [sharedBundle g1].
    apply deduplicateBundle_total. }
  simpl. apply IH.
Qed.

Lemma extractStep_total (g : BundleGraph) :
  exists g', extractStep host md5FromString g = JS.Ok g'.
Proof.
  unfold extractStep.
  destruct (collectCandidates_total host g) as [cands Hc]. rewrite Hc. simpl.
  apply extractAll_total. unfold sortedCandidates.
  eapply Permutation_Forall; [symmetry; apply sort_Permutation|].
  apply List.Forall_forall. intros c [Hin _]%filter_In. revert c Hin.
  apply List.Forall_forall, map_values_Forall.
  unfold collectCandidates in Hc.
  eapply (traverse_preserves _ _ _
            (fun m => Forall (fun e => sourceBundles e.2 <> []) m));
    [| |constructor|exact Hc].
  - intros n c s v Hs Hv. eapply collectVisitor_sources; eauto.
  - by intros n c s s' Hs [= <-].
Qed.

Lemma internalizeVisitor_throws (node : Node) (u : unit)
    (st : BundleGraph * list BundleGroup) (e : JS.Error) :
  internalizeVisitor node u st = JS.Throw e -> e = JS.AssertionError.
Proof.
  destruct st as [g groups]. destruct node as [a|d]; simpl; [done|].
  destruct (_ || _); [done|].
  destruct (getDependencyResolution g d None); [|done].
  destruct (resolveExternalDependency g d) as [[value|x]|]; [done| |];
    by intros [= <-].
Qed.

(** X1. Hoisting, deduplication and shared-bundle extraction never throw:
    the candidate loop reads [firstBundle] from a set that is never empty.
    The only error [bundle] can end with is the AssertionError of the
    internalization pass; when that pass succeeds, [bundle] returns the
    graph it left, with the orphaned async groups removed. *)
Theorem bundle_fails_only_in_internalization (g : BundleGraph) :
  exists g1 g2 g3,
    hoistStep host g = JS.Ok g1
    /\ deduplicateStep host g1 = JS.Ok g2
    /\ extractStep host md5FromString g2 = JS.Ok g3
    /\ match internalizeStep host g3 with
       | JS.Ok (g4, asyncBundleGroups) =>
           bundle host md5FromString g = JS.Ok (pruneStep g4 asyncBundleGroups)
       | JS.Throw e =>
           e = JS.AssertionError
           /\ bundle host md5FromString g = JS.Throw JS.AssertionError
       end.
Proof.
  destruct (hoistStep_total g) as [g1 H1].
  destruct (deduplicateStep_total g1) as [g2 H2].
  destruct (extractStep_total g2) as [g3 H3].
  exists g1, g2, g3. split; [done|]. split; [done|]. split; [done|].
  unfold bundle. rewrite H1. simpl. rewrite H2. simpl. rewrite H3. simpl.
  destruct (internalizeStep host g3) as [[g4 groups]|e] eqn:H4; simpl; [done|].
  assert (e = JS.AssertionError) as ->; [|done].
  unfold internalizeStep in H4.
  eapply (traverse_throws _ _ _ (fun e => e = JS.AssertionError)); [| |exact H4].
  - intros n c s e'. apply internalizeVisitor_throws.
  - intros n c s e'. done.
Qed.
End OptimizeErrors.

(* ===================================================================== *)
(** * OptimizingBundler: what hoisting leaves alone                       *)
(* ===================================================================== *)

Section HoistFrame.
Import MutableBundleGraph OptimizeBundler Properties.
Context (host : Host).

Lemma contentsOf_contents (g : BundleGraph) (b : Bundle) :
  contents_of g b = contentsOf g (bundle_id b).
Proof. done. Qed.

Lemma hoisted_from_refl (g : BundleGraph) : hoisted_from g g.
Proof.
  repeat split; try done. intros id. exists []. by rewrite app_nil_r.
Qed.

Lemma hoisted_from_trans (g1 g2 g3 : BundleGraph) :
  hoisted_from g1 g2 -> hoisted_from g2 g3 -> hoisted_from g1 g3.
Proof.
  intros (Ha & Hb & Hg & Hi & Hr & Hm & Hmem & Hsub & Hprot)
         (Ha' & Hb' & Hg' & Hi' & Hr' & Hm' & Hmem' & Hsub' & Hprot').
  split; [congruence|]. split; [congruence|]. split; [congruence|].
  split; [congruence|]. split; [congruence|]. split; [congruence|].
  split; [|split].
  - intros id. destruct (Hmem id) as [e1 H1]. destruct (Hmem' id) as [e2 H2].
    exists (e1 ++ e2)%list. by rewrite H2, H1, app_assoc.
  - intros id x Hx. by apply Hsub, Hsub'.
  - intros Hd b Hin Hp. rewrite Hprot'; [by apply Hprot| |by rewrite Hb|done].
    unfold distinct_bundles. by rewrite Hb.
Qed.

Lemma add_all_contents (toAdd : list Bundle) (bgs : list BundleGroup) (g : BundleGraph) :
  let g' :=
    foldl
      (fun g bundleGroup =>
         foldl (fun g bundleToAdd => addBundleToBundleGroup g bundleToAdd bundleGroup)
               g toAdd)
      g bgs in
  assetGraph g' = assetGraph g /\ bundles g' = bundles g
  /\ bundleGroups g' = bundleGroups g /\ internalized g' = internalized g
  /\ assetReferences g' = assetReferences g /\ assetMeta g' = assetMeta g
  /\ bundleContents g' = bundleContents g.
Proof.
  simpl. revert g. induction bgs as [|bg bgs IH]; intros g; simpl; [done|].
  destruct (IH (foldl (fun g b => addBundleToBundleGroup g b bg) g toAdd))
    as (-> & -> & -> & -> & -> & -> & ->).
  clear IH. revert g. induction toAdd as [|b l IHl]; intros g; simpl; [done|].
  destruct (IHl (addBundleToBundleGroup g b bg)) as (-> & -> & -> & -> & -> & -> & ->).
  done.
Qed.

Lemma hoistInto_hoisted_from (bundle : Bundle) (siblings : list Bundle)
    (mainEntry : Asset) (g : BundleGraph) (candidate : Bundle) :
  candidate ∈ bundles g -> protectedBundle candidate = false ->
  hoisted_from g (hoistInto bundle siblings mainEntry g candidate).
Proof.
  intros Hin Hunprot. unfold hoistInto.
  destruct (forallb _ _); [|apply hoisted_from_refl].
  set (bgs := getBundleGroupsContainingBundle g candidate).
  set (g1 := removeAssetGraphFromBundle g mainEntry candidate).
  destruct (add_all_contents (bundle :: siblings) bgs g1)
    as (Ha & Hb & Hg & Hi & Hr & Hm & Hc).
  split; [by rewrite Ha|]. split; [by rewrite Hb|]. split; [by rewrite Hg|].
  split; [by rewrite Hi|]. split; [by rewrite Hr|]. split; [by rewrite Hm|].
  split; [|split].
  - intros id.
    destruct (grown_by_add_all (bundle :: siblings) bgs g1 id) as (extra & He & _).
    exists extra. exact He.
  - intros id x. unfold contentsOf. rewrite Hc. unfold g1. simpl.
    destruct (decide (id = bundle_id candidate)) as [->|Hne].
    + rewrite lookup_insert_eq. simpl. intros Hx%list_elem_of_difference. apply Hx.
    + by rewrite lookup_insert_ne.
  - intros Hd b Hbin Hprot. unfold contentsOf. rewrite Hc. unfold g1. simpl.
    rewrite lookup_insert_ne; [done|]. intros Hid.
    assert (candidate = b) as -> by (by eapply distinct_bundles_inj).
    congruence.
Qed.

Lemma hoistBundle_hoisted_from (g : BundleGraph) (bundle : Bundle) :
  hoisted_from g (hoistBundle g bundle).
Proof.
  unfold hoistBundle.
  destruct (_ || _); [apply hoisted_from_refl|].
  destruct (getMainEntry bundle) as [mainEntry|]; [|apply hoisted_from_refl].
  set (siblings := List.filter _ (getSiblingBundles g bundle)).
  set (candidates := List.filter _ (findBundlesWithAsset g mainEntry)).
  assert (Hcands : forall c, c ∈ candidates ->
            c ∈ bundles g /\ protectedBundle c = false).
  { intros c [Hc Hflags]%filter_elem_of.
    apply filter_elem_of in Hc as [Hc _]. split; [done|].
    apply andb_prop in Hflags as [[[_ He]%andb_prop Hi]%andb_prop Hs].
    unfold protectedBundle. apply negb_true_iff in He, Hi. by rewrite He, Hi, Hs. }
  assert (Hfold : forall l s,
            (forall c, c ∈ l -> c ∈ candidates) -> hoisted_from g s ->
            hoisted_from g (foldl (hoistInto bundle siblings mainEntry) s l)).
  { induction l as [|c l IH]; intros s Hl Hs; simpl; [done|].
    apply IH; [intros c' Hc'; apply Hl; apply elem_of_cons; by right|].
    eapply hoisted_from_trans; [exact Hs|].
    destruct (Hcands c) as [Hc Hp]; [apply Hl; apply elem_of_cons; by left|].
    apply hoistInto_hoisted_from; [|done].
    destruct Hs as (_ & -> & _). done. }
  apply Hfold; [done|apply hoisted_from_refl].
Qed.

Lemma hoistStep_hoisted_from (g g' : BundleGraph) :
  hoistStep host g = JS.Ok g' -> hoisted_from g g'.
Proof.
  apply (traverse_preserves _ _ _ (hoisted_from g)); [| |apply hoisted_from_refl].
  - intros n c s v Hs [= <-]. simpl.
    eapply hoisted_from_trans; [exact Hs|apply hoistBundle_hoisted_from].
  - by intros n c s s' Hs [= <-].
Qed.

(** X2. The hoisting pass creates and removes no bundle and no bundle
    group, internalizes nothing and writes no asset reference or [meta].
    It only adds bundles to bundle groups, after the members a group had,
    and only takes nodes out of bundles. *)
Theorem hoistStep_only_adds_members (g g' : BundleGraph) :
  hoistStep host g = JS.Ok g' ->
  bundles g' = bundles g
  /\ bundleGroups g' = bundleGroups g
  /\ internalized g' = internalized g
  /\ assetReferences g' = assetReferences g
  /\ assetMeta g' = assetMeta g
  /\ (forall bg, exists extra,
        getBundlesInBundleGroup g' bg = (getBundlesInBundleGroup g bg ++ extra)%list)
  /\ (forall b x, x ∈ contents_of g' b -> x ∈ contents_of g b).
Proof.
  intros (_ & Hb & Hg & Hi & Hr & Hm & Hmem & Hsub & _)%hoistStep_hoisted_from.
  repeat (split; [done|]). split.
  - intros bg. apply Hmem.
  - intros b x. apply Hsub.
Qed.

(** X3. In a graph whose bundles have distinct ids, the hoisting pass takes
    nothing out of an entry bundle, an inline bundle or a bundle that is
    not splittable: the candidates it removes the hoisted entry from are
    filtered to the other bundles. *)
Theorem hoistStep_keeps_protected_bundles (g g' : BundleGraph) (b : Bundle) :
  distinct_bundles g ->
  b ∈ bundles g ->
  bundle_isEntry b = true \/ bundle_isInline b = true \/ bundle_isSplittable b = false ->
  hoistStep host g = JS.Ok g' ->
  contents_of g' b = contents_of g b.
Proof.
  intros Hd Hb Hflags (_ & _ & _ & _ & _ & _ & _ & _ & Hprot)%hoistStep_hoisted_from.
  apply Hprot; [done|done|]. unfold protectedBundle.
  destruct Hflags as [-> | [-> | ->]]; by rewrite ?orb_true_r.
Qed.
End HoistFrame.

(* ===================================================================== *)
(** * OptimizingBundler: what deduplication removes                       *)
(* ===================================================================== *)

Section DeduplicateFrame.
Import MutableBundleGraph OptimizeBundler Properties.
Context (host : Host).

(** Ancestors when one bundle has lost nodes. *)
Section FewerNodes.
Context (b : Bundle) (g g' : BundleGraph).
Hypothesis Hbundles : bundles g' = bundles g.
Hypothesis Hgroups : bundleGroups g' = bundleGroups g.
Hypothesis Hmembers : groupMembers g' = groupMembers g.
Hypothesis Hinternalized : internalized g' = internalized g.
Hypothesis Hothers : forall id, id <> bundle_id b -> contentsOf g' id = contentsOf g id.
Hypothesis Hshrunk :
  forall x, x ∈ contentsOf g' (bundle_id b) -> x ∈ contentsOf g (bundle_id b).

Lemma contentsOf_shrunk (id x : string) : x ∈ contentsOf g' id -> x ∈ contentsOf g id.
Proof.
  destruct (decide (id = bundle_id b)) as [->|Hne]; [apply Hshrunk|].
  by rewrite Hothers.
Qed.

Lemma hasDependency_shrunk (p : Bundle) (d : Dependency) :
  hasDependency g' p d = true -> hasDependency g p d = true.
Proof.
  unfold hasDependency. rewrite !bool_decide_eq_true. apply contentsOf_shrunk.
Qed.

Lemma hasAsset_shrunk (p : Bundle) (a : Asset) :
  hasAsset g' p a = true -> hasAsset g p a = true.
Proof.
  unfold hasAsset. rewrite !bool_decide_eq_true. apply contentsOf_shrunk.
Qed.

Lemma parentBundles_shrunk (p x : Bundle) :
  x ∈ parentBundles g' p -> x ∈ parentBundles g p.
Proof.
  unfold parentBundles, getBundleGroupsContainingBundle, getBundlesInBundleGroup.
  rewrite Hgroups, Hmembers. rewrite !list_elem_of_bind.
  intros (bg & Hx & Hbg). exists bg. split; [|done].
  unfold getParentBundlesOfBundleGroup in *. rewrite Hbundles, Hinternalized in Hx.
  apply filter_elem_of in Hx as [Hx Hp]. apply filter_elem_of. split; [done|].
  apply andb_prop in Hp as [Hd Hn]. by rewrite (hasDependency_shrunk _ _ Hd), Hn.
Qed.

Lemma ancestorBundles_shrunk (n : nat) :
  forall (frontier frontier' : list Bundle) (x : Bundle),
    (forall y, y ∈ frontier' -> y ∈ frontier) ->
    x ∈ ancestorBundles g' n frontier' -> x ∈ ancestorBundles g n frontier.
Proof.
  induction n as [|n IH]; intros frontier frontier' x Hsub; simpl; [done|].
  assert (forall y, y ∈ frontier' ≫= parentBundles g' -> y ∈ frontier ≫= parentBundles g)
    as Hparents.
  { intros y. rewrite !list_elem_of_bind. intros (z & Hy & Hz).
    exists z. split; [by apply parentBundles_shrunk|by apply Hsub]. }
  rewrite !elem_of_app. intros [Hx|Hx]; [left; by apply Hparents|right].
  eapply IH; [exact Hparents|exact Hx].
Qed.

Lemma isAssetInAncestorBundles_shrunk (a : Asset) :
  isAssetInAncestorBundles g' b a = true -> isAssetInAncestorBundles g b a = true.
Proof.
  unfold isAssetInAncestorBundles. rewrite !existsb_exists.
  intros (x & Hx & Hp). exists x. split.
  - apply list_elem_of_In. apply list_elem_of_In in Hx. rewrite Hbundles in Hx.
    eapply ancestorBundles_shrunk; [|exact Hx]. done.
  - apply andb_prop in Hp as [Hne Ha]. rewrite Hne. simpl. by apply hasAsset_shrunk.
Qed.
End FewerNodes.

Lemma deduplicated_from_refl (b : Bundle) (g : BundleGraph) : deduplicated_from b g g.
Proof. repeat split; try done. Qed.

Lemma deduplicated_from_step (b : Bundle) (g s : BundleGraph) (a : Asset) :
  deduplicated_from b g s ->
  deduplicated_from b g
    (if hasAsset s b a && isAssetInAncestorBundles s b a
     then removeAssetGraphFromBundle s a b else s).
Proof.
  intros Hs. destruct (hasAsset s b a && isAssetInAncestorBundles s b a) eqn:Hcond;
    [|done].
  apply andb_prop in Hcond as [Hhas Hanc].
  destruct Hs as (Ha & Hb & Hg & Hm & Hi & Hr & Hmeta & Hothers & Hshrunk & Hwhy).
  assert (Hnew : forall x,
            x ∈ contentsOf (removeAssetGraphFromBundle s a b) (bundle_id b)
            <-> x ∈ contentsOf s (bundle_id b)
                /\ x ∉ ag_subgraph (assetGraph s) (asset_id a)).
  { intros x. unfold contentsOf, removeAssetGraphFromBundle. simpl.
    rewrite lookup_insert_eq. simpl. apply list_elem_of_difference. }
  split; [done|]. split; [done|]. split; [done|]. split; [done|].
  split; [done|]. split; [done|]. split; [done|]. split; [|split].
  - intros id Hne. rewrite <- Hothers by done.
    unfold contentsOf, removeAssetGraphFromBundle. simpl. by rewrite lookup_insert_ne.
  - intros x [Hx _]%Hnew. by apply Hshrunk.
  - intros x Hx Hgone.
    destruct (decide (x ∈ contentsOf s (bundle_id b))) as [Hin|Hout];
      [|by apply Hwhy].
    exists a. split; [|split].
    + rewrite <- Ha. destruct (decide (x ∈ ag_subgraph (assetGraph s) (asset_id a)));
        [done|]. exfalso. apply Hgone, Hnew. done.
    + eapply hasAsset_shrunk; [| |exact Hhas]; done.
    + eapply isAssetInAncestorBundles_shrunk; [..|exact Hanc]; done.
Qed.

Lemma deduplicateAssets_deduplicated_from (b : Bundle) (g : BundleGraph)
    (assets : list Asset) :
  forall s, deduplicated_from b g s ->
            deduplicated_from b g (deduplicateAssets b s assets).
Proof.
  unfold deduplicateAssets.
  induction assets as [|a l IH]; intros s Hs; simpl; [done|].
  apply IH. by apply deduplicated_from_step.
Qed.

Lemma deduplicateBundle_deduplicated_from (g g' : BundleGraph) (b : Bundle) :
  deduplicateBundle host g b = JS.Ok g' -> deduplicated_from b g g'.
Proof.
  unfold deduplicateBundle.
  destruct (_ || _); [intros [= <-]; apply deduplicated_from_refl|].
  apply (traverse_preserves _ _ _ (deduplicated_from b g));
    [| |apply deduplicated_from_refl].
  - intros [a|d] c s v Hs; simpl; intros [= <-]; simpl; [done|].
    by apply deduplicateAssets_deduplicated_from.
  - by intros n c s s' Hs [= <-].
Qed.

(** X4. [deduplicateBundle] changes nothing but the contents of the bundle
    it is called on, and only takes nodes out of it: bundles, bundle
    groups, membership, internalized pairs, asset references and asset
    [meta] are what they were. A node it takes out
    belongs to the subgraph of an asset that the bundle had and that an
    ancestor bundle had as well when the call began. *)
Theorem deduplicateBundle_removes_duplicates (g g' : BundleGraph) (bundle : Bundle) :
  deduplicateBundle host g bundle = JS.Ok g' ->
  bundles g' = bundles g
  /\ bundleGroups g' = bundleGroups g
  /\ groupMembers g' = groupMembers g
  /\ internalized g' = internalized g
  /\ assetReferences g' = assetReferences g
  /\ assetMeta g' = assetMeta g
  /\ (forall b', bundle_id b' <> bundle_id bundle -> contents_of g' b' = contents_of g b')
  /\ (forall x, x ∈ contents_of g' bundle -> x ∈ contents_of g bundle)
  /\ (forall x, x ∈ contents_of g bundle -> x ∉ contents_of g' bundle ->
        exists a, x ∈ ag_subgraph (assetGraph g) (asset_id a)
                  /\ hasAsset g bundle a = true
                  /\ isAssetInAncestorBundles g bundle a = true).
Proof.
  intros (_ & Hb & Hg & Hm & Hi & Hr & Hmeta & Hothers & Hshrunk & Hwhy)
         %deduplicateBundle_deduplicated_from.
  repeat (split; [done|]). split; [|split].
  - intros b' Hne. by apply Hothers.
  - exact Hshrunk.
  - exact Hwhy.
Qed.
End DeduplicateFrame.

(* ===================================================================== *)
(** * OptimizingBundler: the key of a candidate                           *)
(* ===================================================================== *)

Section StringOrder.

Lemma ascii_compare_lt_trans (a b c : ascii) :
  Ascii.compare a b = Lt -> Ascii.compare b c = Lt -> Ascii.compare a c = Lt.
Proof.
  unfold Ascii.compare. rewrite !N.compare_lt_iff. lia.
Qed.

Lemma string_compare_lt_trans (s1 : string) :
  forall s2 s3, String.compare s1 s2 = Lt -> String.compare s2 s3 = Lt ->
                String.compare s1 s3 = Lt.
Proof.
  induction s1 as [|a s1 IH]; intros [|b s2] [|c s3]; simpl; try done.
  destruct (Ascii.compare a b) eqn:Hab; [|
    |done].
  - apply Ascii.compare_eq_iff in Hab as ->.
    destruct (Ascii.compare b c) eqn:Hbc; [apply IH|done|done].
  - intros _. destruct (Ascii.compare b c) eqn:Hbc; [| |done].
    + apply Ascii.compare_eq_iff in Hbc as <-. by rewrite Hab.
    + by rewrite (ascii_compare_lt_trans _ _ _ Hab Hbc).
Qed.

Lemma string_leb_trans (s1 s2 s3 : string) :
  String.leb s1 s2 = true -> String.leb s2 s3 = true -> String.leb s1 s3 = true.
Proof.
  unfold String.leb.
  destruct (String.compare s1 s2) eqn:H12; [|
    |done].
  - apply String.compare_eq_iff in H12 as ->. done.
  - destruct (String.compare s2 s3) eqn:H23; [| |done].
    + apply String.compare_eq_iff in H23 as <-. by rewrite H12.
    + by rewrite (string_compare_lt_trans _ _ _ H12 H23).
Qed.

Lemma compare_strings_leb (a b : string) :
  (JS.compare_strings a b <=? 0) = String.leb a b.
Proof.
  unfold JS.compare_strings, String.leb. by destruct (String.compare a b).
Qed.

Lemma insert_sorted_strings (x : string) (l : list string) :
  StronglySorted (fun a b => String.leb a b = true) l ->
  StronglySorted (fun a b => String.leb a b = true)
                 (JS.insert_sorted JS.compare_strings x l).
Proof.
  induction 1 as [|y l Hl IH Hy]; simpl; [by repeat constructor|].
  rewrite compare_strings_leb. destruct (String.leb x y) eqn:Hxy.
  - constructor; [by constructor|]. constructor; [done|].
    eapply Forall_impl; [exact Hy|]. simpl. intros z Hz.
    by eapply string_leb_trans.
  - constructor; [exact IH|].
    eapply Permutation_Forall; [symmetry; apply insert_sorted_Permutation|].
    constructor; [|exact Hy].
    destruct (String.leb_total x y) as [H|H]; [congruence|done].
Qed.

Lemma sort_strings_sorted (l : list string) :
  StronglySorted (fun a b => String.leb a b = true) (JS.sort JS.compare_strings l).
Proof.
  induction l as [|x l IH]; simpl; [constructor|]. by apply insert_sorted_strings.
Qed.

(** The default sort of an array of strings depends on its elements only. *)
Lemma sort_strings_Permutation (l l' : list string) :
  Permutation l l' -> JS.sort JS.compare_strings l = JS.sort JS.compare_strings l'.
Proof.
  intros Hperm.
  apply (StronglySorted_unique_strong (fun a b => String.leb a b = true)).
  - intros x y _ _. apply String.leb_antisym.
  - apply sort_strings_sorted.
  - apply sort_strings_sorted.
  - by rewrite !sort_Permutation.
Qed.
End StringOrder.

Section CandidateKey.
Import MutableBundleGraph OptimizeBundler Properties.

(** X5. The key under which an asset's candidate is stored depends on the
    set of ids of the bundles that contain the asset, not on the order in
    which [findBundlesWithAsset] lists them: two assets found in the same
    bundles meet in one candidate. *)
Theorem candidateKey_order_independent (containingBundles containingBundles' : list Bundle) :
  Permutation (bundle_id <$> containingBundles) (bundle_id <$> containingBundles') ->
  candidateKey containingBundles = candidateKey containingBundles'.
Proof.
  intros Hperm. unfold candidateKey. f_equal. by apply sort_strings_Permutation.
Qed.
End CandidateKey.

(* ===================================================================== *)
(** * OptimizingBundler: how candidates accumulate                        *)
(* ===================================================================== *)


Section Accumulate.
Import MutableBundleGraph OptimizeBundler Properties.
Context (host : Host).

(** X6. The collecting traversal never throws, and the map of
    candidates it returns has one entry for each key. An entry holds at
    least one asset. Its size is what the additions of the code give for
    its assets, number by number, and is the sum of their byte counts
    whenever that sum is below 2^53. Each of its assets is contained in
    more than [minBundles] bundles that count for it, and the key of those
    bundles is the entry's key. Its source bundles have distinct ids, the
    ids of the bundles that count for its assets, and each of them is a
    bundle of the graph that holds one of the assets, is no entry bundle,
    is splittable and does not have that asset as its main entry. *)
Theorem collectCandidates_accumulates (g : BundleGraph) :
  exists candidateBundles,
    collectCandidates host g = JS.Ok candidateBundles
    /\ NoDup candidateBundles.*1
    /\ Forall (accumulated g) candidateBundles
    /\ (forall a b, b ∈ containingBundlesOf g a <-> source_of g a b).
Proof.
  destruct (collectCandidates_total host g) as [cands Hc].
  exists cands. split; [done|].
  destruct (collectCandidates_accumulated host g cands Hc) as [Hnd Hall].
  split; [done|]. split; [done|]. intros a b. apply source_of_containing.
Qed.

(** X7. When an asset is recorded in a candidate the traversal does not go
    on to its children from it: the walk of its subtree is the visit of
    the asset alone. An asset in at most [minBundles] eligible bundles
    changes no candidate, and the walk continues with its children. *)
Theorem collect_skips_children_of_recorded (g : BundleGraph) (asset : Asset)
    (children : list (VisitTree Node)) (seen : list string)
    (candidateBundles : list (string * Candidate)) :
  asset_id asset ∉ seen ->
  walk node_id (collectVisitor g) no_exit (VNode (AssetNode asset) children) tt
       (seen, candidateBundles)
  = if (minBundles <? length (containingBundlesOf g asset))%nat
    then walk node_id (collectVisitor g) no_exit (VNode (AssetNode asset) []) tt
           (seen, candidateBundles)
    else walk_all node_id (collectVisitor g) no_exit children tt
           (asset_id asset :: seen, candidateBundles).
Proof.
  intros Hseen. rewrite !walk_unfold. simpl.
  rewrite bool_decide_eq_false_2 by done.
  fold (containingBundlesOf g asset).
  destruct (_ <? _)%nat; simpl; [done|].
  by destruct (walk_all _ _ _ children tt _) as [[? ?]|].
Qed.
End Accumulate.

(* ===================================================================== *)
(** * OptimizingBundler: what extracting a candidate does                 *)
(* ===================================================================== *)

Section ExtractEffect.
Import MutableBundleGraph OptimizeBundler Properties.
Context (host : Host) (md5FromString : string -> string).

Lemma moveAssets_frame (shared : Bundle) (sources : list Bundle)
    (assets : list Asset) (g : BundleGraph) :
  bundles (moveAssets shared sources g assets) = bundles g
  /\ bundleGroups (moveAssets shared sources g assets) = bundleGroups g.
Proof.
  assert (Hrem : forall a g0,
            bundles (foldl (fun g bundle => removeAssetGraphFromBundle g a bundle) g0 sources)
            = bundles g0
            /\ bundleGroups
                 (foldl (fun g bundle => removeAssetGraphFromBundle g a bundle) g0 sources)
               = bundleGroups g0).
  { intros a. induction sources as [|b bs IHb]; intros g0; simpl; [done|].
    destruct (IHb (removeAssetGraphFromBundle g0 a b)) as [-> ->]. done. }
  unfold moveAssets. revert g.
  induction assets as [|a l IH]; intros g; simpl; [done|].
  destruct (IH (foldl (fun g bundle => removeAssetGraphFromBundle g a bundle)
                  (addAssetGraphToBundle g a shared) sources)) as [-> ->].
  destruct (Hrem a (addAssetGraphToBundle g a shared)) as [-> ->]. done.
Qed.

Lemma connectBundle_frame (shared : Bundle) (bgs : list BundleGroup) (g : BundleGraph) :
  bundles (connectBundle shared g bgs) = bundles g
  /\ bundleGroups (connectBundle shared g bgs) = bundleGroups g.
Proof.
  unfold connectBundle. revert g.
  induction bgs as [|bg bgs IH]; intros g; simpl; [done|].
  destruct (IH (addBundleToBundleGroup g shared bg)) as [-> ->]. done.
Qed.

Lemma connectBundle_attached (shared : Bundle) (bgs : list BundleGroup)
    (g : BundleGraph) (id : string) :
  id ∈ bg_id <$> bgs ->
  members (connectBundle shared g bgs) id = set_add_bundle (members g id) shared.
Proof.
  induction bgs as [|bg bgs IH] using rev_ind; [intros H; by apply elem_of_nil in H|].
  rewrite fmap_app. simpl. intros Hin.
  unfold connectBundle. rewrite foldl_app. simpl. fold (connectBundle shared g bgs).
  destruct (decide (id = bg_id bg)) as [->|Hne].
  - rewrite members_add_eq.
    destruct (connectBundle_members shared bgs g (bg_id bg)) as [->|[_ ->]]; [done|].
    apply set_add_bundle_again.
  - rewrite members_add_ne by done. apply IH.
    apply elem_of_app in Hin as [Hin|Hin%list_elem_of_singleton]; done.
Qed.

(** X8. A candidate that is within the request limit is extracted without
    error. The shared bundle is splittable, is no entry and has the type,
    environment and target of the first source bundle; its unique key is
    the hash of the joined ids of the source bundles. After the iteration
    it is a bundle of the graph and a member of every bundle group that
    contained a source bundle; the membership of a group has changed by
    this one bundle at most, and no group was created or removed. *)
Theorem extractCandidate_attaches_shared_bundle (g : BundleGraph) (c : Candidate)
    (firstBundle : Bundle) (rest : list Bundle) :
  sourceBundles c = firstBundle :: rest ->
  overLimit g (connectedBundleGroups g (sourceBundles c)) = false ->
  let opts := sharedBundleOpts md5FromString (sourceBundles c) firstBundle in
  let sharedBundle := new_bundle (host_bundleId host opts) opts in
  exists g',
    extractCandidate host md5FromString g c = JS.Ok g'
    /\ bundle_isSplittable sharedBundle = true
    /\ bundle_isEntry sharedBundle = false
    /\ bundle_type sharedBundle = bundle_type firstBundle
    /\ bundle_env sharedBundle = bundle_env firstBundle
    /\ bundle_target sharedBundle = bundle_target firstBundle
    /\ bundle_uniqueKey sharedBundle
       = Some (md5FromString (JS.join ":" (bundle_id <$> sourceBundles c)))
    /\ sharedBundle ∈ bundles g'
    /\ bundleGroups g' = bundleGroups g
    /\ (forall b bg,
          b ∈ sourceBundles c -> bg ∈ getBundleGroupsContainingBundle g b ->
          has_bundle sharedBundle (getBundlesInBundleGroup g' bg) = true)
    /\ (forall bg,
          getBundlesInBundleGroup g' bg = getBundlesInBundleGroup g bg
          \/ getBundlesInBundleGroup g' bg
             = set_add_bundle (getBundlesInBundleGroup g bg) sharedBundle).
Proof.
  intros Hsrc Hover opts sharedBundle.
  unfold extractCandidate. rewrite Hover, Hsrc. rewrite <- Hsrc.
  fold opts. unfold createBundle. fold sharedBundle.
  set (g1 := with_bundles g _).
  set (g2 := moveAssets sharedBundle (sourceBundles c) g1 (assets c)).
  set (bgs := connectedBundleGroups g (sourceBundles c)) in *.
  set (g3 := connectBundle sharedBundle g2 bgs).
  destruct (deduplicateBundle_total host g3 sharedBundle) as [g' Hg'].
  exists g'. split; [done|].
  do 6 (split; [done|]).
  apply deduplicateBundle_deduplicated_from in Hg'
    as (_ & Hb & Hg & Hm & _).
  destruct (connectBundle_frame sharedBundle bgs g2) as [Hb3 Hg3].
  destruct (moveAssets_frame sharedBundle (sourceBundles c) (assets c) g1) as [Hb2 Hg2].
  assert (Hmem2 : forall id, members g2 id = members g id).
  { intros id. apply members_same. unfold g2. by rewrite moveAssets_members. }
  assert (Hmem' : forall id, members g' id = members g3 id).
  { intros id. by apply members_same. }
  split; [|split; [|split]].
  - rewrite Hb. unfold g3. rewrite Hb3. unfold g2. rewrite Hb2. unfold g1. simpl.
    apply elem_of_app. right. by apply list_elem_of_singleton.
  - rewrite Hg. unfold g3. rewrite Hg3. unfold g2. by rewrite Hg2.
  - intros b bg Hbin Hbg. rewrite getBundlesInBundleGroup_members, Hmem'.
    unfold g3. rewrite connectBundle_attached
      by (by eapply connectedBundleGroups_ids).
    apply has_bundle_true, set_add_bundle_ids. by right.
  - intros bg. rewrite !getBundlesInBundleGroup_members, Hmem'. unfold g3.
    destruct (connectBundle_members sharedBundle bgs g2 (bg_id bg)) as [->|[_ ->]];
      rewrite Hmem2; [by left|by right].
Qed.
End ExtractEffect.

(* ===================================================================== *)
(** * OptimizingBundler: what the internalization pass records            *)
(* ===================================================================== *)

Section InternalizeStep.
Import MutableBundleGraph OptimizeBundler Properties.
Context (host : Host).

Lemma set_add_group_elem (l : list BundleGroup) (bg x : BundleGroup) :
  x ∈ set_add_group l bg -> x ∈ l \/ x = bg.
Proof.
  unfold set_add_group. destruct (has_group bg l); [by left|].
  rewrite elem_of_app, list_elem_of_singleton. tauto.
Qed.

Lemma resolveExternalDependency_group (g : BundleGraph) (d : Dependency)
    (value : BundleGroup) :
  resolveExternalDependency g d = Some (ExternalBundleGroup value) ->
  value ∈ bundleGroups g /\ bg_id value = dep_id d.
Proof.
  unfold resolveExternalDependency.
  destruct (List.find _ (bundleGroups g)) as [bg|] eqn:Hfind.
  - intros [= <-]. apply find_some in Hfind as [Hin Hid].
    split; [by apply list_elem_of_In|by apply String.eqb_eq].
  - by destruct (getDependencyResolution g d None).
Qed.

Lemma internalizeVisitor_visits (g : BundleGraph) (node : Node) (u : unit)
    (st : BundleGraph * list BundleGroup)
    (v : Visit unit (BundleGraph * list BundleGroup)) :
  internalize_visits g st ->
  internalizeVisitor node u st = JS.Ok v ->
  internalize_visits g (visit_state v).
Proof.
  destruct st as [s groups]. intros (Hmore & Hpairs & Hgroups). simpl in *.
  destruct node as [a|d]; [by intros [= <-]|].
  destruct (dep_isEntry d || negb (dep_isAsync d)) eqn:Hflags; [by intros [= <-]|].
  apply orb_false_elim in Hflags as [Hentry Hasync%negb_false_iff].
  destruct (getDependencyResolution s d None) as [a|] eqn:Hres; [|by intros [= <-]].
  destruct (resolveExternalDependency s d) as [[value|x]|] eqn:Hext; [|done|done].
  intros [= <-]. simpl.
  assert (internalizable g d a) as Hd.
  { repeat split; try done. rewrite <- Hres. unfold getDependencyResolution.
    destruct Hmore as (-> & _). done. }
  split; [|split].
  - eapply more_internalized_trans; [exact Hmore|apply internalizeIn_more].
  - intros p [Hp|(b & Hb & -> & Hreach)]%internalizeIn_sound; [by apply Hpairs|].
    right. exists b, d, a. split; [done|]. split; [done|]. split.
    + by rewrite <- (findBundlesWithDependency_same g s Hmore).
    + by eapply canReach_fewer.
  - intros bg [Hbg| ->]%set_add_group_elem; [by apply Hgroups|].
    apply resolveExternalDependency_group in Hext as [Hin Hid].
    destruct Hmore as (_ & _ & Hg & _). rewrite Hg in Hin.
    split; [done|]. by exists d, a.
Qed.

(** X9. When the internalization pass succeeds it has changed nothing but
    the set of internalized pairs. Every pair it added is a bundle and an
    async, non-entry dependency with a resolution such that the bundle
    contains the dependency and had the resolved asset, or had it in an
    ancestor, when the pass began. Every bundle group it recorded is a
    group of the graph, opened by such a dependency. *)
Theorem internalizeStep_internalizes_reachable (g g' : BundleGraph)
    (asyncBundleGroups : list BundleGroup) :
  internalizeStep host g = JS.Ok (g', asyncBundleGroups) ->
  more_internalized g g'
  /\ (forall p, p ∈ internalized g' ->
        p ∈ internalized g
        \/ exists b d a,
             p = (bundle_id b, dep_id d)
             /\ dep_isAsync d = true /\ dep_isEntry d = false
             /\ getDependencyResolution g d None = Some a
             /\ b ∈ findBundlesWithDependency g d
             /\ (hasAsset g b a || isAssetInAncestorBundles g b a) = true)
  /\ (forall bg, bg ∈ asyncBundleGroups ->
        bg ∈ bundleGroups g
        /\ exists d a,
             bg_id bg = dep_id d
             /\ dep_isAsync d = true /\ dep_isEntry d = false
             /\ getDependencyResolution g d None = Some a).
Proof.
  intros H.
  apply (traverse_preserves _ _ _ (internalize_visits g)) in H.
  - destruct H as (Hmore & Hpairs & Hgroups). simpl in *.
    split; [done|]. split.
    + intros p [Hp|(b & d & a & -> & (H1 & H2 & H3) & H4 & H5)]%Hpairs; [by left|].
      right. by exists b, d, a.
    + intros bg [Hin (d & a & Hid & H1 & H2 & H3)]%Hgroups.
      split; [done|]. by exists d, a.
  - intros n c s v. apply internalizeVisitor_visits.
  - by intros n c s s' Hs [= <-].
  - split; [apply more_internalized_refl|]. split; [by left|].
    intros bg Hbg. by apply elem_of_nil in Hbg.
Qed.
End InternalizeStep.

(* ===================================================================== *)
(** * OptimizingBundler: which bundle groups are pruned                   *)
(* ===================================================================== *)

Section Prune.
Import MutableBundleGraph OptimizeBundler Properties.

Lemma removeBundleGroup_parents (g : BundleGraph) (bg x : BundleGroup) :
  getParentBundlesOfBundleGroup (removeBundleGroup g bg) x
  = getParentBundlesOfBundleGroup g x.
Proof. done. Qed.

Lemma pruneStep_cons (g : BundleGraph) (bg : BundleGroup) (l : list BundleGroup) :
  pruneStep g (bg :: l)
  = pruneStep
      (if (length (getParentBundlesOfBundleGroup g bg) =? 0)%nat
       then removeBundleGroup g bg else g) l.
Proof. done. Qed.

Lemma orphaned_step (g : BundleGraph) (bg x : BundleGroup) (l : list BundleGroup) :
  orphaned
    (if (length (getParentBundlesOfBundleGroup g bg) =? 0)%nat
     then removeBundleGroup g bg else g) l x
  <-> orphaned g l x.
Proof.
  unfold orphaned. by destruct (_ =? _)%nat.
Qed.

Lemma pruneStep_frame (l : list BundleGroup) :
  forall g,
    assetGraph (pruneStep g l) = assetGraph g
    /\ bundles (pruneStep g l) = bundles g
    /\ bundleContents (pruneStep g l) = bundleContents g
    /\ internalized (pruneStep g l) = internalized g
    /\ assetReferences (pruneStep g l) = assetReferences g
    /\ assetMeta (pruneStep g l) = assetMeta g.
Proof.
  induction l as [|bg l IH]; intros g; [done|].
  rewrite pruneStep_cons.
  destruct (IH (if (length (getParentBundlesOfBundleGroup g bg) =? 0)%nat
                then removeBundleGroup g bg else g))
    as (-> & -> & -> & -> & -> & ->).
  by destruct (_ =? _)%nat.
Qed.

Lemma pruneStep_groups (l : list BundleGroup) :
  forall g x,
    x ∈ bundleGroups (pruneStep g l) <-> x ∈ bundleGroups g /\ ~ orphaned g l x.
Proof.
  induction l as [|bg l IH]; intros g x.
  - simpl. split; [|by intros [? _]]. intros Hx. split; [done|].
    intros (bg & Hbg & _). by apply elem_of_nil in Hbg.
  - rewrite pruneStep_cons, IH, orphaned_step.
    assert (Hcons : orphaned g (bg :: l) x
              <-> (bg_id bg = bg_id x /\ getParentBundlesOfBundleGroup g bg = [])
                  \/ orphaned g l x).
    { unfold orphaned. split.
      - intros (y & [->|Hy]%elem_of_cons & Hid & Hp); [by left|right; by exists y].
      - intros [[Hid Hp]|(y & Hy & Hid & Hp)].
        + exists bg. split; [apply elem_of_cons; by left|done].
        + exists y. split; [apply elem_of_cons; by right|done]. }
    rewrite Hcons.
    destruct (getParentBundlesOfBundleGroup g bg) as [|p ps] eqn:Hparents; simpl.
    + rewrite filter_elem_of, negb_true_iff, String.eqb_neq. split.
      * intros [[Hx Hne] Hl]. split; [done|]. intros [[Hid _]|Ho]; [congruence|done].
      * intros [Hx Hno]. split; [split; [done|]|].
        -- intros Hid. apply Hno. left. by split.
        -- intros Ho. apply Hno. by right.
    + split.
      * intros [Hx Hl]. split; [done|]. by intros [[_ ?]|Ho].
      * intros [Hx Hno]. split; [done|]. intros Ho. apply Hno. by right.
Qed.

Lemma pruneStep_members_of (l : list BundleGroup) :
  forall g x,
    getBundlesInBundleGroup (pruneStep g l) x = getBundlesInBundleGroup g x
    \/ (orphaned g l x /\ getBundlesInBundleGroup (pruneStep g l) x = []).
Proof.
  induction l as [|bg l IH]; intros g x; [by left|].
  rewrite pruneStep_cons.
  destruct (IH (if (length (getParentBundlesOfBundleGroup g bg) =? 0)%nat
                then removeBundleGroup g bg else g) x) as [Heq|[Ho Hnil]].
  - rewrite Heq.
    destruct (getParentBundlesOfBundleGroup g bg) as [|p ps] eqn:Hparents; simpl;
      [|by left].
    unfold getBundlesInBundleGroup, removeBundleGroup. simpl.
    destruct (decide (bg_id x = bg_id bg)) as [Hid|Hne].
    + right. rewrite Hid, lookup_delete_eq. split; [|done].
      exists bg. split; [apply elem_of_cons; by left|done].
    + left. by rewrite lookup_delete_ne.
  - right. split; [|done]. apply orphaned_step in Ho.
    destruct Ho as (y & Hy & Hid & Hp). exists y.
    split; [apply elem_of_cons; by right|done].
Qed.

(** X10. Pruning removes exactly the bundle groups that were recorded by
    the internalization pass and have no parent bundle left: every other
    group of the graph is kept, with its members; a removed group has no
    members afterwards. Bundles, their contents and the internalized pairs
    are untouched. *)
Theorem pruneStep_removes_orphaned_groups (g : BundleGraph)
    (asyncBundleGroups : list BundleGroup) :
  let g' := pruneStep g asyncBundleGroups in
  bundles g' = bundles g
  /\ bundleContents g' = bundleContents g
  /\ internalized g' = internalized g
  /\ (forall x, x ∈ bundleGroups g'
                <-> x ∈ bundleGroups g
                    /\ ~ exists bg, bg ∈ asyncBundleGroups /\ bg_id bg = bg_id x
                                    /\ getParentBundlesOfBundleGroup g bg = [])
  /\ (forall x,
        getBundlesInBundleGroup g' x = getBundlesInBundleGroup g x
        \/ ((exists bg, bg ∈ asyncBundleGroups /\ bg_id bg = bg_id x
                        /\ getParentBundlesOfBundleGroup g bg = [])
            /\ getBundlesInBundleGroup g' x = [])).
Proof.
  simpl. destruct (pruneStep_frame asyncBundleGroups g) as (_ & Hb & Hc & Hi & _).
  split; [done|]. split; [done|]. split; [done|]. split.
  - intros x. apply pruneStep_groups.
  - intros x. apply pruneStep_members_of.
Qed.
End Prune.

(* ===================================================================== *)
(** * WrapMarker: what the pass leaves alone                              *)
(* ===================================================================== *)

Section WrapFrame.
Import MutableBundleGraph WrapBundler Properties.
Context (host : Host).

(** X11. The wrap pass never throws. It creates, removes and moves
    nothing: bundles, bundle groups, membership, contents, internalized
    pairs and asset references are what they were. Of an asset's [meta] it
    writes the key [shouldWrap] only, and only to true. *)
Theorem wrap_bundle_only_marks (g : BundleGraph) :
  exists g',
    WrapBundler.bundle host g = JS.Ok g'
    /\ bundles g' = bundles g
    /\ bundleGroups g' = bundleGroups g
    /\ groupMembers g' = groupMembers g
    /\ bundleContents g' = bundleContents g
    /\ internalized g' = internalized g
    /\ assetReferences g' = assetReferences g
    /\ (forall a, getAssetMeta g' a = getAssetMeta g a
                  \/ getAssetMeta g' a = <["shouldWrap" := true]> (getAssetMeta g a))
    /\ (forall a key, key <> "shouldWrap" ->
                      getAssetMeta g' a !! key = getAssetMeta g a !! key).
Proof.
  destruct (traverse_total bundle_id no_enter (wrapBundle host)
              (fun n c s => ex_intro _ (mkVisit None false s) eq_refl)
              (fun n c s => wrapBundle_total host n c s)
              (host_traverseBundles host g) tt g) as [g' Hg'].
  exists g'. split; [exact Hg'|].
  assert (wrapped_from g g') as (_ & Hb & Hg & Hm & Hc & Hi & Hr & Hmeta).
  { eapply (traverse_preserves _ _ _ (wrapped_from g));
      [| |apply wrapped_from_refl|exact Hg'].
    - by intros n c s v Hs [= <-].
    - intros n c s s' Hs Hw. eapply wrapped_from_trans; [exact Hs|].
      by eapply wrapBundle_wrapped_from. }
  repeat (split; [done|]).
  intros a key Hkey. destruct (Hmeta a) as [Heq|Heq]; rewrite Heq; [done|].
  by rewrite lookup_insert_ne.
Qed.

Lemma tree_nodes_children {N : Type} (n : N) (children : list (VisitTree N))
    (t : VisitTree N) (x : N) :
  t ∈ children -> x ∈ tree_nodes t -> x ∈ tree_nodes (VNode n children).
Proof.
  intros Ht Hx. simpl. apply elem_of_cons. right.
  induction children as [|t' ts IH]; [by apply elem_of_nil in Ht|].
  apply elem_of_app. apply elem_of_cons in Ht as [<-|Ht]; [by left|right; by apply IH].
Qed.

Lemma walk_unflagged (bundle : Bundle) (t : VisitTree Node) :
  unflagged t ->
  forall seen g, exists seen',
    walk node_id (wrapVisitor bundle) no_exit t false (seen, g) = JS.Ok (seen', g).
Proof.
  induction t as [n children IH] using VisitTree_ind.
  intros Hun seen g. rewrite walk_unfold. simpl.
  destruct (bool_decide _); [by eexists|].
  assert (wrapVisitor bundle n false g = JS.Ok (mkVisit None false g)) as ->.
  { rewrite wrapVisitor_unfold. destruct n as [a|d]; [done|].
    unfold wrapFlag. simpl. rewrite Hun; [done|]. simpl. apply elem_of_cons. by left. }
  simpl.
  assert (Hall : forall seen1, exists seen2,
            walk_all node_id (wrapVisitor bundle) no_exit children false (seen1, g)
            = JS.Ok (seen2, g)).
  { assert (Hkids : forall t, t ∈ children -> unflagged t).
    { intros t Ht d Hd. apply Hun. by eapply tree_nodes_children. }
    clear Hun. induction IH as [|t ts Ht _ IHts]; intros seen1; simpl; [by eexists|].
    destruct (Ht (Hkids t ltac:(apply elem_of_cons; by left)) seen1 g) as [seen2 ->].
    simpl. apply IHts. intros t' Ht'. apply Hkids. apply elem_of_cons. by right. }
  destruct (Hall (node_id n :: seen)) as [seen2 ->]. simpl. by eexists.
Qed.

End WrapFrame.

(* ===================================================================== *)
(** * DefaultBundler: dependencies outside a bundle group                 *)
(* ===================================================================== *)

Section FirstChild.
Import MutableBundleGraph.
Context {N C S : Type}.
Variable id_of : N -> string.
Variable enter : N -> C -> S -> JS.Result (Visit C S).
Variable exit : N -> C -> S -> JS.Result S.

(** A throw in the walk of the first child ends the walk of the node. *)
Lemma walk_first_child_throws (n : N) (t : VisitTree N) (ts : list (VisitTree N))
    (ctx : C) (seen : list string) (s : S) (v : Visit C S) (e : JS.Error) :
  id_of n ∉ seen -> enter n ctx s = JS.Ok v -> visit_skipChildren v = false ->
  walk id_of enter exit t (default ctx (visit_context v))
       (id_of n :: seen, visit_state v) = JS.Throw e ->
  walk id_of enter exit (VNode n (t :: ts)) ctx (seen, s) = JS.Throw e.
Proof.
  intros Hfresh Hv Hskip Ht. rewrite walk_unfold. simpl.
  rewrite bool_decide_eq_false_2 by done. rewrite Hv. simpl. rewrite Hskip.
  by rewrite Ht.
Qed.
End FirstChild.

Section DefaultErrors.
Import MutableBundleGraph DefaultBundler Properties.
Context (host : Host).

Lemma bundle_first_root_throws (g : BundleGraph) (n : Node)
    (children rest : list (VisitTree Node)) (e : JS.Error) :
  host_traverse host g = VNode n children :: rest ->
  enter host n None (mkState g [] [] [] []) = JS.Throw e ->
  DefaultBundler.bundle host g = JS.Throw e.
Proof.
  intros Htree He. unfold DefaultBundler.bundle, traverse. rewrite Htree.
  cbn [walk_all]. rewrite (walk_enter_throws node_id _ _ n children None [] _ e);
    [done| |exact He].
  intros H. by apply elem_of_nil in H.
Qed.

(** X13. When the traversal starts at a dependency that opens no bundle
    group, the bundler throws an assertion error: there is no context to
    continue from. *)
Theorem bundle_plain_root_dependency_throws (g : BundleGraph) (d : Dependency)
    (children rest : list (VisitTree Node)) :
  host_traverse host g = VNode (DependencyNode d) children :: rest ->
  opensBundleGroup d (getDependencyResolution g d None) = false ->
  DefaultBundler.bundle host g = JS.Throw JS.AssertionError.
Proof.
  intros Htree Hopen. eapply bundle_first_root_throws; [exact Htree|].
  unfold enter. simpl. by rewrite Hopen.
Qed.

(** X14. When the traversal starts at an asset, the first dependency below
    it that opens no bundle group makes the bundler throw: the context
    that the asset handed down has no bundle group, and [nullthrows]
    rejects it. *)
Theorem bundle_dependency_without_group_throws (g : BundleGraph) (a : Asset)
    (d : Dependency) (children siblings rest : list (VisitTree Node)) :
  host_traverse host g
    = VNode (AssetNode a) (VNode (DependencyNode d) children :: siblings) :: rest ->
  dep_id d <> asset_id a ->
  opensBundleGroup d (getDependencyResolution g d None) = false ->
  DefaultBundler.bundle host g = JS.Throw JS.NullthrowsError.
Proof.
  intros Htree Hne Hopen. unfold DefaultBundler.bundle, traverse. rewrite Htree.
  cbn [walk_all].
  erewrite walk_first_child_throws with (e := JS.NullthrowsError);
    [done| |unfold enter; reflexivity|reflexivity|].
  - intros H. by apply elem_of_nil in H.
  - apply walk_enter_throws.
    + simpl. intros [Heq|H]%elem_of_cons; [done|]. by apply elem_of_nil in H.
    + unfold enter. simpl. by rewrite Hopen.
Qed.
End DefaultErrors.

Lemma bundle_plain_root_dependency_throws_witness :
  DefaultBundler.opensBundleGroup Examples.plain_dep
    (MutableBundleGraph.getDependencyResolution Examples.lazy_graph
       Examples.plain_dep None) = false
  /\ DefaultBundler.bundle Examples.plain_root_host Examples.lazy_graph
     = JS.Throw JS.AssertionError.
Proof.
  split; [reflexivity|].
  apply (bundle_plain_root_dependency_throws Examples.plain_root_host
           Examples.lazy_graph Examples.plain_dep [] []); reflexivity.
Defined.

Lemma bundle_dependency_without_group_throws_witness :
  DefaultBundler.opensBundleGroup Examples.plain_dep
    (MutableBundleGraph.getDependencyResolution Examples.lazy_graph
       Examples.plain_dep None) = false
  /\ DefaultBundler.bundle Examples.asset_root_host Examples.lazy_graph
     = JS.Throw JS.NullthrowsError.
Proof.
  split; [reflexivity|].
  apply (bundle_dependency_without_group_throws Examples.asset_root_host
           Examples.lazy_graph Examples.index Examples.plain_dep [] [] []);
    [reflexivity|discriminate|reflexivity].
Defined.

(* ===================================================================== *)
(** * DefaultBundler: where created bundles end up                        *)
(* ===================================================================== *)

Section Bookkeeping.
Import MutableBundleGraph DefaultBundler Properties.
Context (host : Host).

Lemma grouped_add (g : BundleGraph) (b x : Bundle) (bg : BundleGroup) :
  grouped g x -> grouped (addBundleToBundleGroup g b bg) x.
Proof.
  intros [bg0 Hx]. exists bg0. rewrite !getBundlesInBundleGroup_members in *.
  destruct (decide (bg_id bg0 = bg_id bg)) as [Heq|Hne].
  - rewrite Heq in *. rewrite members_add_eq. apply set_add_bundle_ids. by left.
  - by rewrite members_add_ne.
Qed.

Lemma grouped_add_all (l : list Bundle) (bg : BundleGroup) (g : BundleGraph)
    (x : Bundle) :
  grouped g x ->
  grouped (foldl (fun g bundle => addBundleToBundleGroup g bundle bg) g l) x.
Proof.
  revert g. induction l as [|b l IH]; intros g Hx; simpl; [done|].
  apply IH. by apply grouped_add.
Qed.

Lemma foldl_add_bundles (bg : BundleGroup) (l : list Bundle) (g : BundleGraph) :
  bundles (foldl (fun g bundle => addBundleToBundleGroup g bundle bg) g l) = bundles g.
Proof. revert g. induction l as [|b l IH]; intros g; simpl; [done|]. by rewrite IH. Qed.

(** A state that differs in neither the bundles nor the recorded roots,
    and in which no bundle left its groups. *)
Lemma bookkept_same (g0 : BundleGraph) (s s' : State) :
  bundles (graph s') = bundles (graph s) ->
  bundleRoots s' = bundleRoots s ->
  (forall x, grouped (graph s) x -> grouped (graph s') x) ->
  bookkept g0 s -> bookkept g0 s'.
Proof.
  intros Hb Hr Hg Hplaced. unfold bookkept. rewrite Hb.
  intros b [Hin|[(a & rest & Hget & Hmain) Hgrp]]%Hplaced; [by left|].
  right. split; [|by apply Hg]. exists a, rest. by rewrite Hr.
Qed.

(** A state after [createBundle], [bundleRoots.set(bundle, [asset])] and
    [addBundleToBundleGroup]. *)
Lemma bookkept_created (g0 : BundleGraph) (s s' : State) (o : BundleOpts)
    (a : Asset) (bg : BundleGroup) (g1 : BundleGraph) :
  opt_entryAsset o = Some a ->
  let b := new_bundle (host_bundleId host o) o in
  bundles g1 = bundles (createBundle host (graph s) o).2 ->
  groupMembers g1 = groupMembers (graph s) ->
  graph s' = addBundleToBundleGroup g1 b bg ->
  bundleRoots s' = (bundleRoots s ++ [(b, [a])])%list ->
  bookkept g0 s -> bookkept g0 s'.
Proof.
  intros Ho b Hb Hm Hg Hr Hplaced.
  assert (Hgrp : forall x, grouped (graph s) x -> grouped (graph s') x).
  { intros x [bg0 Hx]. rewrite Hg. apply grouped_add. exists bg0.
    unfold getBundlesInBundleGroup in *. by rewrite Hm. }
  unfold bookkept. rewrite Hg. simpl. rewrite Hb. unfold createBundle. simpl. fold b.
  intros x [[Hx Hid]%filter_elem_of| ->%list_elem_of_singleton]%elem_of_app.
  - apply Hplaced in Hx as [Hx|[(a0 & rest & Hget & Hmain) Hx]]; [by left|right].
    split; [|rewrite <- Hg; by apply Hgrp].
    exists a0, rest. rewrite Hr. split; [|done]. apply elem_of_app. by left.
  - right. split.
    + exists a, []. rewrite Hr. split; [|done]. apply elem_of_app. right.
      by apply list_elem_of_singleton.
    + exists bg. rewrite getBundlesInBundleGroup_members, members_add_eq.
      apply set_add_bundle_ids. by right.
Qed.

(** A state after [bundleRoots.get(existingBundle).push(asset)]. *)
Lemma bookkept_merged (g0 : BundleGraph) (s s' : State) (ref : nat) (a : Asset) :
  bundles (graph s') = bundles (graph s) ->
  groupMembers (graph s') = groupMembers (graph s) ->
  bundleRoots s' = bundleRoots (pushBundleRoot s ref a) ->
  bookkept g0 s -> bookkept g0 s'.
Proof.
  intros Hb Hm Hr Hplaced. unfold bookkept. rewrite Hb.
  intros x [Hx|[(a0 & rest & Hget0 & Hmain) [bg0 Hx]]]%Hplaced; [by left|right].
  split; [|exists bg0; unfold getBundlesInBundleGroup in *; by rewrite Hm].
  apply list_elem_of_lookup in Hget0 as [i Hi]. unfold rooted. rewrite Hr. simpl.
  destruct (decide (i = ref)) as [->|Hne].
  - exists a0, (rest ++ [a])%list. split; [|done].
    apply list_elem_of_lookup. exists ref.
    by rewrite list_lookup_alter_eq, Hi.
  - exists a0, rest. split; [|done].
    apply list_elem_of_lookup. exists i. by rewrite list_lookup_alter_ne.
Qed.

Lemma openBundle_bookkept (g0 : BundleGraph) (d : Dependency) (bg : BundleGroup)
    (ref : nat) (s : State) (a : Asset) :
  bookkept g0 s -> bookkept g0 (openBundle host d bg ref s a).
Proof.
  apply (bookkept_created g0 s _ (entryBundleOpts d bg a) a bg
           (createBundle host (graph s) (entryBundleOpts d bg a)).2); done.
Qed.

Lemma placeAsset_bookkept (g0 : BundleGraph) (d : Dependency) (parentAsset : Asset)
    (bg : BundleGroup) (bgd : Dependency) (ref siblingBundles : nat)
    (allSameType : bool) (s s' : State) (a : Asset) :
  placeAsset host d parentAsset bg bgd ref siblingBundles allSameType s a = JS.Ok s' ->
  bookkept g0 s -> bookkept g0 s'.
Proof.
  unfold placeAsset.
  destruct (String.eqb _ _).
  - destruct (JS.map_get _ _) as [r|]; destruct allSameType; intros [= <-];
      try done; apply bookkept_same; try done.
    + simpl. apply foldl_add_bundles.
    + intros x. simpl. apply grouped_add_all.
  - destruct (getBundleByType s ref (asset_type a)) as [existing|].
    + destruct (getBundleRoots s existing) as [entry|]; simpl; [|done].
      destruct (JS.map_get (asset_id a) (siblingBundlesByAsset s)); intros [= <-];
        by apply (bookkept_merged g0 s _ existing a).
    + simpl. destruct (JS.map_get (asset_id a) (siblingBundlesByAsset s));
        intros [= <-];
        by apply (bookkept_created g0 s _ (typeBundleOpts bgd bg a) a bg
                    (createAssetReference
                       (createBundle host (graph s) (typeBundleOpts bgd bg a)).2 d a)).
Qed.

Lemma placeAssets_bookkept (g0 : BundleGraph) (d : Dependency) (parentAsset : Asset)
    (bg : BundleGroup) (bgd : Dependency) (ref siblingBundles : nat)
    (allSameType : bool) (assets : list Asset) (s s' : State) :
  placeAssets (placeAsset host d parentAsset bg bgd ref siblingBundles allSameType)
    s assets = JS.Ok s' ->
  bookkept g0 s -> bookkept g0 s'.
Proof.
  revert s. induction assets as [|a l IH]; intros s; simpl.
  - by intros [= <-].
  - destruct (placeAsset _ _ _ _ _ _ _ _ s a) as [s1|] eqn:Hs1; simpl; [|done].
    intros Hs' Hs. eapply IH; [exact Hs'|]. by eapply placeAsset_bookkept.
Qed.

Lemma enter_bookkept (g0 : BundleGraph) (n : Node) (c : option Context) (s : State)
    (v : Visit (option Context) State) :
  bookkept g0 s -> enter host n c s = JS.Ok v -> bookkept g0 (visit_state v).
Proof.
  intros Hs. unfold enter. destruct n as [a|d]; [by intros [= <-]|].
  destruct (opensBundleGroup _ _).
  - unfold openBundleGroup. destruct (JS.nullish _ _) as [target|]; simpl; [|done].
    intros [= <-]. simpl.
    set (s1 := mkState _ _ _ _ _).
    assert (Hs1 : bookkept g0 s1) by (by apply (bookkept_same g0 s)).
    clearbody s1. revert s1 Hs1.
    induction (getDependencyAssets (graph s) d) as [|a l IH]; intros s1 Hs1; simpl;
      [done|].
    apply IH. by apply openBundle_bookkept.
  - unfold continueBundleGroup.
    destruct c as [c|]; simpl; [|done].
    destruct (parentNode c) as [parentAsset|]; simpl; [|done].
    destruct (bundleGroup c) as [bg|]; simpl; [|done].
    destruct (bundleGroupDependency c) as [bgd|]; simpl; [|done].
    destruct (bundleByType c) as [ref|]; simpl; [|done].
    destruct (JS.map_get _ _) as [siblingBundles|]; simpl; [|done].
    destruct (placeAssets _ s _) as [s'|] eqn:Hs'; simpl; [|done].
    intros [= <-]. simpl. by eapply placeAssets_bookkept.
Qed.

Lemma attachRoots_frame (roots : list (Bundle * list Asset)) (g : BundleGraph) :
  let g' := attachRoots g roots in
  assetGraph g' = assetGraph g
  /\ bundles g' = bundles g
  /\ bundleGroups g' = bundleGroups g
  /\ groupMembers g' = groupMembers g
  /\ internalized g' = internalized g
  /\ assetReferences g' = assetReferences g
  /\ assetMeta g' = assetMeta g
  /\ (forall b x, x ∈ contents_of g b -> x ∈ contents_of g' b).
Proof.
  simpl. unfold attachRoots. revert g.
  assert (Hinner : forall (b : Bundle) (l : list Asset) (g : BundleGraph),
            let g' := foldl (fun g asset => addAssetGraphToBundle g asset b) g l in
            assetGraph g' = assetGraph g
            /\ bundles g' = bundles g
            /\ bundleGroups g' = bundleGroups g
            /\ groupMembers g' = groupMembers g
            /\ internalized g' = internalized g
            /\ assetReferences g' = assetReferences g
            /\ assetMeta g' = assetMeta g
            /\ (forall b0 x, x ∈ contents_of g b0 -> x ∈ contents_of g' b0)
            /\ (forall a x, a ∈ l -> x ∈ ag_subgraph (assetGraph g) (asset_id a) ->
                            x ∈ contents_of g' b)).
  { intros b l. induction l as [|a l IH]; intros g; simpl.
    { repeat split; try done. intros a x Ha. by apply elem_of_nil in Ha. }
    destruct (IH (addAssetGraphToBundle g a b))
      as (H1 & H2 & H3 & H4 & H5 & H6 & H7 & H8 & H9).
    assert (Hgrow : forall b0 x, x ∈ contents_of g b0 ->
                                 x ∈ contents_of (addAssetGraphToBundle g a b) b0).
    { intros b0 x Hx. unfold contents_of, addAssetGraphToBundle. simpl.
      destruct (decide (bundle_id b0 = bundle_id b)) as [Heq|Hne].
      - rewrite Heq, lookup_insert_eq. simpl. apply list_elem_of_union. left.
        unfold contents_of in Hx. by rewrite Heq in Hx.
      - by rewrite lookup_insert_ne. }
    repeat split; try done.
    - intros b0 x Hx. by apply H8, Hgrow.
    - intros a0 x [->|Ha0]%elem_of_cons Hx; [|by eapply H9].
      apply H8. unfold contents_of, addAssetGraphToBundle. simpl.
      rewrite lookup_insert_eq. simpl. apply list_elem_of_union. by right. }
  induction roots as [|[b l] roots IH]; intros g; simpl; [by repeat split|].
  destruct (Hinner b l g) as (H1 & H2 & H3 & H4 & H5 & H6 & H7 & H8 & _).
  destruct (IH (foldl (fun g asset => addAssetGraphToBundle g asset b) g l))
    as (I1 & I2 & I3 & I4 & I5 & I6 & I7 & I8).
  repeat split; try congruence. intros b0 x Hx. by apply I8, H8.
Qed.

Lemma attachRoots_attaches (roots : list (Bundle * list Asset))
    (g : BundleGraph) (b : Bundle) (l : list Asset) (a : Asset) (x : string) :
  (b, l) ∈ roots -> a ∈ l ->
  x ∈ ag_subgraph (assetGraph g) (asset_id a) ->
  x ∈ contents_of (attachRoots g roots) b.
Proof.
  revert g. induction roots as [|[b0 l0] roots IH]; intros g Hin Ha Hx;
    [by apply elem_of_nil in Hin|].
  apply elem_of_cons in Hin as [[= <- <-]|Hin].
  - unfold attachRoots. simpl.
    set (g1 := foldl (fun g asset => addAssetGraphToBundle g asset b) g l).
    destruct (attachRoots_frame roots g1) as (_ & _ & _ & _ & _ & _ & _ & Hgrow).
    apply Hgrow. unfold g1. clear g1 Hgrow IH. revert g Hx.
    induction l as [|a0 l IHl]; intros g Hx; [by apply elem_of_nil in Ha|].
    simpl. apply elem_of_cons in Ha as [->|Ha]; [|by apply IHl].
    assert (Hkeep : forall (l : list Asset) (g : BundleGraph) (y : string),
              y ∈ contents_of g b ->
              y ∈ contents_of (foldl (fun g asset => addAssetGraphToBundle g asset b) g l) b).
    { clear. intros l. induction l as [|a l IH]; intros g y Hy; simpl; [done|].
      apply IH. unfold contents_of, addAssetGraphToBundle. simpl.
      rewrite lookup_insert_eq. simpl. apply list_elem_of_union. by left. }
    apply Hkeep. unfold contents_of, addAssetGraphToBundle. simpl.
    rewrite lookup_insert_eq. simpl. apply list_elem_of_union. by right.
  - unfold attachRoots. simpl. apply IH; [done|done|].
    assert (Hag : forall (l : list Asset) (g : BundleGraph),
              assetGraph (foldl (fun g asset => addAssetGraphToBundle g asset b0) g l)
              = assetGraph g).
    { clear. intros l. induction l as [|a l IH]; intros g; simpl; [done|].
      by rewrite IH. }
    by rewrite Hag.
Qed.

(** X15. Every bundle that the bundler leaves in the graph, unless it was
    there from the start, is a member of a bundle group and contains the
    asset graph of its main entry. *)
Theorem bundle_places_created_bundles (g g' : BundleGraph) :
  DefaultBundler.bundle host g = JS.Ok g' ->
  forall b, b ∈ bundles g' ->
            b ∈ bundles g \/ (grouped g' b /\ holds_entry_graph g' b).
Proof.
  unfold DefaultBundler.bundle.
  destruct (traverse _ _ _ _ _ _) as [s|] eqn:Hs; simpl; [|done].
  intros [= <-] b.
  assert (Hplaced : bookkept g s).
  { eapply (traverse_preserves _ _ _ (bookkept g)); [| | |exact Hs].
    - intros n c s0 v Hs0 Hv. by eapply enter_bookkept.
    - by intros n c s0 s1 Hs0 [= <-].
    - intros b0 Hb0. by left. }
  destruct (attachRoots_frame (bundleRoots s) (graph s))
    as (Hag & Hb & _ & Hm & _).
  rewrite Hb. intros [Hin|[(a & rest & Hget & Hmain) [bg Hgrp]]]%Hplaced; [by left|].
  right. split.
  - exists bg. unfold getBundlesInBundleGroup in *. by rewrite Hm.
  - exists a. split; [done|]. intros x Hx. rewrite Hag in Hx.
    eapply attachRoots_attaches; [exact Hget| |exact Hx].
    apply elem_of_cons. by left.
Qed.
End Bookkeeping.

(** In the example of the entry with a stylesheet the bundler creates a
    bundle for [a.js] and one for [s.css], both in the group of [e]. *)
Lemma bundle_places_created_bundles_witness :
  exists g',
    DefaultBundler.bundle Examples.styled_host Examples.styled_graph = JS.Ok g'
    /\ bundle_id <$> bundles g' = ["a.js"; "s.css"]
    /\ forall b, b ∈ bundles g' ->
                 b ∈ bundles Examples.styled_graph
                 \/ (Properties.grouped g' b /\ Properties.holds_entry_graph g' b).
Proof.
  eexists. split; [vm_compute; reflexivity|]. split; [vm_compute; reflexivity|].
  apply (bundle_places_created_bundles Examples.styled_host).
  vm_compute. reflexivity.
Defined.

(** [bundleRoots] tells the two bundles that are created for [x.css]
    apart. The first keeps its roots [x.css] and [y.css] when the second
    is created with the root [x.css], and the roots of both are attached
    to the bundle [x.css] of the graph. *)
Example bundle_attaches_roots_of_both_bundles :
  exists s g',
    MutableBundleGraph.traverse node_id (DefaultBundler.enter Examples.twin_host) MutableBundleGraph.no_exit
      (host_traverse Examples.twin_host Examples.twin_graph) None
      (DefaultBundler.mkState Examples.twin_graph [] [] [] []) = JS.Ok s
    /\ (fun entry : Bundle * list Asset => (bundle_id entry.1, asset_id <$> entry.2))
         <$> DefaultBundler.bundleRoots s
       = [("a.js", ["a.js"]); ("x.css", ["x.css"; "y.css"]); ("x.css", ["x.css"])]
    /\ DefaultBundler.bundle Examples.twin_host Examples.twin_graph = JS.Ok g'
    /\ bundle_id <$> bundles g' = ["a.js"; "x.css"]
    /\ Properties.contentsOf g' "x.css" = ["y.css"; "x.css"].
Proof.
  eexists. eexists. split; [vm_compute; reflexivity|].
  split; [vm_compute; reflexivity|]. split; [vm_compute; reflexivity|].
  split; vm_compute; reflexivity.
Qed.

(* ===================================================================== *)
(** * DefaultBundler: dependencies inside a bundle group                  *)
(* ===================================================================== *)

Section SameType.
Import MutableBundleGraph DefaultBundler Properties.
Context (host : Host).

Lemma same_but_siblings_refl (sib : nat) (s : State) : same_but_siblings sib s s.
Proof. repeat split; try done. intros k. by left. Qed.

Lemma same_but_siblings_trans (sib : nat) (s1 s2 s3 : State) :
  same_but_siblings sib s1 s2 -> same_but_siblings sib s2 s3 ->
  same_but_siblings sib s1 s3.
Proof.
  intros (H1 & H2 & H3 & H4 & H5 & H6 & H7 & H8)
         (I1 & I2 & I3 & I4 & I5 & I6 & I7 & I8).
  split; [congruence|]. split; [congruence|]. split; [congruence|].
  split; [congruence|]. split; [congruence|]. split; [congruence|].
  split; [intros bg id Hid; by apply I7, H7|].
  intros k. destruct (H8 k) as [Hk|[Hk Hk']], (I8 k) as [Ik|[Ik Ik']].
  - left. congruence.
  - right. split; congruence.
  - right. split; congruence.
  - congruence.
Qed.

Lemma foldl_add_frame (bg : BundleGroup) (l : list Bundle) (g : BundleGraph) :
  let g' := foldl (fun g bundle => addBundleToBundleGroup g bundle bg) g l in
  assetGraph g' = assetGraph g
  /\ bundles g' = bundles g
  /\ bundleGroups g' = bundleGroups g
  /\ bundleContents g' = bundleContents g
  /\ internalized g' = internalized g
  /\ assetReferences g' = assetReferences g
  /\ assetMeta g' = assetMeta g
  /\ (forall bg0 id, id ∈ bundle_id <$> getBundlesInBundleGroup g bg0 ->
                     id ∈ bundle_id <$> getBundlesInBundleGroup g' bg0)
  /\ (forall b, b ∈ l -> bundle_id b ∈ bundle_id <$> getBundlesInBundleGroup g' bg).
Proof.
  simpl. revert g. induction l as [|b l IH]; intros g; simpl.
  { repeat split; try done. intros b Hb. by apply elem_of_nil in Hb. }
  destruct (IH (addBundleToBundleGroup g b bg))
    as (H1 & H2 & H3 & H4 & H5 & H6 & H7 & H8 & H9).
  assert (Hgrow : forall bg0 id,
            id ∈ bundle_id <$> getBundlesInBundleGroup g bg0 ->
            id ∈ bundle_id <$> getBundlesInBundleGroup (addBundleToBundleGroup g b bg) bg0).
  { intros bg0 id Hid. rewrite !getBundlesInBundleGroup_members in *.
    destruct (decide (bg_id bg0 = bg_id bg)) as [Heq|Hne].
    - rewrite Heq in *. rewrite members_add_eq. apply set_add_bundle_ids. by left.
    - by rewrite members_add_ne. }
  repeat split; try done.
  - intros bg0 id Hid. by apply H8, Hgrow.
  - intros b0 [->|Hb0]%elem_of_cons; [|by apply H9].
    apply H8. rewrite getBundlesInBundleGroup_members, members_add_eq.
    apply set_add_bundle_ids. by right.
Qed.

(** One resolved asset of the parent's type. *)
Lemma placeAsset_same_type (d : Dependency) (parentAsset : Asset) (bg : BundleGroup)
    (bgd : Dependency) (ref sib : nat) (s : State) (a : Asset) :
  asset_type a = asset_type parentAsset ->
  exists s',
    placeAsset host d parentAsset bg bgd ref sib true s a = JS.Ok s'
    /\ same_but_siblings sib s s'
    /\ match JS.map_get (asset_id a) (siblingBundlesByAsset s) with
       | Some r =>
           forall b, b ∈ default [] (siblingArrays s !! r) ->
                     bundle_id b ∈ bundle_id <$> getBundlesInBundleGroup (graph s') bg
       | None => JS.map_get (asset_id a) (siblingBundlesByAsset s') = Some sib
       end.
Proof.
  intros Htype. unfold placeAsset. rewrite Htype, String.eqb_refl.
  destruct (JS.map_get (asset_id a) (siblingBundlesByAsset s)) as [r|] eqn:Hget.
  - eexists. split; [reflexivity|].
    destruct (foldl_add_frame bg (default [] (siblingArrays s !! r)) (graph s))
      as (H1 & H2 & H3 & H4 & H5 & H6 & H7 & H8 & H9).
    split; [|exact H9].
    repeat split; try done. intros k. by left.
  - eexists. split; [reflexivity|]. split.
    + repeat split; try done. intros k. simpl.
      destruct (decide (k = asset_id a)) as [->|Hne].
      * right. split; [done|]. apply map_get_set_eq.
      * left. by apply map_get_set_ne.
    + simpl. apply map_get_set_eq.
Qed.

Lemma placeAssets_same_type (d : Dependency) (c : Context) (parentAsset : Asset)
    (bg : BundleGroup) (bgd : Dependency) (ref sib : nat) (assets : list Asset) :
  bundleGroup c = Some bg ->
  Forall (fun a => asset_type a = asset_type parentAsset) assets ->
  forall s,
    JS.map_get (asset_id parentAsset) (siblingBundlesByAsset s) = Some sib ->
    exists s',
      placeAssets (placeAsset host d parentAsset bg bgd ref sib true) s assets
        = JS.Ok s'
      /\ same_but_siblings sib s s'
      /\ forall a, a ∈ assets -> shares_siblings c parentAsset s s' a.
Proof.
  intros Hbg. induction 1 as [|a l Ha Hl IH]; intros s Hsib; simpl.
  { exists s. split; [done|]. split; [apply same_but_siblings_refl|].
    intros a Ha. by apply elem_of_nil in Ha. }
  destruct (placeAsset_same_type d parentAsset bg bgd ref sib s a Ha)
    as (s1 & -> & Hs1 & Hhead).
  simpl.
  pose proof Hs1 as (_ & _ & _ & _ & Harr & _ & _ & Hmap).
  assert (Hsib1 : JS.map_get (asset_id parentAsset) (siblingBundlesByAsset s1) = Some sib).
  { destruct (Hmap (asset_id parentAsset)) as [->|[Hnone _]]; congruence. }
  destruct (IH s1 Hsib1) as (s' & -> & Hs' & Htail).
  exists s'. split; [done|]. split; [by eapply same_but_siblings_trans|].
  pose proof Hs' as (_ & _ & _ & _ & _ & _ & Hgrow & Hmap').
  intros a0 [->|Ha0]%elem_of_cons; unfold shares_siblings.
  - destruct (JS.map_get (asset_id a) (siblingBundlesByAsset s)) as [r|] eqn:Hget.
    + split.
      * destruct (Hmap' (asset_id a)) as [->|[Hnone _]];
          destruct (Hmap (asset_id a)) as [Hk|[Hk _]]; congruence.
      * intros bg0 b Hbg0 Hb. rewrite Hbg in Hbg0. injection Hbg0 as <-.
        by apply Hgrow, Hhead.
    + rewrite Hsib. destruct (Hmap' (asset_id a)) as [->|[Hnone _]]; congruence.
  - specialize (Htail a0 Ha0). unfold shares_siblings in Htail.
    destruct (Hmap (asset_id a0)) as [Hk|[Hk Hk']].
    + rewrite Hk, Harr in Htail.
      destruct (JS.map_get (asset_id a0) (siblingBundlesByAsset s)); [done|].
      congruence.
    + rewrite Hk. rewrite Hk' in Htail. destruct Htail as [-> _]. congruence.
Qed.

(** X16. When every asset that a dependency resolves to has the type of
    the parent asset, the visit creates no bundle, bundle group or asset
    reference and changes no list of root assets. An asset without a
    sibling array gets the array of the parent asset itself, not a copy;
    the bundles in the sibling array of an asset that has one are all in
    the bundle group of the context afterwards. *)
Theorem continue_same_type_shares_siblings (node : Node) (d : Dependency)
    (assets : list Asset) (c : Context) (parentAsset : Asset) (s : State)
    (v : Visit (option Context) State) :
  parentNode c = AssetNode parentAsset ->
  Forall (fun a => asset_type a = asset_type parentAsset) assets ->
  continueBundleGroup host node d assets (Some c) s = JS.Ok v ->
  let s' := visit_state v in
  bundles (graph s') = bundles (graph s)
  /\ bundleGroups (graph s') = bundleGroups (graph s)
  /\ assetReferences (graph s') = assetReferences (graph s)
  /\ bundleRoots s' = bundleRoots s
  /\ siblingArrays s' = siblingArrays s
  /\ forall a, a ∈ assets -> shares_siblings c parentAsset s s' a.
Proof.
  intros Hparent Hassets. unfold continueBundleGroup. simpl. rewrite Hparent. simpl.
  destruct (bundleGroup c) as [bg|] eqn:Hbg; simpl; [|done].
  destruct (bundleGroupDependency c) as [bgd|]; simpl; [|done].
  destruct (bundleByType c) as [ref|]; simpl; [|done].
  destruct (JS.map_get (asset_id parentAsset) (siblingBundlesByAsset s))
    as [sib|] eqn:Hsib; simpl; [|done].
  assert (forallb (fun a => String.eqb (asset_type a) (asset_type parentAsset)) assets
          = true) as ->.
  { apply forallb_forall. intros a Ha%list_elem_of_In.
    eapply List.Forall_forall in Hassets; [|by apply list_elem_of_In].
    rewrite Hassets. apply String.eqb_refl. }
  destruct (placeAssets_same_type d c parentAsset bg bgd ref sib assets Hbg Hassets
              s Hsib) as (s' & -> & (H1 & H2 & H3 & H4 & H5 & _) & Hshare).
  simpl. intros [= <-]. simpl. done.
Qed.
End SameType.

(** In the example, [a.js] imports [b.js], a script like itself: [b.js]
    gets the sibling array of [a.js]. *)
Lemma continue_same_type_shares_siblings_witness :
  exists v,
    DefaultBundler.continueBundleGroup Examples.styled_host
      (DependencyNode Examples.dep_js) Examples.dep_js [Examples.js_asset "b.js"]
      (Some Examples.styled_context) Examples.styled_state = JS.Ok v
    /\ bundles (DefaultBundler.graph (visit_state v))
       = bundles (DefaultBundler.graph Examples.styled_state)
    /\ JS.map_get "b.js" (DefaultBundler.siblingBundlesByAsset (visit_state v))
       = Some 0%nat.
Proof.
  eexists. split; [vm_compute; reflexivity|].
  destruct (continue_same_type_shares_siblings Examples.styled_host
              (DependencyNode Examples.dep_js) Examples.dep_js
              [Examples.js_asset "b.js"] Examples.styled_context
              (Examples.js_asset "a.js") Examples.styled_state _
              eq_refl ltac:(by repeat constructor) eq_refl)
    as (Hb & _ & _ & _ & _ & Hshare).
  split; [exact Hb|].
  apply (Hshare (Examples.js_asset "b.js")). apply elem_of_cons. by left.
Defined.

Section NewType.
Import MutableBundleGraph DefaultBundler Properties.
Context (host : Host).

(** X17. A resolved asset whose type differs from the parent asset's, in
    a bundle group that has no bundle of that type yet, gets a bundle of
    its own: the asset is its entry, [isEntry] is that of the dependency
    that opened the group, the target is the group's. The bundle is in
    the graph and in the group, [bundleRoots] gets a new entry for it
    with the asset as its only root, after the entries that were there,
    it is the bundle of its type from now on, the dependency refers to
    the asset, and the bundle is pushed onto the
    sibling array of the parent asset, where every asset that shares the
    array sees it. *)
Theorem placeAsset_new_type_creates_sibling (d : Dependency) (parentAsset : Asset)
    (bg : BundleGroup) (bgd : Dependency) (ref sib : nat) (allSameType : bool)
    (s : State) (a : Asset) :
  asset_type a <> asset_type parentAsset ->
  getBundleByType s ref (asset_type a) = None ->
  let b := new_bundle (host_bundleId host (typeBundleOpts bgd bg a))
                      (typeBundleOpts bgd bg a) in
  exists s',
    placeAsset host d parentAsset bg bgd ref sib allSameType s a = JS.Ok s'
    /\ bundle_mainEntry b = Some a
    /\ bundle_type b = asset_type a
    /\ bundle_isEntry b = dep_isEntry bgd
    /\ bundle_isInline b = asset_isInline a
    /\ bundle_target b = bg_target bg
    /\ b ∈ bundles (graph s')
    /\ bundle_id b ∈ bundle_id <$> getBundlesInBundleGroup (graph s') bg
    /\ (dep_id d, asset_id a) ∈ assetReferences (graph s')
    /\ bundleRoots s' = (bundleRoots s ++ [(b, [a])])%list
    /\ getBundleRoots s' (newBundle s) = Some (b, [a])
    /\ ((ref < length (typeMaps s))%nat ->
        getBundleByType s' ref (asset_type a) = Some (newBundle s))
    /\ (forall l, siblingArrays s !! sib = Some l ->
                  siblingArrays s' !! sib = Some (l ++ [b])%list)
    /\ (forall k r, JS.map_get k (siblingBundlesByAsset s) = Some r ->
                    JS.map_get k (siblingBundlesByAsset s') = Some r)
    /\ is_Some (JS.map_get (asset_id a) (siblingBundlesByAsset s')).
Proof.
  intros Htype Hnone b. unfold placeAsset.
  assert (String.eqb (asset_type parentAsset) (asset_type a) = false) as ->.
  { apply String.eqb_neq. congruence. }
  rewrite Hnone. cbn [createBundle]. fold b. simpl.
  assert (Hmembers : forall g,
            bundle_id b ∈ bundle_id <$> getBundlesInBundleGroup
                                          (addBundleToBundleGroup g b bg) bg).
  { intros g. rewrite getBundlesInBundleGroup_members, members_add_eq.
    apply set_add_bundle_ids. by right. }
  assert (Htypes : (ref < length (typeMaps s))%nat ->
            (alter (JS.map_set (asset_type a) (newBundle s)) ref (typeMaps s) !! ref)
              ≫= JS.map_get (asset_type a) = Some (newBundle s)).
  { intros Href. rewrite list_lookup_alter_eq.
    destruct (lookup_lt_is_Some_2 (typeMaps s) ref Href) as [m ->]. simpl.
    apply map_get_set_eq. }
  assert (Hroots : getBundleRoots
                     (mkState (graph s) (bundleRoots s ++ [(b, [a])])
                        (siblingBundlesByAsset s) (siblingArrays s) (typeMaps s))
                     (newBundle s) = Some (b, [a])).
  { unfold getBundleRoots, newBundle. simpl. rewrite lookup_app_r by done.
    by rewrite Nat.sub_diag. }
  assert (Hpush : forall l, siblingArrays s !! sib = Some l ->
            alter (fun l => (l ++ [b])%list) sib (siblingArrays s) !! sib
            = Some (l ++ [b])%list).
  { intros l Hl. by rewrite list_lookup_alter_eq, Hl. }
  destruct (JS.map_get (asset_id a) (siblingBundlesByAsset s)) as [r0|] eqn:Hget.
  - eexists. split; [reflexivity|]. simpl.
    repeat (split; [done|]).
    split; [apply elem_of_app; right; by apply list_elem_of_singleton|].
    split; [apply Hmembers|].
    split; [apply elem_of_app; right; by apply list_elem_of_singleton|].
    split; [done|]. split; [apply Hroots|].
    split; [exact Htypes|]. split; [exact Hpush|]. split; [done|]. by rewrite Hget.
  - eexists. split; [reflexivity|]. simpl.
    repeat (split; [done|]).
    split; [apply elem_of_app; right; by apply list_elem_of_singleton|].
    split; [apply Hmembers|].
    split; [apply elem_of_app; right; by apply list_elem_of_singleton|].
    split; [done|]. split; [apply Hroots|].
    split; [exact Htypes|].
    split.
    { intros l Hl. rewrite lookup_app_l; [by apply Hpush|].
      rewrite length_alter. by eapply lookup_lt_Some. }
    split.
    { intros k r Hk. rewrite map_get_set_ne; [done|]. intros ->. congruence. }
    rewrite map_get_set_eq. by eexists.
Qed.
End NewType.

(** In the example, [a.js] imports the stylesheet [s.css]: the bundle made
    for it is pushed onto the sibling array of [a.js]. *)
Lemma placeAsset_new_type_creates_sibling_witness :
  exists s',
    DefaultBundler.placeAsset Examples.styled_host Examples.dep_css
      (Examples.js_asset "a.js") Examples.styled_group (Examples.entry_dep "e")
      0 0 false Examples.styled_state (Examples.css_asset "s.css") = JS.Ok s'
    /\ bundle_id <$> default [] (DefaultBundler.siblingArrays s' !! 0%nat) = ["s.css"].
Proof.
  destruct (placeAsset_new_type_creates_sibling Examples.styled_host Examples.dep_css
              (Examples.js_asset "a.js") Examples.styled_group (Examples.entry_dep "e")
              0 0 false Examples.styled_state (Examples.css_asset "s.css")
              ltac:(discriminate) eq_refl)
    as (s' & Hs' & _ & _ & _ & _ & _ & _ & _ & _ & _ & _ & _ & Hpush & _).
  exists s'. split; [exact Hs'|]. by rewrite (Hpush [] eq_refl).
Defined.

(* ===================================================================== *)
(** * DefaultBundler: what the bundler never takes away                   *)
(* ===================================================================== *)

Section OnlyAdds.
Import MutableBundleGraph DefaultBundler Properties.
Context (host : Host).

Lemma extended_from_refl (g : BundleGraph) : extended_from g g.
Proof. repeat split; try done. exists []. by rewrite app_nil_r. Qed.

Lemma extended_from_trans (g1 g2 g3 : BundleGraph) :
  extended_from g1 g2 -> extended_from g2 g3 -> extended_from g1 g3.
Proof.
  intros (H1 & H2 & H3 & H4 & H5 & H6 & H7 & [added1 H8])
         (I1 & I2 & I3 & I4 & I5 & I6 & I7 & [added2 I8]).
  split; [congruence|]. split; [congruence|]. split; [congruence|].
  split; [intros id Hid; by apply I4, H4|].
  split; [intros id Hid; by apply I5, H5|].
  split; [intros bg id Hid; by apply I6, H6|].
  split; [intros b x Hx; by apply I7, H7|].
  exists (added1 ++ added2)%list. by rewrite I8, H8, app_assoc.
Qed.

Lemma createBundleGroup_extends (g : BundleGraph) (d : Dependency) (t : Target) :
  extended_from g (createBundleGroup g d t).2.
Proof.
  repeat split; try done.
  - intros id (bg & -> & Hbg)%list_elem_of_fmap. simpl.
    rewrite fmap_app, elem_of_app. simpl.
    destruct (String.eqb_spec (bg_id bg) (dep_id d)) as [Heq|Hne].
    + right. apply list_elem_of_singleton. exact Heq.
    + left. apply list_elem_of_fmap. exists bg. split; [done|].
      apply filter_elem_of. split; [done|]. apply negb_true_iff.
      by apply String.eqb_neq.
  - exists []. simpl. by rewrite app_nil_r.
Qed.

Lemma createBundle_extends (g : BundleGraph) (o : BundleOpts) :
  extended_from g (createBundle host g o).2.
Proof.
  repeat split; try done.
  - intros id Hid. apply createBundle_ids. by left.
  - exists []. simpl. by rewrite app_nil_r.
Qed.

Lemma addBundleToBundleGroup_extends (g : BundleGraph) (b : Bundle) (bg : BundleGroup) :
  extended_from g (addBundleToBundleGroup g b bg).
Proof.
  destruct (foldl_add_frame bg [b] g) as (H1 & H2 & H3 & H4 & H5 & H6 & H7 & H8 & _).
  simpl in *. repeat split; try done. exists []. by rewrite app_nil_r.
Qed.

Lemma createAssetReference_extends (g : BundleGraph) (d : Dependency) (a : Asset) :
  extended_from g (createAssetReference g d a).
Proof. repeat split; try done. by eexists. Qed.

Lemma foldl_add_extends (bg : BundleGroup) (l : list Bundle) (g : BundleGraph) :
  extended_from g (foldl (fun g bundle => addBundleToBundleGroup g bundle bg) g l).
Proof.
  revert g. induction l as [|b l IH]; intros g; simpl; [apply extended_from_refl|].
  eapply extended_from_trans; [apply addBundleToBundleGroup_extends|apply IH].
Qed.

Lemma openBundle_extends (d : Dependency) (bg : BundleGroup) (ref : nat) (s : State)
    (a : Asset) :
  extended_from (graph s) (graph (openBundle host d bg ref s a)).
Proof.
  rewrite openBundle_graph.
  eapply extended_from_trans;
    [apply createBundle_extends|apply addBundleToBundleGroup_extends].
Qed.

Lemma placeAsset_extends (d : Dependency) (parentAsset : Asset) (bg : BundleGroup)
    (bgd : Dependency) (ref siblingBundles : nat) (allSameType : bool)
    (s s' : State) (a : Asset) :
  placeAsset host d parentAsset bg bgd ref siblingBundles allSameType s a = JS.Ok s' ->
  extended_from (graph s) (graph s').
Proof.
  unfold placeAsset.
  destruct (String.eqb _ _).
  - destruct (JS.map_get _ _) as [r|]; destruct allSameType; intros [= <-];
      try apply extended_from_refl. apply foldl_add_extends.
  - destruct (getBundleByType s ref (asset_type a)) as [existing|].
    + destruct (getBundleRoots s existing) as [entry|]; simpl; [|done].
      destruct (JS.map_get (asset_id a) (siblingBundlesByAsset s)); intros [= <-];
        apply createAssetReference_extends.
    + simpl. destruct (JS.map_get (asset_id a) (siblingBundlesByAsset s));
        intros [= <-]; simpl;
        (eapply extended_from_trans; [apply createBundle_extends|];
         eapply extended_from_trans; [apply createAssetReference_extends|];
         apply addBundleToBundleGroup_extends).
Qed.

Lemma placeAssets_extends (d : Dependency) (parentAsset : Asset) (bg : BundleGroup)
    (bgd : Dependency) (ref siblingBundles : nat) (allSameType : bool)
    (assets : list Asset) (s s' : State) :
  placeAssets (placeAsset host d parentAsset bg bgd ref siblingBundles allSameType)
    s assets = JS.Ok s' ->
  extended_from (graph s) (graph s').
Proof.
  revert s. induction assets as [|a l IH]; intros s; simpl.
  - intros [= <-]. apply extended_from_refl.
  - destruct (placeAsset _ _ _ _ _ _ _ _ s a) as [s1|] eqn:Hs1; simpl; [|done].
    intros Hs'. eapply extended_from_trans; [by eapply placeAsset_extends|by apply IH].
Qed.

Lemma enter_extends (n : Node) (c : option Context) (s : State)
    (v : Visit (option Context) State) :
  enter host n c s = JS.Ok v -> extended_from (graph s) (graph (visit_state v)).
Proof.
  unfold enter. destruct n as [a|d]; [intros [= <-]; apply extended_from_refl|].
  destruct (opensBundleGroup _ _).
  - unfold openBundleGroup. destruct (JS.nullish _ _) as [target|]; simpl; [|done].
    intros [= <-]. simpl.
    eapply extended_from_trans; [apply (createBundleGroup_extends (graph s) d target)|].
    set (s1 := mkState _ _ _ _ _).
    change (createBundleGroup (graph s) d target).2 with (graph s1).
    clearbody s1. revert s1.
    induction (getDependencyAssets (graph s) d) as [|a l IH]; intros s1; simpl;
      [apply extended_from_refl|].
    eapply extended_from_trans; [apply openBundle_extends|apply IH].
  - unfold continueBundleGroup.
    destruct c as [c|]; simpl; [|done].
    destruct (parentNode c) as [parentAsset|]; simpl; [|done].
    destruct (bundleGroup c) as [bg|]; simpl; [|done].
    destruct (bundleGroupDependency c) as [bgd|]; simpl; [|done].
    destruct (bundleByType c) as [ref|]; simpl; [|done].
    destruct (JS.map_get _ _) as [siblingBundles|]; simpl; [|done].
    destruct (placeAssets _ s _) as [s'|] eqn:Hs'; simpl; [|done].
    intros [= <-]. simpl. by eapply placeAssets_extends.
Qed.

(** X18. The bundler only adds. The graph it returns has the bundle ids
    and bundle group ids of the graph it was given, every group has kept
    its members and every bundle its contents, the asset references of
    before come first in the list, and internalized dependencies and
    asset [meta] are the same. *)
Theorem bundle_only_adds (g g' : BundleGraph) :
  DefaultBundler.bundle host g = JS.Ok g' -> extended_from g g'.
Proof.
  unfold DefaultBundler.bundle.
  destruct (traverse _ _ _ _ _ _) as [s|] eqn:Hs; simpl; [|done].
  intros [= <-].
  assert (Hext : extended_from g (graph s)).
  { eapply (traverse_preserves _ _ _ (fun s => extended_from g (graph s)));
      [| | |exact Hs].
    - intros n c s0 v Hs0 Hv. eapply extended_from_trans; [exact Hs0|].
      by eapply enter_extends.
    - by intros n c s0 s1 Hs0 [= <-].
    - apply extended_from_refl. }
  eapply extended_from_trans; [exact Hext|].
  destruct (attachRoots_frame (bundleRoots s) (graph s))
    as (H1 & H2 & H3 & H4 & H5 & H6 & H7 & H8).
  repeat split; try done.
  - by rewrite H2.
  - by rewrite H3.
  - intros bg id. unfold getBundlesInBundleGroup. by rewrite H4.
  - exists []. by rewrite app_nil_r.
Qed.
End OnlyAdds.

(** The bundler keeps what it finds: run on the example that already has
    the bundle [old], it adds the bundles of [a.js] and [s.css]. *)
Lemma bundle_only_adds_witness :
  exists g',
    DefaultBundler.bundle Examples.styled_host Examples.kept_graph = JS.Ok g'
    /\ bundle_id <$> bundles g' = ["old"; "a.js"; "s.css"]
    /\ Properties.extended_from Examples.kept_graph g'.
Proof.
  eexists. split; [vm_compute; reflexivity|]. split; [vm_compute; reflexivity|].
  apply (bundle_only_adds Examples.styled_host). vm_compute. reflexivity.
Defined.

(* ===================================================================== *)
(** * The theorems at the examples                                        *)
(* ===================================================================== *)

(** The hoist of the example adds three bundles to the group [g1] and
    leaves the list of bundles alone. *)
Lemma hoistStep_only_adds_members_witness :
  exists g',
    OptimizeBundler.hoistStep Examples.crowded_host Examples.crowded = JS.Ok g'
    /\ bundles g' = bundles Examples.crowded
    /\ bundleGroups g' = bundleGroups Examples.crowded.
Proof.
  eexists. split; [vm_compute; reflexivity|].
  destruct (hoistStep_only_adds_members Examples.crowded_host Examples.crowded _
              ltac:(vm_compute; reflexivity)) as (Hb & Hg & _).
  split; [exact Hb|exact Hg].
Defined.

(** The entry bundle of the example contains the hoisted asset [a] and
    keeps it. *)
Lemma hoistStep_keeps_protected_bundles_witness :
  Properties.distinct_bundles Examples.guarded
  /\ Examples.entry_bundle ∈ bundles Examples.guarded
  /\ exists g',
       OptimizeBundler.hoistStep Examples.crowded_host Examples.guarded = JS.Ok g'
       /\ MutableBundleGraph.contents_of g' Examples.entry_bundle = ["a"].
Proof.
  assert (Properties.distinct_bundles Examples.guarded) as Hd.
  { apply (bool_decide_unpack _). vm_compute. exact I. }
  assert (Examples.entry_bundle ∈ bundles Examples.guarded) as Hin.
  { apply list_elem_of_In. vm_compute. tauto. }
  split; [exact Hd|]. split; [exact Hin|].
  eexists. split; [vm_compute; reflexivity|].
  rewrite (hoistStep_keeps_protected_bundles Examples.crowded_host Examples.guarded _
             Examples.entry_bundle Hd Hin (or_introl eq_refl)
             ltac:(vm_compute; reflexivity)).
  vm_compute. reflexivity.
Defined.

(** The bundle [bx] of the example holds [x], which its ancestor [main]
    has as well: deduplication leaves the other bundles alone. *)
Lemma deduplicateBundle_removes_duplicates_witness :
  exists g',
    OptimizeBundler.deduplicateBundle Examples.import_host Examples.async_self
      (Examples.js_bundle "bx" (Some Examples.x)) = JS.Ok g'
    /\ MutableBundleGraph.contents_of g' (Examples.js_bundle "bx" (Some Examples.x)) = []
    /\ MutableBundleGraph.contents_of g' Examples.main
       = MutableBundleGraph.contents_of Examples.async_self Examples.main.
Proof.
  eexists. split; [vm_compute; reflexivity|]. split; [vm_compute; reflexivity|].
  destruct (deduplicateBundle_removes_duplicates Examples.import_host
              Examples.async_self _ (Examples.js_bundle "bx" (Some Examples.x))
              ltac:(vm_compute; reflexivity)) as (_ & _ & _ & _ & _ & _ & Hother & _).
  apply Hother. discriminate.
Defined.

(** The bundles [b] and [a] give the key of [a] and [b]. *)
Lemma candidateKey_order_independent_witness :
  OptimizeBundler.candidateKey [Examples.js_bundle "b" None; Examples.js_bundle "a" None]
  = OptimizeBundler.candidateKey [Examples.js_bundle "a" None; Examples.js_bundle "b" None].
Proof.
  apply candidateKey_order_independent. apply perm_swap.
Defined.

(** The asset [big] of the example is recorded: what is below it is not
    visited. *)
Lemma collect_skips_children_of_recorded_witness :
  MutableBundleGraph.walk node_id (OptimizeBundler.collectVisitor Examples.shared_big)
    MutableBundleGraph.no_exit
    (VNode (AssetNode Examples.big) [Examples.leaf (AssetNode (Examples.js_asset "p.js"))])
    tt ([], [])
  = MutableBundleGraph.walk node_id (OptimizeBundler.collectVisitor Examples.shared_big)
      MutableBundleGraph.no_exit (VNode (AssetNode Examples.big) []) tt ([], []).
Proof.
  rewrite (collect_skips_children_of_recorded Examples.shared_big Examples.big
             [Examples.leaf (AssetNode (Examples.js_asset "p.js"))] [] []).
  - reflexivity.
  - intros H. by apply elem_of_nil in H.
Defined.

(** The candidate of [big] in the example is within the limit: its shared
    bundle is in the groups of [p], [q] and [r]. *)
Lemma extractCandidate_attaches_shared_bundle_witness :
  let c := OptimizeBundler.mkCandidate [Examples.big] (bundles Examples.shared_big) 60000 in
  OptimizeBundler.overLimit Examples.shared_big
    (OptimizeBundler.connectedBundleGroups Examples.shared_big
       (OptimizeBundler.sourceBundles c)) = false
  /\ exists g',
       OptimizeBundler.extractCandidate Examples.idle_host Examples.md5
         Examples.shared_big c = JS.Ok g'
       /\ bundleGroups g' = bundleGroups Examples.shared_big.
Proof.
  intros c. split; [reflexivity|].
  destruct (extractCandidate_attaches_shared_bundle Examples.idle_host Examples.md5
              Examples.shared_big c _ _ eq_refl eq_refl)
    as (g' & Hg' & _ & _ & _ & _ & _ & _ & _ & Hgroups & _).
  exists g'. split; [exact Hg'|exact Hgroups].
Defined.

(** In the example the importer [main] has [x] already: the pass
    internalizes [dx] in [main] and records the group of [dx]. *)
Lemma internalizeStep_internalizes_reachable_witness :
  exists g' asyncBundleGroups,
    OptimizeBundler.internalizeStep Examples.import_host Examples.async_self
      = JS.Ok (g', asyncBundleGroups)
    /\ internalized g' = [("main", "dx")]
    /\ Properties.more_internalized Examples.async_self g'.
Proof.
  eexists _, _. split; [vm_compute; reflexivity|]. split; [vm_compute; reflexivity|].
  apply (internalizeStep_internalizes_reachable Examples.import_host Examples.async_self
           _ _ ltac:(vm_compute; reflexivity)).
Defined.

